(** * Email classification pipeline: text signals, priority rule,
    retry policy and similarity index.

    Shallow embedding of
    - [src/ai/text_analyzer.py]     (TextAnalyzer),
    - [src/core/email_processor.py] (EmailProcessor),
    - [src/ai/llm_client.py]        (LLMClient),
    - [src/ai/semantic_search.py]   (SemanticSearchEngine),
    - [enhanced_email_classifier.py] (Config, classify_email).

    Python [str] values are modelled as [string], one [ascii] per
    character: the model is that of ASCII texts.  [str.lower],
    [str.isspace] and the classes [\w], [\d], [\s] of [re] are Python's on
    the ASCII characters; other characters are left alone by [lower] and
    belong to none of the classes, where Python would consult its Unicode
    tables.
    Python floats that are only compared and subtracted (distances,
    scores, confidences) are modelled as rationals [Q].  Counts that the
    source passes as [int] and that are never negative in its calls
    ([limit], [max_keywords], [retry_count]) are modelled as [nat].

    The external services (completion, embedding, vector collection) are
    parameters: a call either gives a value or raises, and the code's
    calls are recorded in a log, so that retries and missing calls can be
    stated. *)

From Stdlib Require Import List String Ascii Arith Bool Lia.
From Stdlib Require Import QArith Qminmax.
From Stdlib Require Import Sorting.Sorted Permutation.
From Equations Require Import Equations.
Import ListNotations.

Local Open Scope string_scope.
Local Open Scope list_scope.
Local Open Scope nat_scope.

(* ================================================================== *)
(** ** Python strings *)
(* ================================================================== *)

Module Text.

Definition code (c : ascii) : nat := nat_of_ascii c.

Definition between (lo hi : nat) (c : ascii) : bool :=
  (lo <=? code c) && (code c <=? hi).

Definition is_upper : ascii -> bool := between 65 90.
Definition is_lower : ascii -> bool := between 97 122.
Definition is_digit : ascii -> bool := between 48 57.
Definition is_alpha (c : ascii) : bool := is_upper c || is_lower c.
Definition is_alnum (c : ascii) : bool := is_alpha c || is_digit c.

(** [\w] : letters, digits and the underscore. *)
Definition is_word (c : ascii) : bool := is_alnum c || (code c =? 95).

(** [str.isspace] on ASCII: TAB, LF, VT, FF, CR, FS, GS, RS, US, SPACE. *)
Definition is_space (c : ascii) : bool :=
  between 9 13 c || between 28 32 c.

Definition lower_char (c : ascii) : ascii :=
  if is_upper c then ascii_of_nat (code c + 32) else c.

(** [s.lower()] *)
Fixpoint lower (s : string) : string :=
  match s with
  | EmptyString => EmptyString
  | String c s' => String (lower_char c) (lower s')
  end.

(** [needle in hay] *)
Fixpoint contains (needle hay : string) : bool :=
  if String.prefix needle hay then true
  else match hay with
       | EmptyString => false
       | String _ hay' => contains needle hay'
       end.

(** [s[:n]] for [n >= 0] *)
Fixpoint take (n : nat) (s : string) : string :=
  match n, s with
  | S n', String c s' => String c (take n' s')
  | _, _ => EmptyString
  end.

Fixpoint lstrip (s : string) : string :=
  match s with
  | String c s' => if is_space c then lstrip s' else s
  | EmptyString => EmptyString
  end.

Fixpoint rstrip (s : string) : string :=
  match s with
  | EmptyString => EmptyString
  | String c s' =>
      match rstrip s' with
      | EmptyString => if is_space c then EmptyString else String c EmptyString
      | r => String c r
      end
  end.

(** [s.strip()] *)
Definition strip (s : string) : string := rstrip (lstrip s).

(** [s[n:]] for [n >= 0] *)
Fixpoint drop (n : nat) (s : string) : string :=
  match n, s with
  | S n', String _ s' => drop n' s'
  | _, _ => s
  end.

(** [s[i:j]] for [0 <= i], [0 <= j] *)
Definition slice (i j : nat) (s : string) : string := take (j - i) (drop i s).

(** [s.split()]: the maximal runs of non-space characters.  [cur] is the
    run being read, reversed. *)
Fixpoint split_from (cur : list ascii) (s : string) : list string :=
  let flush (k : list string) :=
    match cur with
    | [] => k
    | _ => string_of_list_ascii (rev cur) :: k
    end in
  match s with
  | EmptyString => flush []
  | String c s' =>
      if is_space c then flush (split_from [] s')
      else split_from (c :: cur) s'
  end.

Definition split (s : string) : list string := split_from [] s.

(** [s.rfind(c)], [None] for Python's [-1]. *)
Fixpoint rfind (c : ascii) (s : string) : option nat :=
  match s with
  | EmptyString => None
  | String a s' =>
      match rfind c s' with
      | Some i => Some (S i)
      | None => if Ascii.eqb a c then Some 0 else None
      end
  end.

(** [sep.join(xs)] *)
Fixpoint join (sep : string) (xs : list string) : string :=
  match xs with
  | [] => EmptyString
  | [x] => x
  | x :: xs' => (x ++ sep ++ join sep xs')%string
  end.

(** [repr] of a list of plain strings, as an f-string prints it. *)
Definition list_repr (xs : list string) : string :=
  ("[" ++ join ", " (map (fun x => "'" ++ x ++ "'") xs) ++ "]")%string.

(** The line feed and the double quote. *)
Definition nl : string := String (ascii_of_nat 10) EmptyString.
Definition dq : string := String (ascii_of_nat 34) EmptyString.

(** [x in xs] for a list of strings *)
Definition mem (x : string) (xs : list string) : bool :=
  existsb (String.eqb x) xs.

(** [sum(1 for w in ws if w in text)] *)
Definition count_present (ws : list string) (text : string) : nat :=
  fold_left (fun acc w => if contains w text then acc + 1 else acc) ws 0.

(** Substring in the mathematical sense. *)
Definition substring_of (u t : string) : Prop :=
  exists pre post, t = (pre ++ u ++ post)%string.

(** [k] occurs in [t] up to letter case. *)
Definition occurs_ci (k t : string) : Prop :=
  exists u, substring_of u t /\ lower u = lower k.

End Text.

(* ================================================================== *)
(** ** Regular expressions ([re.findall]) *)
(* ================================================================== *)

(** A backtracking matcher with Python's priorities: alternatives are
    tried left to right, quantifiers are greedy, and the first way of
    matching found is the match. *)

Module Re.

Inductive regex :=
| Eps
| Chr (p : ascii -> bool)        (* a character class *)
| Bnd                            (* [\b] *)
| Seq (r1 r2 : regex)
| Alt (r1 r2 : regex)            (* [r1|r2] *)
| Star (r : regex)               (* [r*], greedy *)
| Grp (r : regex).               (* a capturing group *)

(** The matcher's position in the subject string. *)
Record state := mkState {
  prev : option ascii;           (* the character before the cursor *)
  rest : list ascii;             (* the characters from the cursor on *)
  pos : nat;                     (* the cursor's offset *)
  cap : option (nat * nat)       (* span of the group, once closed *)
}.

Definition wordish (c : option ascii) : bool :=
  match c with
  | Some c => Text.is_word c
  | None => false
  end.

Definition at_boundary (st : state) : bool :=
  xorb (wordish (prev st)) (wordish (hd_error (rest st))).

(** The iterations of a greedy [r*], [step] being one match of [r]: try
    one more iteration, which must consume input, before handing over to
    [k].  Every iteration shortens the input, so the length of the input
    is fuel enough. *)
Fixpoint star_loop (step : state -> (state -> option state) -> option state)
    (k : state -> option state) (fuel : nat) (st : state) : option state :=
  match fuel with
  | 0 => k st
  | S fuel' =>
      match step st
              (fun st1 =>
                 if List.length (rest st1) <? List.length (rest st)
                 then star_loop step k fuel' st1 else None) with
      | Some res => Some res
      | None => k st
      end
  end.

Fixpoint run (r : regex) (st : state) (k : state -> option state)
  : option state :=
  match r with
  | Eps => k st
  | Chr p =>
      match rest st with
      | c :: cs =>
          if p c then k (mkState (Some c) cs (S (pos st)) (cap st)) else None
      | [] => None
      end
  | Bnd => if at_boundary st then k st else None
  | Seq r1 r2 => run r1 st (fun st1 => run r2 st1 k)
  | Alt r1 r2 =>
      match run r1 st k with
      | Some res => Some res
      | None => run r2 st k
      end
  | Star r1 => star_loop (run r1) k (List.length (rest st)) st
  | Grp r1 =>
      run r1 st
        (fun st1 => k (mkState (prev st1) (rest st1) (pos st1)
                               (Some (pos st, pos st1))))
  end.

(** Derived forms. *)
Definition plus (r : regex) : regex := Seq r (Star r).        (* [r+] *)
Definition opt (r : regex) : regex := Alt r Eps.                (* [r?] *)

Fixpoint rep (n : nat) (r : regex) : regex :=                  (* [r{n}] *)
  match n with
  | 0 => Eps
  | S n' => Seq r (rep n' r)
  end.

Definition at_least (n : nat) (r : regex) : regex :=           (* [r{n,}] *)
  Seq (rep n r) (Star r).

Definition seqs (rs : list regex) : regex := fold_right Seq Eps rs.

Definition one_of (set : string) (c : ascii) : bool :=
  existsb (Ascii.eqb c) (list_ascii_of_string set).

(** A literal under [re.IGNORECASE]. *)
Definition lit_ci (s : string) : regex :=
  seqs (map (fun a => Chr (fun c => Ascii.eqb (Text.lower_char c) (Text.lower_char a)))
            (list_ascii_of_string s)).

(** [s[i:j]] on character lists. *)
Definition slice (i j : nat) (s : list ascii) : list ascii :=
  firstn (j - i) (skipn i s).

(** What [findall] reports for a match that started at offset [p] with
    [s] the subject from [p] on: the group when the pattern has one, the
    whole match otherwise. *)
Definition reported (p : nat) (s : list ascii) (st : state) : list ascii :=
  match cap st with
  | Some (i, j) => slice (i - p) (j - p) s
  | None => slice 0 (pos st - p) s
  end.

(** Left-to-right scan for non-overlapping matches; [skip] counts the
    characters still covered by the previous match.  Each match is
    reported with the offset it starts at.  After a match the scan goes
    on where the match ended; the patterns used here never match the
    empty string, the one case in which Python would look again at the
    offset of the match. *)
Fixpoint scan (r : regex) (before : option ascii) (s : list ascii)
    (p skip : nat) : list (nat * string) :=
  let '(found, skip') :=
    match skip with
    | S n => ([], n)
    | 0 =>
        match run r (mkState before s p None) Some with
        | Some st =>
            ([(p, string_of_list_ascii (reported p s st))], pos st - p - 1)
        | None => ([], 0)
        end
    end in
  found ++
  match s with
  | c :: s' => scan r (Some c) s' (S p) skip'
  | [] => []
  end.

(** [re.finditer], as (start offset, reported text). *)
Definition finditer (r : regex) (text : string) : list (nat * string) :=
  scan r None (list_ascii_of_string text) 0 0.

(** [re.findall(r, text)] *)
Definition findall (r : regex) (text : string) : list string :=
  map snd (finditer r text).

(** The strings a pattern can consume, word boundaries aside. *)
Inductive lang : regex -> list ascii -> Prop :=
| lang_eps : lang Eps []
| lang_chr p c : p c = true -> lang (Chr p) [c]
| lang_bnd : lang Bnd []
| lang_seq r1 r2 u v : lang r1 u -> lang r2 v -> lang (Seq r1 r2) (u ++ v)
| lang_alt_l r1 r2 u : lang r1 u -> lang (Alt r1 r2) u
| lang_alt_r r1 r2 u : lang r2 u -> lang (Alt r1 r2) u
| lang_star_nil r : lang (Star r) []
| lang_star_app r u v : lang r u -> lang (Star r) v -> lang (Star r) (u ++ v)
| lang_grp r u : lang r u -> lang (Grp r) u.

End Re.

(* ================================================================== *)
(** ** Data model ([src/data/models.py]) *)
(* ================================================================== *)

Inductive EmailCategory :=
  SUPPORT | COMPLAINT | INQUIRY | ORDER | BILLING | TECHNICAL | GENERAL.

Inductive EmailPriority := LOW | MEDIUM | HIGH | URGENT.

Inductive EmailSentiment := POSITIVE | NEUTRAL | NEGATIVE.

Definition all_categories : list EmailCategory :=
  [SUPPORT; COMPLAINT; INQUIRY; ORDER; BILLING; TECHNICAL; GENERAL].

(** The wire value of a member of [class EmailCategory(str, Enum)]. *)
Definition category_value (c : EmailCategory) : string :=
  match c with
  | SUPPORT => "support"
  | COMPLAINT => "complaint"
  | INQUIRY => "inquiry"
  | ORDER => "order"
  | BILLING => "billing"
  | TECHNICAL => "technical"
  | GENERAL => "general"
  end.

(** [EmailCategory(s)]: the member whose value is [s]; [None] stands for
    the error raised on any other string. *)
Definition category_of_string (s : string) : option EmailCategory :=
  find (fun c => String.eqb s (category_value c)) all_categories.

Record EmailRequest := mkEmailRequest {
  subject : string;
  body : string;
  sender : string
}.

(** The value found under a key whose reader wants a string or nothing. *)
Inductive JsonValue :=
| JNull                          (* [null] *)
| JString (s : string)           (* a string *)
| JOther.                        (* a number, a boolean, a list or an object *)

(** The dict parsed from the completion service's JSON answer, reduced to
    the keys the pipeline reads; [None] is an absent key.
    [ai_category] is compared with the members of the enum and validated
    as one: a value that is no string equals no member and fails the
    validation, as a string outside the enum does, and is modelled as
    such a string.
    [ai_confidence] goes to a [float] field only: it is the number that
    field reads from the value, which is the value itself for a JSON
    number and, pydantic converting in its lax mode, the number written in
    a numeric string; a value the field rejects is modelled as a number
    outside [0, 1].
    [ai_subcategory] goes to an [Optional[str]] field only, which takes
    [null] and strings and rejects every other value. *)
Record AiClassification := mkAi {
  ai_category : option string;
  ai_subcategory : option JsonValue;
  ai_confidence : option Q
}.

(** An entity dict [{"type": ..., "value": ...}]. *)
Record Entity := mkEntity { etype : string; evalue : string }.

Record EmailClassification := mkEmailClassification {
  category : EmailCategory;
  subcategory : option string;
  priority : EmailPriority;
  sentiment : EmailSentiment;
  confidence : Q;
  keywords : list string;
  entities : list Entity
}.

Definition priority_value (p : EmailPriority) : string :=
  match p with
  | LOW => "low"
  | MEDIUM => "medium"
  | HIGH => "high"
  | URGENT => "urgent"
  end.

Definition sentiment_value (x : EmailSentiment) : string :=
  match x with
  | POSITIVE => "positive"
  | NEUTRAL => "neutral"
  | NEGATIVE => "negative"
  end.

Record EmailResponse := mkEmailResponse {
  content : string;
  tone : string;
  suggested_actions : list string;
  response_confidence : Q
}.

Record EmailProcessingResult := mkEmailProcessingResult {
  result_email_id : string;
  classification : EmailClassification;
  response : EmailResponse;
  processing_time : Q;
  result_timestamp : string
}.

(** The dict parsed from the completion service's answer to a response
    request, by the keys that are read; [None] for an absent key. *)
Record ResponseData := mkResponseData {
  rd_content : option string;
  rd_tone : option string;
  rd_suggested_actions : option (list string);
  rd_confidence : option Q
}.

(** Python exceptions, by the place that raises them. *)
Inductive Exn :=
| APIError                      (* the completion request failed *)
| JSONDecodeError               (* [json.loads] rejected the answer *)
| KeyError (key : string)       (* [d[key]] on a missing key *)
| ValidationError (field : string)   (* a pydantic model rejected a field *)
| ValueError                    (* [EmailCategory(s)] on an unknown value *)
| EmbeddingError                (* the embedding request failed *)
| IndexError_                   (* a vector-store operation failed *)
| ZeroDivisionError             (* a division by zero *).

Inductive Result (A : Type) :=
| Ok (a : A)
| Raise (e : Exn).
Arguments Ok {A} a.
Arguments Raise {A} e.

(* ================================================================== *)
(** ** TextAnalyzer ([src/ai/text_analyzer.py]) *)
(* ================================================================== *)

Module TextAnalyzer.

Definition positive_keywords : list string :=
  ["thank"; "great"; "excellent"; "wonderful"; "amazing"; "love";
   "perfect"; "satisfied"; "happy"; "pleased"].

Definition negative_keywords : list string :=
  ["terrible"; "awful"; "bad"; "horrible"; "disappointed"; "angry";
   "frustrated"; "upset"; "unhappy"; "hate"; "worst"].

Definition analyze_sentiment (text : string) : EmailSentiment :=
  let text_lower := Text.lower text in
  let positive_count := Text.count_present positive_keywords text_lower in
  let negative_count := Text.count_present negative_keywords text_lower in
  if negative_count <? positive_count then POSITIVE
  else if positive_count <? negative_count then NEGATIVE
  else NEUTRAL.

Definition stop_words : list string :=
  ["the"; "a"; "an"; "and"; "or"; "but"; "in"; "on"; "at"; "to"; "for";
   "of"; "with"; "by"; "from"; "up"; "about"; "into"; "through"; "during";
   "before"; "after"; "above"; "below"; "between"; "among"; "is"; "are";
   "was"; "were"; "be"; "been"; "being"; "have"; "has"; "had"; "do"; "does";
   "did"; "will"; "would"; "could"; "should"; "may"; "might"; "can"; "am"].

(** [\b[a-zA-Z]{3,}\b] *)
Definition word_pattern : Re.regex :=
  Re.seqs [Re.Bnd; Re.at_least 3 (Re.Chr Text.is_alpha); Re.Bnd].

(** A [dict] from words to counts, in insertion order. *)
Definition Freq := list (string * nat).

(** [d.get(k, 0)] *)
Fixpoint dict_get (d : Freq) (k : string) : nat :=
  match d with
  | [] => 0
  | (k', v) :: d' => if String.eqb k k' then v else dict_get d' k
  end.

(** [d[k] = v]: an existing key keeps its place, a new key goes last. *)
Fixpoint dict_set (d : Freq) (k : string) (v : nat) : Freq :=
  match d with
  | [] => [(k, v)]
  | (k', v') :: d' =>
      if String.eqb k k' then (k', v) :: d' else (k', v') :: dict_set d' k v
  end.

(** One step of [sorted(..., key=lambda x: x[1], reverse=True)]: [x] came
    before everything in [l] and [l] is already sorted, so [x] goes in
    front of the first item whose count is not larger. *)
Fixpoint insert_desc (x : string * nat) (l : Freq) : Freq :=
  match l with
  | [] => [x]
  | y :: l' =>
      if snd x <? snd y then y :: insert_desc x l' else x :: y :: l'
  end.

(** [sorted(d.items(), key=lambda x: x[1], reverse=True)]; Python's sort
    is stable, also with [reverse=True]. *)
Definition sorted_by_count_desc (d : Freq) : Freq :=
  fold_right insert_desc [] d.

Definition extract_keywords (text : string) (max_keywords : nat)
  : list string :=
  let text_lower := Text.lower text in
  let words := Re.findall word_pattern text_lower in
  let word_freq :=
    fold_left
      (fun word_freq word =>
         if negb (Text.mem word stop_words)
         then dict_set word_freq word (dict_get word_freq word + 1)
         else word_freq)
      words [] in
  let keywords := sorted_by_count_desc word_freq in
  map fst (firstn max_keywords keywords).

(** [\b[A-Za-z0-9._%+-]+@[A-Za-z0-9.-]+\.[A-Z|a-z]{2,}\b] *)
Definition email_pattern : Re.regex :=
  Re.seqs
    [Re.Bnd;
     Re.plus (Re.Chr (fun c => Text.is_alnum c || Re.one_of "._%+-" c));
     Re.Chr (Re.one_of "@");
     Re.plus (Re.Chr (fun c => Text.is_alnum c || Re.one_of ".-" c));
     Re.Chr (Re.one_of ".");
     Re.at_least 2
       (Re.Chr (fun c => Text.is_upper c || Re.one_of "|" c || Text.is_lower c));
     Re.Bnd].

(** [\b\d{3}[-.]?\d{3}[-.]?\d{4}\b] *)
Definition phone_pattern : Re.regex :=
  Re.seqs
    [Re.Bnd;
     Re.rep 3 (Re.Chr Text.is_digit);
     Re.opt (Re.Chr (Re.one_of "-."));
     Re.rep 3 (Re.Chr Text.is_digit);
     Re.opt (Re.Chr (Re.one_of "-."));
     Re.rep 4 (Re.Chr Text.is_digit);
     Re.Bnd].

(** [(?:order|#)\s*[-:]?\s*([a-zA-Z0-9]+)] under [re.IGNORECASE] *)
Definition order_pattern : Re.regex :=
  Re.seqs
    [Re.Alt (Re.lit_ci "order") (Re.Chr (Re.one_of "#"));
     Re.Star (Re.Chr Text.is_space);
     Re.opt (Re.Chr (Re.one_of "-:"));
     Re.Star (Re.Chr Text.is_space);
     Re.Grp (Re.plus (Re.Chr Text.is_alnum))].

(** [\$\d+(?:\.\d{2})?] *)
Definition money_pattern : Re.regex :=
  Re.seqs
    [Re.Chr (Re.one_of "$");
     Re.plus (Re.Chr Text.is_digit);
     Re.opt (Re.seqs [Re.Chr (Re.one_of "."); Re.rep 2 (Re.Chr Text.is_digit)])].

(** The four passes of [extract_entities], each as (type tag, pattern). *)
Definition entity_passes : list (string * Re.regex) :=
  [("email", email_pattern); ("phone", phone_pattern);
   ("order_id", order_pattern); ("money", money_pattern)].

(** [for v in re.findall(pattern, text): entities.append({...})] *)
Definition entities_of (tag : string) (pattern : Re.regex) (text : string)
  : list Entity :=
  map (mkEntity tag) (Re.findall pattern text).

Definition extract_entities (text : string) : list Entity :=
  let entities := [] in
  let entities := entities ++ entities_of "email" email_pattern text in
  let entities := entities ++ entities_of "phone" phone_pattern text in
  let entities := entities ++ entities_of "order_id" order_pattern text in
  let entities := entities ++ entities_of "money" money_pattern text in
  entities.

(** The same four passes, keeping for every entity the offset at which
    its match starts in [text]. *)
Definition located_entities (text : string) : list (nat * Entity) :=
  flat_map
    (fun '(tag, pattern) =>
       map (fun '(p, v) => (p, mkEntity tag v)) (Re.finditer pattern text))
    entity_passes.

(** [calculate_urgency_score(text)]: [min(urgency_count / max_score, 1.0)];
    the quotient of the two counts is a rational here. *)
Definition urgent_indicators : list string :=
  ["urgent"; "emergency"; "critical"; "asap"; "immediately";
   "broken"; "down"; "not working"; "crashed"; "failed"].

Definition calculate_urgency_score (text : string) : Q :=
  let text_lower := Text.lower text in
  let urgency_count := Text.count_present urgent_indicators text_lower in
  let max_score := List.length urgent_indicators in
  Qmin (inject_Z (Z.of_nat urgency_count) / inject_Z (Z.of_nat max_score)) 1.

Definition spanish_words : list string :=
  ["el"; "la"; "es"; "en"; "de"; "que"; "por"; "con"].

Definition french_words : list string :=
  ["le"; "la"; "est"; "en"; "de"; "que"; "pour"; "avec"].

(** The fifth word is [f], u with diaeresis (code 252), [r]. *)
Definition german_words : list string :=
  ["der"; "die"; "ist"; "in"; "von"; "dass";
   String "f" (String (ascii_of_nat 252) "r"); "mit"].

Definition detect_language (text : string) : string :=
  match text with
  | EmptyString => "en"
  | _ =>
      let text_lower := Text.lower text in
      let spanish_count := Text.count_present spanish_words text_lower in
      let french_count := Text.count_present french_words text_lower in
      let german_count := Text.count_present german_words text_lower in
      if 2 <? spanish_count then "es"
      else if 2 <? french_count then "fr"
      else if 2 <? german_count then "de"
      else "en"
  end.

End TextAnalyzer.

(* ================================================================== *)
(** ** The completion service *)
(* ================================================================== *)

(** One chat message, as (role, content). *)
Definition Message := (string * string)%type.

(** What one [client.chat.completions.create(...)] call comes to: the
    text of [response.choices[0].message.content], or an exception
    raised before the caller has that text. *)
Inductive Completion :=
| CompletionRaises
| CompletionContent (content : string).

(** What the code does to the outside world, in order. *)
Inductive Event :=
| Request (messages : list Message)
| Sleep (seconds : Q).

Definition Log := list Event.

Definition is_request (e : Event) : bool :=
  match e with
  | Request _ => true
  | Sleep _ => false
  end.

Definition requests_made (w : Log) : nat :=
  List.length (filter is_request w).

(** The service: its answer to a request may depend on how many requests
    were made before. *)
Definition Client := nat -> list Message -> Completion.

(* ================================================================== *)
(** ** [enhanced_email_classifier.py] *)
(* ================================================================== *)

Module Config.

Definition VALID_CATEGORIES : list string := ["order"; "inquiry"; "other"].
Definition DEFAULT_CATEGORY : string := "other".
Definition MAX_RETRIES : nat := 3.
Definition RETRY_DELAY : Q := 1.

End Config.

Module Enhanced.

(** [s[:n] + "..."] when [len(s) > n] *)
Definition truncate (n : nat) (s : string) : string :=
  if n <? String.length s then (Text.take n s ++ "...")%string else s.

Definition max_subject_length : nat := 200.
Definition max_body_length : nat := 2000.

Definition prompt (subject body : string) : string :=
  ("You are an email classification system for customer support. " ++
   "Classify the email below into exactly one of these categories:" ++
   Text.nl ++ Text.nl ++
   "Categories:" ++ Text.nl ++
   "- order: Questions about existing orders, order status, shipping, delivery, returns, refunds" ++ Text.nl ++
   "- inquiry: Product questions, general information requests, technical support" ++ Text.nl ++
   "- other: All other emails including greetings, complaints, feedback, spam" ++
   Text.nl ++ Text.nl ++
   "Email to classify:" ++ Text.nl ++
   "Subject: " ++ subject ++ Text.nl ++ Text.nl ++
   "Body:" ++ Text.nl ++ body ++ Text.nl ++ Text.nl ++
   "Instructions:" ++ Text.nl ++
   "- Respond with ONLY the category name in lowercase" ++ Text.nl ++
   "- Do not include any explanation or additional text" ++ Text.nl ++
   "- Valid responses are: order, inquiry, other" ++ Text.nl ++ Text.nl ++
   "Category:")%string.

(** The request of one attempt, after truncation of both inputs. *)
Definition request_for (subject body : string) : list Message :=
  [("user", prompt (truncate max_subject_length subject)
                   (truncate max_body_length body))].

(** [classify_email(client, subject, body, retry_count)], threading the
    log of requests and sleeps.  Both inputs are strings here, so the
    [isinstance] conversions at the top of the source do nothing.  The
    [except] branch is entered by any exception of the [try] block, which
    is the [CompletionRaises] case. *)
Equations classify_email (client : Client) (subject body : string)
    (retry_count : nat) (w : Log) : string * Log
  by wf (Config.MAX_RETRIES - 1 - retry_count) lt :=
classify_email client subject body retry_count w
  with client (requests_made w) (request_for subject body) := {
  | CompletionContent content =>
      let category := Text.lower (Text.strip content) in
      if negb (Text.mem category Config.VALID_CATEGORIES)
      then (Config.DEFAULT_CATEGORY, w ++ [Request (request_for subject body)])
      else (category, w ++ [Request (request_for subject body)])
  | CompletionRaises with lt_dec retry_count (Config.MAX_RETRIES - 1) := {
      | left _ =>
          classify_email client
            (truncate max_subject_length subject)
            (truncate max_body_length body)
            (retry_count + 1)
            (w ++ [Request (request_for subject body);
                   Sleep Config.RETRY_DELAY])
      | right _ =>
          (Config.DEFAULT_CATEGORY,
           w ++ [Request (request_for subject body)]) } }.
Next Obligation. destruct retry_count as [|[|?]]; simpl; lia. Qed.


End Enhanced.

(* ================================================================== *)
(** ** LLMClient ([src/ai/llm_client.py]) *)
(* ================================================================== *)

Module LLMClient.

Definition _build_classification_prompt (content : string) : string :=
  let categories := Text.list_repr (map category_value all_categories) in
  let sentiments := Text.list_repr ["positive"; "neutral"; "negative"] in
  let ind := "        " in
  let fld := "            " in
  (Text.nl ++
   ind ++ "Please analyze the following email and provide a classification in JSON format." ++ Text.nl ++
   Text.nl ++
   ind ++ "Email Content:" ++ Text.nl ++
   ind ++ content ++ Text.nl ++
   Text.nl ++
   ind ++ "Please provide the classification with the following structure:" ++ Text.nl ++
   ind ++ "{" ++ Text.nl ++
   fld ++ Text.dq ++ "category" ++ Text.dq ++ ": " ++ Text.dq ++ "one of " ++ categories ++ Text.dq ++ "," ++ Text.nl ++
   fld ++ Text.dq ++ "subcategory" ++ Text.dq ++ ": " ++ Text.dq ++ "specific subcategory if applicable" ++ Text.dq ++ "," ++ Text.nl ++
   fld ++ Text.dq ++ "sentiment" ++ Text.dq ++ ": " ++ Text.dq ++ "one of " ++ sentiments ++ Text.dq ++ "," ++ Text.nl ++
   fld ++ Text.dq ++ "confidence" ++ Text.dq ++ ": " ++ Text.dq ++ "confidence score between 0.0 and 1.0" ++ Text.dq ++ "," ++ Text.nl ++
   fld ++ Text.dq ++ "reasoning" ++ Text.dq ++ ": " ++ Text.dq ++ "brief explanation of the classification" ++ Text.dq ++ Text.nl ++
   ind ++ "}" ++ Text.nl ++
   Text.nl ++
   ind ++ "Consider the content, tone, and intent of the email when classifying." ++ Text.nl ++
   ind)%string.

Definition classification_request (content : string) : list Message :=
  [("system", "You are an expert email classifier. Analyze the email and provide accurate classification.");
   ("user", _build_classification_prompt content)].

(** [classify_email(content)]: one request, then [json.loads]; every
    exception is logged and raised again.  [json_loads] gives the dict
    read from the answer, [None] when the answer is not a JSON object. *)
Definition classify_email (client : Client)
    (json_loads : string -> option AiClassification)
    (content : string) (w : Log) : Result AiClassification * Log :=
  let w1 := w ++ [Request (classification_request content)] in
  match client (requests_made w) (classification_request content) with
  | CompletionRaises => (Raise APIError, w1)
  | CompletionContent result =>
      match json_loads result with
      | Some classification => (Ok classification, w1)
      | None => (Raise JSONDecodeError, w1)
      end
  end.

(** How an f-string prints a member of the three [str] enums: its value
    up to Python 3.10, [Class.MEMBER] from Python 3.11 on. *)
Record EnumFormat := mkEnumFormat {
  show_category : EmailCategory -> string;
  show_priority : EmailPriority -> string;
  show_sentiment : EmailSentiment -> string
}.

Definition _build_response_prompt (fmt : EnumFormat) (email : EmailRequest)
    (classification : EmailClassification) : string :=
  let ind := "        " in
  let fld := "            " in
  let q := Text.dq in
  (Text.nl ++
   ind ++ "Generate a professional email response based on the following information:" ++ Text.nl ++
   Text.nl ++
   ind ++ "Original Email:" ++ Text.nl ++
   ind ++ "Subject: " ++ subject email ++ Text.nl ++
   ind ++ "From: " ++ sender email ++ Text.nl ++
   ind ++ "Content: " ++ body email ++ Text.nl ++
   Text.nl ++
   ind ++ "Classification:" ++ Text.nl ++
   ind ++ "Category: " ++ show_category fmt (category classification) ++ Text.nl ++
   ind ++ "Priority: " ++ show_priority fmt (priority classification) ++ Text.nl ++
   ind ++ "Sentiment: " ++ show_sentiment fmt (sentiment classification) ++ Text.nl ++
   ind ++ "Keywords: " ++ Text.join ", " (keywords classification) ++ Text.nl ++
   Text.nl ++
   ind ++ "Please generate a response in JSON format:" ++ Text.nl ++
   ind ++ "{" ++ Text.nl ++
   fld ++ q ++ "content" ++ q ++ ": " ++ q ++ "professional email response content" ++ q ++ "," ++ Text.nl ++
   fld ++ q ++ "tone" ++ q ++ ": " ++ q ++ "tone of the response (professional, friendly, empathetic, etc.)" ++ q ++ "," ++ Text.nl ++
   fld ++ q ++ "suggested_actions" ++ q ++ ": [" ++ q ++ "list" ++ q ++ ", " ++ q ++ "of" ++ q ++ ", " ++ q ++ "suggested" ++ q ++ ", " ++ q ++ "follow-up" ++ q ++ ", " ++ q ++ "actions" ++ q ++ "]," ++ Text.nl ++
   fld ++ q ++ "confidence" ++ q ++ ": " ++ q ++ "confidence score between 0.0 and 1.0" ++ q ++ Text.nl ++
   ind ++ "}" ++ Text.nl ++
   Text.nl ++
   ind ++ "Guidelines:" ++ Text.nl ++
   ind ++ "- Be professional and courteous" ++ Text.nl ++
   ind ++ "- Address the customer's concerns directly" ++ Text.nl ++
   ind ++ "- Provide helpful information or next steps" ++ Text.nl ++
   ind ++ "- Match the tone to the email category and sentiment" ++ Text.nl ++
   ind ++ "- Keep response concise but complete" ++ Text.nl ++
   ind ++ "- Include relevant contact information if needed" ++ Text.nl ++
   ind)%string.

Definition response_request (fmt : EnumFormat) (email : EmailRequest)
    (classification : EmailClassification) : list Message :=
  [("system", "You are a professional customer service assistant. Generate helpful, empathetic, and actionable email responses.");
   ("user", _build_response_prompt fmt email classification)].

(** [EmailResponse(content=d["content"], tone=d["tone"],
    suggested_actions=d.get("suggested_actions", []),
    confidence=d.get("confidence", 0.8))]: the two subscripts raise on a
    missing key, then the model validates [max_length=2000] and the
    bounds [ge=0.0, le=1.0]. *)
Definition build_response (response_data : ResponseData)
  : Result EmailResponse :=
  match rd_content response_data with
  | None => Raise (KeyError "content")
  | Some content =>
      match rd_tone response_data with
      | None => Raise (KeyError "tone")
      | Some tone =>
          let suggested_actions :=
            match rd_suggested_actions response_data with
            | Some actions => actions
            | None => []
            end in
          let confidence :=
            match rd_confidence response_data with
            | Some c => c
            | None => 8 # 10
            end in
          if 2000 <? String.length content
          then Raise (ValidationError "content")
          else if Qle_bool 0 confidence && Qle_bool confidence 1
          then Ok (mkEmailResponse content tone suggested_actions confidence)
          else Raise (ValidationError "confidence")
      end
  end.

(** [generate_response(email, classification)]: one request, then
    [json.loads] and the model; every exception is logged and raised
    again. *)
Definition generate_response (fmt : EnumFormat) (client : Client)
    (json_loads : string -> option ResponseData)
    (email : EmailRequest) (classification : EmailClassification) (w : Log)
  : Result EmailResponse * Log :=
  let request := response_request fmt email classification in
  let w1 := w ++ [Request request] in
  match client (requests_made w) request with
  | CompletionRaises => (Raise APIError, w1)
  | CompletionContent result =>
      match json_loads result with
      | Some response_data => (build_response response_data, w1)
      | None => (Raise JSONDecodeError, w1)
      end
  end.

Definition sentiment_request (text : string) : list Message :=
  [("user",
    ("Analyze the sentiment of this text and respond with only one word - either 'positive', 'neutral', or 'negative':"
     ++ Text.nl ++ Text.nl ++ text)%string)].

(** [EmailSentiment(s)] for [s] among the three values. *)
Definition sentiment_of_string (s : string) : option EmailSentiment :=
  find (fun x => String.eqb s (sentiment_value x)) [POSITIVE; NEUTRAL; NEGATIVE].

(** [analyze_sentiment(text)]: one request; an answer outside the three
    words, and any exception, give NEUTRAL. *)
Definition analyze_sentiment (client : Client) (text : string) (w : Log)
  : EmailSentiment * Log :=
  let w1 := w ++ [Request (sentiment_request text)] in
  match client (requests_made w) (sentiment_request text) with
  | CompletionRaises => (NEUTRAL, w1)
  | CompletionContent content =>
      let sentiment_str := Text.lower (Text.strip content) in
      if Text.mem sentiment_str ["positive"; "neutral"; "negative"]
      then
        match sentiment_of_string sentiment_str with
        | Some x => (x, w1)
        | None => (NEUTRAL, w1)
        end
      else (NEUTRAL, w1)
  end.

End LLMClient.

(* ================================================================== *)
(** ** EmailProcessor ([src/core/email_processor.py]) *)
(* ================================================================== *)

Module EmailProcessor.

Definition urgent_keywords : list string :=
  ["urgent"; "emergency"; "critical"; "asap"; "immediately";
   "broken"; "down"; "not working"; "error"; "failed"].

(** [category == EmailCategory.X] for [category] the value under
    ["category"]: a member of a [str] enum equals its own value. *)
Definition category_is (c : option string) (m : EmailCategory) : bool :=
  match c with
  | Some s => String.eqb s (category_value m)
  | None => false
  end.

Definition _determine_priority (email : EmailRequest)
    (ai_classification : AiClassification) : EmailPriority :=
  let content_lower := Text.lower (subject email ++ " " ++ body email) in
  if existsb (fun keyword => Text.contains keyword content_lower)
       urgent_keywords
  then URGENT
  else
    let category := ai_category ai_classification in
    if category_is category COMPLAINT then HIGH
    else if existsb (category_is category) [TECHNICAL; BILLING] then MEDIUM
    else LOW.

(** What an [Optional[str]] field makes of [d.get(key)]: nothing for an
    absent key and for [null], the string for a string; the outer [None]
    stands for the rejection of any other value. *)
Definition optional_str (v : option JsonValue) : option (option string) :=
  match v with
  | None | Some JNull => Some None
  | Some (JString s) => Some (Some s)
  | Some JOther => None
  end.

(** [EmailClassification(category=ai["category"],
    subcategory=ai.get("subcategory"), ..., confidence=ai["confidence"],
    ...)]: the two subscripts raise on a missing key, then the model
    validates the enum value, the type of the subcategory and the bounds
    [ge=0.0, le=1.0].  The one [ValidationError] that reports every
    rejected field is given by the first of them. *)
Definition build_classification (ai : AiClassification)
    (priority : EmailPriority) (sentiment : EmailSentiment)
    (keywords : list string) (entities : list Entity)
  : Result EmailClassification :=
  match ai_category ai with
  | None => Raise (KeyError "category")
  | Some cat_value =>
      match ai_confidence ai with
      | None => Raise (KeyError "confidence")
      | Some conf =>
          match category_of_string cat_value with
          | None => Raise (ValidationError "category")
          | Some cat =>
              match optional_str (ai_subcategory ai) with
              | None => Raise (ValidationError "subcategory")
              | Some sub =>
                  if Qle_bool 0 conf && Qle_bool conf 1
                  then Ok (mkEmailClassification cat sub priority
                             sentiment conf keywords entities)
                  else Raise (ValidationError "confidence")
              end
          end
      end
  end.

(** [f"Subject: {email.subject}\n\nBody: {email.body}"] *)
Definition email_content (email : EmailRequest) : string :=
  ("Subject: " ++ subject email ++ Text.nl ++ Text.nl ++
   "Body: " ++ body email)%string.

(** [classify_email(email)]; its [except] clause logs and raises again. *)
Definition classify_email (client : Client)
    (json_loads : string -> option AiClassification)
    (email : EmailRequest) (w : Log) : Result EmailClassification * Log :=
  let content := email_content email in
  match LLMClient.classify_email client json_loads content w with
  | (Raise e, w1) => (Raise e, w1)
  | (Ok ai_classification, w1) =>
      let sentiment := TextAnalyzer.analyze_sentiment content in
      let keywords := TextAnalyzer.extract_keywords content 10 in
      let entities := TextAnalyzer.extract_entities content in
      let priority := _determine_priority email ai_classification in
      (build_classification ai_classification priority sentiment keywords
         entities, w1)
  end.

End EmailProcessor.

(* ================================================================== *)
(** ** SemanticSearchEngine ([src/ai/semantic_search.py]) *)
(* ================================================================== *)

Module SemanticSearchEngine.

Definition Embedding := list Q.

(** The metadata dict of a stored email, by the keys that are read;
    [None] is an absent key, and the values are strings, as the fields
    that receive them want. *)
Record Metadata := mkMetadata {
  m_subject : option string;
  m_category : option string;
  m_timestamp : option string
}.

(** One neighbour of a [collection.query] answer: the entries at one
    index of its parallel [ids], [metadatas], [documents], [distances]. *)
Record Hit := mkHit {
  hit_id : string;
  hit_metadata : Metadata;
  hit_document : string;
  hit_distance : Q
}.

Record SearchQuery := mkSearchQuery {
  query : string;
  limit : nat;
  category_filter : option EmailCategory;
  date_from : option string;
  date_to : option string
}.

Record SearchResult := mkSearchResult {
  email_id : string;
  sr_subject : string;
  snippet : string;
  similarity_score : Q;
  sr_category : EmailCategory;
  timestamp : string
}.

(** The external collaborators: the embedding service, the vector
    collection, and pydantic's parsing of a [datetime] field. *)
Record Services := mkServices {
  embeddings_create : string -> Result Embedding;
  collection_get : string -> Result (option Embedding);
  collection_query : Embedding -> nat -> option string -> Result (list Hit);
  is_datetime : string -> bool
}.

(** The calls made to the collaborators. *)
Inductive Call :=
| EmbeddingsCreate (input : string)
| CollectionGet (id : string)
| CollectionQuery (embedding : Embedding) (n_results : nat)
                  (where_ : option string).

(** A computation that may raise, with the calls it made. *)
Definition M (A : Type) : Type := (list Call * Result A)%type.

Definition ret {A} (a : A) : M A := ([], Ok a).

Definition bind {A B} (m : M A) (f : A -> M B) : M B :=
  match m with
  | (t, Ok a) => let '(t', r) := f a in (t ++ t', r)
  | (t, Raise e) => (t, Raise e)
  end.

Definition lift {A} (r : Result A) : M A := ([], r).

(** [try: m except Exception as e: h(e)] *)
Definition try_except {A} (m : M A) (h : Exn -> M A) : M A :=
  match m with
  | (t, Ok a) => (t, Ok a)
  | (t, Raise e) => let '(t', r) := h e in (t ++ t', r)
  end.

(** [raise] in an [except] clause *)
Definition reraise {A} (e : Exn) : M A := lift (Raise e).

Notation "x <- m ;; k" := (bind m (fun x => k))
  (at level 61, m at next level, right associativity).

(** [for x in xs: acc = step(acc, x)] *)
Fixpoint for_each {A B} (xs : list A) (acc : B) (step : B -> A -> M B)
  : M B :=
  match xs with
  | [] => ret acc
  | x :: xs' => acc' <- step acc x ;; for_each xs' acc' step
  end.

Definition get (svc : Services) (id : string) : M (option Embedding) :=
  ([CollectionGet id], collection_get svc id).

Definition query_collection (svc : Services) (e : Embedding) (n : nat)
    (where_ : option string) : M (list Hit) :=
  ([CollectionQuery e n where_], collection_query svc e n where_).

Definition _get_embedding (svc : Services) (text : string) : M Embedding :=
  try_except ([EmbeddingsCreate text], embeddings_create svc text) reraise.

Definition _create_snippet (document query : string) (max_length : nat)
  : string :=
  let query_terms := Text.split (Text.lower query) in
  let document_lower := Text.lower document in
  let '(best_pos, best_score) :=
    fold_left
      (fun '(best_pos, best_score) i =>
         let snippet := Text.slice i (i + max_length) document_lower in
         let score := Text.count_present query_terms snippet in
         if best_score <? score then (i, score) else (best_pos, best_score))
      (seq 0 (String.length document + 1 - max_length)) (0, 0) in
  let snippet := Text.slice best_pos (best_pos + max_length) document in
  if (String.length snippet =? max_length)
     && (best_pos + max_length <? String.length document)
  then
    match Text.rfind " " snippet with
    | Some last_space =>
        (* [last_space > max_length * 0.8] *)
        if max_length * 8 <? last_space * 10
        then (Text.take last_space snippet ++ "...")%string
        else (snippet ++ "...")%string
    | None => (snippet ++ "...")%string
    end
  else snippet.

(** [max(0.0, 1.0 - distance)] *)
Definition score_of_distance (distance : Q) : Q := Qmax 0 (1 - distance).

Definition get_or {A} (o : option A) (default : A) : A :=
  match o with
  | Some a => a
  | None => default
  end.

(** [SearchResult(email_id=..., ..., category=EmailCategory(...),
    timestamp=...)]: the enum lookup raises on an unknown value, then the
    model validates the score bounds and the timestamp. *)
Definition make_result (svc : Services) (id : string) (metadata : Metadata)
    (snip : string) (score : Q) : Result SearchResult :=
  match category_of_string (get_or (m_category metadata) "general") with
  | None => Raise ValueError
  | Some cat =>
      let ts := get_or (m_timestamp metadata) "" in
      if negb (Qle_bool 0 score && Qle_bool score 1)
      then Raise (ValidationError "similarity_score")
      else if negb (is_datetime svc ts)
      then Raise (ValidationError "timestamp")
      else Ok (mkSearchResult id (get_or (m_subject metadata) "") snip score
                 cat ts)
  end.

(** [search(query)]: the results and [total_count]. *)
Definition search (svc : Services) (q : SearchQuery)
  : M (list SearchResult * nat) :=
  try_except
    (query_embedding <- _get_embedding svc (query q) ;;
     let where_clause := option_map category_value (category_filter q) in
     results <- query_collection svc query_embedding (limit q) where_clause ;;
     search_results <-
       match results with
       | [] => ret []
       | _ =>
           for_each results []
             (fun search_results hit =>
                let similarity_score :=
                  score_of_distance (hit_distance hit) in
                search_result <-
                  lift (make_result svc (hit_id hit) (hit_metadata hit)
                          (_create_snippet (hit_document hit) (query q) 200)
                          similarity_score) ;;
                ret (search_results ++ [search_result]))
       end ;;
     let total_count := List.length search_results in
     ret (search_results, total_count))
    reraise.

(** [find_similar(email_id, limit)] *)
Definition find_similar (svc : Services) (id : string) (lim : nat)
  : M (list SearchResult) :=
  try_except
    (result <- get svc id ;;
     match result with
     | None => ret []
     | Some embedding =>
         similar_results <- query_collection svc embedding (lim + 1) None ;;
         search_results <-
           for_each similar_results []
             (fun search_results hit =>
                if negb (String.eqb (hit_id hit) id) then
                  let document := hit_document hit in
                  let similarity_score :=
                    score_of_distance (hit_distance hit) in
                  search_result <-
                    lift (make_result svc (hit_id hit) (hit_metadata hit)
                            (if 200 <? String.length document
                             then (Text.take 200 document ++ "...")%string
                             else document)
                            similarity_score) ;;
                  ret (search_results ++ [search_result])
                else ret search_results) ;;
         ret (firstn lim search_results)
     end)
    (fun _ => ret []).

(** Results in descending order of similarity. *)
Definition by_score_desc (a b : SearchResult) : Prop :=
  (similarity_score b <= similarity_score a)%Q.

(** Neighbours in ascending order of distance, nearest first. *)
Definition by_distance_asc (a b : Hit) : Prop :=
  (hit_distance a <= hit_distance b)%Q.

(** The contract of a nearest-neighbour query. *)
Definition nearest_first (svc : Services) : Prop :=
  forall e n w hits,
    collection_query svc e n w = Ok hits ->
    StronglySorted by_distance_asc hits.

End SemanticSearchEngine.

(* ================================================================== *)
(** ** The email endpoints ([src/api/endpoints/emails.py]) *)
(* ================================================================== *)

Module Endpoints.

(** The answer of an endpoint: the value with status 200, or the
    [HTTPException] with status 500 that wraps a caught exception. *)
Inductive Http (A : Type) :=
| Http200 (a : A)
| Http500 (e : Exn).
Arguments Http200 {A} a.
Arguments Http500 {A} e.

(** What one call of an endpoint takes from its surroundings: the fresh
    identifier, the measured time, the clock, and the database's
    [store_email] (which [EmailProcessor.store_email] calls and whose
    exceptions it raises again). *)
Record Env := mkEnv {
  uuid4 : string;
  elapsed : Q;
  utcnow : string;
  store_email : string -> EmailRequest -> EmailProcessingResult -> Result unit
}.

(** One call of [store_email], by its arguments. *)
Definition Stored := (string * EmailRequest * EmailProcessingResult)%type.

(** [POST /process] *)
Definition process_email (env : Env) (fmt : LLMClient.EnumFormat)
    (client : Client)
    (json_loads : string -> option AiClassification)
    (json_loads_response : string -> option ResponseData)
    (email : EmailRequest) (w : Log)
  : Http EmailProcessingResult * Log * list Stored :=
  let email_id := uuid4 env in
  match EmailProcessor.classify_email client json_loads email w with
  | (Raise e, w1) => (Http500 e, w1, [])
  | (Ok classification, w1) =>
      match LLMClient.generate_response fmt client json_loads_response email
              classification w1 with
      | (Raise e, w2) => (Http500 e, w2, [])
      | (Ok response, w2) =>
          let result :=
            mkEmailProcessingResult email_id classification response
              (elapsed env) (utcnow env) in
          match store_email env email_id email result with
          | Raise e => (Http500 e, w2, [(email_id, email, result)])
          | Ok _ => (Http200 result, w2, [(email_id, email, result)])
          end
      end
  end.

(** [POST /classify] *)
Definition classify_email (client : Client)
    (json_loads : string -> option AiClassification)
    (email : EmailRequest) (w : Log) : Http EmailClassification * Log :=
  match EmailProcessor.classify_email client json_loads email w with
  | (Raise e, w1) => (Http500 e, w1)
  | (Ok classification, w1) => (Http200 classification, w1)
  end.

End Endpoints.

(* ================================================================== *)
(** ** Sample services and inputs *)
(* ================================================================== *)

Module Samples.

(** A completion service that fails twice and then answers. *)
Definition flaky_client : Client :=
  fun n _ =>
    match n with
    | 0 | 1 => CompletionRaises
    | _ => CompletionContent " Order "
    end.

(** A completion service that is down. *)
Definition failing_client : Client := fun _ _ => CompletionRaises.

(** A completion service that answers with a word outside the categories. *)
Definition spam_client : Client := fun _ _ => CompletionContent "spam".

(** The JSON text [{"category": "spam", "confidence": 0.9}]. *)
Definition spam_reply : string :=
  ("{" ++ Text.dq ++ "category" ++ Text.dq ++ ": " ++
   Text.dq ++ "spam" ++ Text.dq ++ ", " ++
   Text.dq ++ "confidence" ++ Text.dq ++ ": 0.9}")%string.

Definition spam_json_client : Client :=
  fun _ _ => CompletionContent spam_reply.

(** [json.loads] on the sample reply. *)
Definition json_loads (s : string) : option AiClassification :=
  if String.eqb s spam_reply
  then Some (mkAi (Some "spam") None (Some (9 # 10)))
  else None.

Definition an_email : EmailRequest :=
  mkEmailRequest "Hello" "You have won a prize" "someone@example.com".

(** A small index: three stored emails, nearest first for any query. *)
Definition meta (cat : string) : SemanticSearchEngine.Metadata :=
  SemanticSearchEngine.mkMetadata (Some "Late parcel") (Some cat)
    (Some "2024-01-01T10:00:00").

Definition stored : list SemanticSearchEngine.Hit :=
  [SemanticSearchEngine.mkHit "a" (meta "order") "Where is my parcel?" 0;
   SemanticSearchEngine.mkHit "b" (meta "order") "My parcel is late" (1 # 10);
   SemanticSearchEngine.mkHit "c" (meta "billing") "Refund please" (3 # 2)].

Definition index : SemanticSearchEngine.Services :=
  SemanticSearchEngine.mkServices
    (fun _ => Ok [1; 0]%Q)
    (fun id => if String.eqb id "a" then Ok (Some [1; 0]%Q) else Ok None)
    (fun _ n _ => Ok (firstn n stored))
    (fun s => negb (String.eqb s "")).

(** An index whose store and embedding service are both down. *)
Definition broken_index : SemanticSearchEngine.Services :=
  SemanticSearchEngine.mkServices
    (fun _ => Raise EmbeddingError)
    (fun _ => Raise IndexError_)
    (fun _ _ _ => Raise IndexError_)
    (fun _ => true).

(** An index that holds the email but cannot answer queries. *)
Definition half_broken_index : SemanticSearchEngine.Services :=
  SemanticSearchEngine.mkServices
    (fun _ => Ok [1; 0]%Q)
    (fun _ => Ok (Some [1; 0]%Q))
    (fun _ _ _ => Raise IndexError_)
    (fun _ => true).

(** An index in which one stored email carries a category that is no
    value of the enum. *)
Definition mislabelled : SemanticSearchEngine.Hit :=
  SemanticSearchEngine.mkHit "d" (meta "other") "Something else" 2.

Definition mislabelled_index : SemanticSearchEngine.Services :=
  SemanticSearchEngine.mkServices
    (fun _ => Ok [1; 0]%Q)
    (fun _ => Ok (Some [1; 0]%Q))
    (fun _ n _ => Ok (firstn n (stored ++ [mislabelled])))
    (fun s => negb (String.eqb s "")).

End Samples.

(* ================================================================== *)
(** * Vocabulary of the properties *)
(* ================================================================== *)

(** ** Keywords in a text *)

Definition all_lowercase (ws : list string) : Prop :=
  Forall (fun w => Text.lower w = w) ws.

(** An urgent keyword occurs, in any letter case, in [subject + " " + body]. *)
Definition mentions_urgent (email : EmailRequest) : Prop :=
  exists k, In k EmailProcessor.urgent_keywords /\
            Text.occurs_ci k (subject email ++ " " ++ body email).

(** The keywords of [ws] found in the lowercased text. *)
Definition keyword_hits (ws : list string) (text : string) : list string :=
  filter (fun w => Text.contains w (Text.lower text)) ws.

(** ** Runs of the matcher *)

Fixpoint groupless (r : Re.regex) : bool :=
  match r with
  | Re.Eps | Re.Chr _ | Re.Bnd => true
  | Re.Seq r1 r2 | Re.Alt r1 r2 => groupless r1 && groupless r2
  | Re.Star r1 => groupless r1
  | Re.Grp _ => false
  end.

(** A sufficient test that a pattern cannot match the empty string. *)
Fixpoint never_empty (r : Re.regex) : bool :=
  match r with
  | Re.Chr _ => true
  | Re.Seq r1 r2 => never_empty r1 || never_empty r2
  | Re.Alt r1 r2 => never_empty r1 && never_empty r2
  | Re.Grp r1 => never_empty r1
  | Re.Eps | Re.Bnd | Re.Star _ => false
  end.

(** Where a successful run hands over to its continuation: after a string
    of the pattern's language, read off the front of the input. *)
Definition reaches (r : Re.regex) (st st' : Re.state) (u : list ascii) : Prop :=
  Re.lang r u /\
  Re.rest st = u ++ Re.rest st' /\
  Re.pos st' = Re.pos st + List.length u /\
  (groupless r = true -> Re.cap st' = Re.cap st).

(** The group, when it was closed between [st] and [st'], spans offsets
    between the two cursors. *)
Definition cap_within (st st' : Re.state) : Prop :=
  Re.cap st' = Re.cap st \/
  exists i j, Re.cap st' = Some (i, j) /\
              Re.pos st <= i /\ i <= j /\ j <= Re.pos st'.

(** [ab] is the span, in offsets of the whole text, of the value reported
    in [qv] by a scan that stands at offset [p] with [skip] characters to
    pass over and [s] still to read. *)
Definition span_of (p skip : nat) (s : list ascii)
    (ab : nat * nat) (qv : nat * string) : Prop :=
  p + skip <= fst ab /\ fst ab <= snd ab /\ snd ab <= p + List.length s /\
  snd qv = string_of_list_ascii (Re.slice (fst ab - p) (snd ab - p) s).

(** One span ends before the other starts. *)
Definition precedes (ab ab' : nat * nat) : Prop := snd ab <= fst ab'.

(** [v] stands in [text] at offset [o]. *)
Definition occurs_at (o : nat) (v text : string) : Prop :=
  exists pre post, text = (pre ++ v ++ post)%string /\ String.length pre = o.

(** The values can be read off the text from left to right: they stand at
    offsets that never decrease. *)
Definition in_document_order (text : string) (values : list string) : Prop :=
  exists offs,
    Forall2 (fun o v => occurs_at o v text) offs values /\ Sorted le offs.

(** ** Ranking of keywords *)

(** The maximal runs of word characters (letters, digits, underscore) of
    a text, from left to right; [run] is the run being read. *)
Fixpoint word_runs (run : list ascii) (s : list ascii) : list (list ascii) :=
  let flush := match run with [] => [] | _ => [run] end in
  match s with
  | [] => flush
  | c :: s' =>
      if Text.is_word c then word_runs (run ++ [c]) s'
      else flush ++ word_runs [] s'
  end.

(** A run that counts as a word: letters only, three at least. *)
Definition is_long_word (u : list ascii) : bool :=
  (3 <=? List.length u) && forallb Text.is_alpha u.

(** The words of a text: its maximal runs of word characters that are
    made of three letters or more.  A run that holds a digit or an
    underscore is no word, and no part of it is. *)
Definition alphabetic_words (text : string) : list string :=
  map string_of_list_ascii
      (filter is_long_word (word_runs [] (list_ascii_of_string text))).

(** The tokens that are counted: the words of the lowercased text that are
    not stop words, in document order. *)
Definition keyword_tokens (text : string) : list string :=
  filter (fun w => negb (Text.mem w TextAnalyzer.stop_words))
         (alphabetic_words (Text.lower text)).

(** The longest beginning of [s] whose characters satisfy [p], and what
    follows it. *)
Fixpoint take_while (p : ascii -> bool) (s : list ascii) : list ascii :=
  match s with
  | c :: s' => if p c then c :: take_while p s' else []
  | [] => []
  end.

Fixpoint drop_while (p : ascii -> bool) (s : list ascii) : list ascii :=
  match s with
  | c :: s' => if p c then drop_while p s' else s
  | [] => []
  end.

(** The character before the cursor once [u] has been read. *)
Definition prev_after (before : option ascii) (u : list ascii) : option ascii :=
  fold_left (fun _ c => Some c) u before.

(** How often [w] is among [ws]. *)
Definition frequency (ws : list string) (w : string) : nat :=
  count_occ string_dec ws w.

(** Where [w] is first seen in [ws]. *)
Fixpoint first_index (ws : list string) (w : string) : nat :=
  match ws with
  | [] => 0
  | x :: ws' => if String.eqb w x then 0 else S (first_index ws' w)
  end.

(** The members of [ws], each once, in first-seen order. *)
Fixpoint distinct (ws : list string) : list string :=
  match ws with
  | [] => []
  | x :: ws' => x :: filter (fun y => negb (String.eqb y x)) (distinct ws')
  end.

(** [a] is ranked before [b]: more frequent, or as frequent and seen
    first. *)
Definition ranks_before (ws : list string) (a b : string) : Prop :=
  frequency ws b < frequency ws a \/
  (frequency ws a = frequency ws b /\ first_index ws a < first_index ws b).

(** A keyword token: at least three lowercase letters, not a stop word. *)
Definition is_keyword_token (w : string) : Prop :=
  3 <= String.length w /\
  Forall (fun c => Text.is_lower c = true) (list_ascii_of_string w) /\
  Text.mem w TextAnalyzer.stop_words = false.

(** The dictionary that maps every word of [l], in that order, to [f]. *)
Definition tabulate (f : string -> nat) (l : list string) : TextAnalyzer.Freq :=
  map (fun w => (w, f w)) l.

(** [word_freq[word] = word_freq.get(word, 0) + 1] *)
Definition count_word (d : TextAnalyzer.Freq) (w : string) : TextAnalyzer.Freq :=
  TextAnalyzer.dict_set d w (TextAnalyzer.dict_get d w + 1).

(** Larger count first; among equal counts, the order [seen]. *)
Definition stable_desc (seen : string * nat -> string * nat -> Prop)
    (a b : string * nat) : Prop :=
  snd b < snd a \/ (snd a = snd b /\ seen a b).

(** ** Results built from neighbours *)

(** The loop that turns neighbours into results, without the monad:
    [keep] selects the neighbours, [mk] builds the result of one. *)
Fixpoint collect (keep : SemanticSearchEngine.Hit -> bool)
    (mk : SemanticSearchEngine.Hit -> Result SemanticSearchEngine.SearchResult)
    (hits : list SemanticSearchEngine.Hit)
    (acc : list SemanticSearchEngine.SearchResult)
  : Result (list SemanticSearchEngine.SearchResult) :=
  match hits with
  | [] => Ok acc
  | h :: hs =>
      if keep h then
        match mk h with
        | Ok sr => collect keep mk hs (acc ++ [sr])
        | Raise e => Raise e
        end
      else collect keep mk hs acc
  end.

(** The result [find_similar] builds for one neighbour. *)
Definition similar_result (svc : SemanticSearchEngine.Services)
    (hit : SemanticSearchEngine.Hit) : Result SemanticSearchEngine.SearchResult :=
  SemanticSearchEngine.make_result svc
    (SemanticSearchEngine.hit_id hit) (SemanticSearchEngine.hit_metadata hit)
    (if 200 <? String.length (SemanticSearchEngine.hit_document hit)
     then (Text.take 200 (SemanticSearchEngine.hit_document hit) ++ "...")%string
     else SemanticSearchEngine.hit_document hit)
    (SemanticSearchEngine.score_of_distance
       (SemanticSearchEngine.hit_distance hit)).

(** The result [search] builds for one neighbour. *)
Definition search_result (svc : SemanticSearchEngine.Services)
    (q : SemanticSearchEngine.SearchQuery)
    (hit : SemanticSearchEngine.Hit) : Result SemanticSearchEngine.SearchResult :=
  SemanticSearchEngine.make_result svc
    (SemanticSearchEngine.hit_id hit) (SemanticSearchEngine.hit_metadata hit)
    (SemanticSearchEngine._create_snippet
       (SemanticSearchEngine.hit_document hit)
       (SemanticSearchEngine.query q) 200)
    (SemanticSearchEngine.score_of_distance
       (SemanticSearchEngine.hit_distance hit)).

(** [found_id != email_id] *)
Definition other_than (id : string) (hit : SemanticSearchEngine.Hit) : bool :=
  negb (String.eqb (SemanticSearchEngine.hit_id hit) id).

(** A neighbour that the result model accepts: its stored category,
    [general] when there is none, is a value of the enum; its distance is
    not negative, so that its score is at most 1; its stored timestamp is
    a date. *)
Definition presentable (svc : SemanticSearchEngine.Services)
    (hit : SemanticSearchEngine.Hit) : Prop :=
  (exists cat,
     SemanticSearchEngine.get_or
       (SemanticSearchEngine.m_category (SemanticSearchEngine.hit_metadata hit))
       "general" = category_value cat) /\
  (0 <= SemanticSearchEngine.hit_distance hit)%Q /\
  SemanticSearchEngine.is_datetime svc
    (SemanticSearchEngine.get_or
       (SemanticSearchEngine.m_timestamp (SemanticSearchEngine.hit_metadata hit))
       "") = true.

(** The result stands for the neighbour: it carries its id, and its score
    is [max(0, 1 - d)] for the neighbour's distance [d]. *)
Definition stands_for (hit : SemanticSearchEngine.Hit)
    (r : SemanticSearchEngine.SearchResult) : Prop :=
  SemanticSearchEngine.email_id r = SemanticSearchEngine.hit_id hit /\
  SemanticSearchEngine.similarity_score r =
    Qmax 0 (1 - SemanticSearchEngine.hit_distance hit).

Definition is_embedding_call (c : SemanticSearchEngine.Call) : bool :=
  match c with
  | SemanticSearchEngine.EmbeddingsCreate _ => true
  | _ => false
  end.

(** ** Retries *)

(** The log of a call whose first [failures] attempts failed: request and
    sleep for each of them, then the request of the attempt that ended
    the call. *)
Definition retry_log (request : list Message) (failures : nat) : Log :=
  List.concat (repeat [Request request; Sleep Config.RETRY_DELAY] failures)
  ++ [Request request].

(** The category answered for the text of a completion: the text
    stripped and lowercased when that is a valid category, the default
    category otherwise. *)
Definition validated_category (content : string) : string :=
  let category := Text.lower (Text.strip content) in
  if Text.mem category Config.VALID_CATEGORIES
  then category else Config.DEFAULT_CATEGORY.

(** ** Snippets *)

(** The number of windows of [max_length] characters in a document:
    [len(document) - max_length + 1], none when that is negative. *)
Definition windows (document : string) (max_length : nat) : nat :=
  String.length document + 1 - max_length.

(** The score of the window that starts at [i]: how many of the query's
    terms occur in it, letter case aside. *)
Definition window_score (document query : string) (max_length i : nat) : nat :=
  Text.count_present (Text.split (Text.lower query))
    (Text.slice i (i + max_length) (Text.lower document)).

(** The loop of [_create_snippet]: the best start and its score. *)
Definition best_window (document query : string) (max_length : nat)
  : nat * nat :=
  fold_left
    (fun '(best_pos, best_score) i =>
       let score := window_score document query max_length i in
       if best_score <? score then (i, score) else (best_pos, best_score))
    (seq 0 (windows document max_length)) (0, 0).

(** ** Shapes of entity values *)

Definition all_of (p : ascii -> bool) (u : list ascii) : Prop :=
  Forall (fun c => p c = true) u.

Definition digits (n : nat) (u : list ascii) : Prop :=
  List.length u = n /\ all_of Text.is_digit u.

(** Nothing, or one of the two separators of a phone number. *)
Definition separator (u : list ascii) : Prop :=
  u = [] \/ exists c, u = [c] /\ Re.one_of "-." c = true.

(** [local@domain.tld] *)
Definition email_shape (v : string) : Prop :=
  exists local domain tld,
    v = string_of_list_ascii (local ++ "@"%char :: domain ++ "."%char :: tld) /\
    local <> [] /\
    all_of (fun c => Text.is_alnum c || Re.one_of "._%+-" c) local /\
    domain <> [] /\
    all_of (fun c => Text.is_alnum c || Re.one_of ".-" c) domain /\
    2 <= List.length tld /\
    all_of (fun c => Text.is_upper c || Re.one_of "|" c || Text.is_lower c) tld.

(** Three digits, three digits, four digits, a separator at most between
    the groups. *)
Definition phone_shape (v : string) : Prop :=
  exists a s1 b s2 c,
    v = string_of_list_ascii (a ++ s1 ++ b ++ s2 ++ c) /\
    digits 3 a /\ separator s1 /\ digits 3 b /\ separator s2 /\ digits 4 c.

Definition order_shape (v : string) : Prop :=
  exists u, v = string_of_list_ascii u /\ u <> [] /\ all_of Text.is_alnum u.

(** A dollar sign, digits and, at most, a point with two more digits. *)
Definition money_shape (v : string) : Prop :=
  exists whole cents,
    v = string_of_list_ascii ("$"%char :: whole ++ cents) /\
    whole <> [] /\ all_of Text.is_digit whole /\
    (cents = [] \/ exists d, cents = "."%char :: d /\ digits 2 d).

(* ================================================================== *)
(** * Properties *)
(* ================================================================== *)

(** ** Strings *)

Lemma prefix_iff (a b : string) :
  String.prefix a b = true <-> exists post, b = (a ++ post)%string.
Proof.
  revert b. induction a as [|x a IH]; intros b; simpl.
  - split; [intros _; now exists b | intros _; now destruct b].
  - destruct b as [|y b].
    + split; [discriminate | intros [post H]; discriminate].
    + simpl. destruct (Ascii.ascii_dec x y) as [->|Hxy].
      * rewrite IH. split; intros [post H]; exists post.
        -- now rewrite H.
        -- now injection H.
      * split; [discriminate | intros [post H]; injection H; congruence].
Qed.

Lemma contains_iff (needle hay : string) :
  Text.contains needle hay = true <-> Text.substring_of needle hay.
Proof.
  unfold Text.substring_of. induction hay as [|c hay IH].
  - cbn [Text.contains]. destruct (String.prefix needle "") eqn:P.
    + split; [intros _ | reflexivity].
      apply prefix_iff in P. destruct P as [post P]. now exists ""%string, post.
    + split; [discriminate |].
      intros [pre [post H]]. destruct pre; simpl in H.
      * assert (String.prefix needle "" = true) by (apply prefix_iff; eauto).
        congruence.
      * discriminate.
  - cbn [Text.contains]. destruct (String.prefix needle (String c hay)) eqn:P.
    + split; [intros _ | reflexivity].
      apply prefix_iff in P. destruct P as [post P]. now exists ""%string, post.
    + rewrite IH. split.
      * intros [pre [post H]]. exists (String c pre), post. simpl. now rewrite H.
      * intros [pre [post H]]. destruct pre as [|x pre]; simpl in H.
        -- assert (String.prefix needle (String c hay) = true)
             by (apply prefix_iff; eauto).
           congruence.
        -- injection H as _ H. eauto.
Qed.

Lemma lower_app (a b : string) :
  Text.lower (a ++ b) = (Text.lower a ++ Text.lower b)%string.
Proof. induction a as [|c a IH]; simpl; [reflexivity | now rewrite IH]. Qed.

Lemma lower_split (t a b : string) :
  Text.lower t = (a ++ b)%string ->
  exists t1 t2, t = (t1 ++ t2)%string /\ Text.lower t1 = a /\ Text.lower t2 = b.
Proof.
  revert t. induction a as [|x a IH]; intros t H; simpl in H.
  - exists ""%string, t. auto.
  - destruct t as [|c t]; simpl in H; [discriminate |].
    injection H as Hc H. destruct (IH _ H) as [t1 [t2 [-> [H1 H2]]]].
    exists (String c t1), t2. simpl. now rewrite Hc, H1.
Qed.

(** Case-insensitive occurrence is what [k.lower() in t.lower()] tests. *)
Lemma occurs_ci_iff (k t : string) :
  Text.occurs_ci k t <-> Text.contains (Text.lower k) (Text.lower t) = true.
Proof.
  rewrite contains_iff. unfold Text.occurs_ci, Text.substring_of. split.
  - intros [u [[pre [post ->]] Hu]].
    exists (Text.lower pre), (Text.lower post).
    now rewrite !lower_app, Hu.
  - intros [pre [post H]].
    apply lower_split in H. destruct H as [t1 [t' [-> [H1 H]]]].
    apply lower_split in H. destruct H as [u [t3 [-> [Hu H3]]]].
    exists u. split; [now exists t1, t3 | exact Hu].
Qed.

Lemma existsb_contains_iff (ws : list string) (t : string) :
  all_lowercase ws ->
  (existsb (fun w => Text.contains w (Text.lower t)) ws = true <->
   exists k, In k ws /\ Text.occurs_ci k t).
Proof.
  intros Hlow. unfold all_lowercase in Hlow. rewrite Forall_forall in Hlow.
  rewrite existsb_exists. split; intros [k [Hin H]]; exists k.
  - split; [exact Hin |]. apply occurs_ci_iff.
    now rewrite (Hlow _ Hin).
  - split; [exact Hin |]. apply occurs_ci_iff in H.
    now rewrite (Hlow _ Hin) in H.
Qed.

(** ** Priority *)

Lemma urgent_keywords_lowercase : all_lowercase EmailProcessor.urgent_keywords.
Proof. repeat constructor. Qed.

(** C4. The priority is decided by the email text and the category alone:
    URGENT when an urgent keyword occurs case-insensitively in subject and
    body, whatever the category; otherwise HIGH for complaint, MEDIUM for
    technical or billing, LOW for every other category. *)
Theorem determine_priority_rule (email : EmailRequest) (ai : AiClassification) :
  (mentions_urgent email ->
   EmailProcessor._determine_priority email ai = URGENT) /\
  (~ mentions_urgent email ->
   (ai_category ai = Some "complaint" ->
    EmailProcessor._determine_priority email ai = HIGH) /\
   (ai_category ai = Some "technical" \/ ai_category ai = Some "billing" ->
    EmailProcessor._determine_priority email ai = MEDIUM) /\
   (ai_category ai <> Some "complaint" ->
    ai_category ai <> Some "technical" ->
    ai_category ai <> Some "billing" ->
    EmailProcessor._determine_priority email ai = LOW)) /\
  (forall email' ai',
     subject email' = subject email -> body email' = body email ->
     ai_category ai' = ai_category ai ->
     EmailProcessor._determine_priority email' ai' =
     EmailProcessor._determine_priority email ai).
Proof.
  unfold mentions_urgent, EmailProcessor._determine_priority.
  pose proof (existsb_contains_iff EmailProcessor.urgent_keywords
                (subject email ++ " " ++ body email)
                urgent_keywords_lowercase) as Hu.
  destruct (existsb _ EmailProcessor.urgent_keywords) eqn:E.
  - split; [reflexivity |]. split.
    + intros Hn. exfalso. apply Hn, Hu. reflexivity.
    + intros email' ai' Hs Hb Hc. now rewrite Hs, Hb, E.
  - split; [intros H; apply Hu in H; discriminate |]. split.
    + intros _. repeat split.
      * intros ->. reflexivity.
      * intros [-> | ->]; reflexivity.
      * intros H1 H2 H3. destruct (ai_category ai) as [s|]; [|reflexivity].
        cbn [EmailProcessor.category_is existsb category_value].
        destruct (String.eqb_spec s "complaint"); [congruence |].
        destruct (String.eqb_spec s "technical"); [congruence |].
        destruct (String.eqb_spec s "billing"); [congruence |].
        reflexivity.
    + intros email' ai' Hs Hb Hc. now rewrite Hs, Hb, E, Hc.
Qed.

Lemma not_mentions_urgent (email : EmailRequest) :
  existsb (fun w => Text.contains w
                      (Text.lower (subject email ++ " " ++ body email)))
    EmailProcessor.urgent_keywords = false ->
  ~ mentions_urgent email.
Proof.
  intros E H.
  apply (existsb_contains_iff _ _ urgent_keywords_lowercase) in H.
  congruence.
Qed.

Lemma determine_priority_rule_witness :
  EmailProcessor._determine_priority
    (mkEmailRequest "URGENT: System is down!" "Please help" "admin@company.com")
    (mkAi (Some "technical") None None) = URGENT /\
  EmailProcessor._determine_priority
    (mkEmailRequest "Terrible service" "I am very disappointed" "a@customer.com")
    (mkAi (Some "complaint") None None) = HIGH /\
  EmailProcessor._determine_priority
    (mkEmailRequest "Invoice" "Please resend my invoice" "a@customer.com")
    (mkAi (Some "billing") None None) = MEDIUM /\
  EmailProcessor._determine_priority
    (mkEmailRequest "Hello" "Just saying hello" "a@customer.com")
    (mkAi (Some "general") None None) = LOW /\
  EmailProcessor._determine_priority
    (mkEmailRequest "Hello" "Just saying hello" "b@customer.com")
    (mkAi (Some "general") (Some (JString "x")) (Some 1%Q)) =
  EmailProcessor._determine_priority
    (mkEmailRequest "Hello" "Just saying hello" "a@customer.com")
    (mkAi (Some "general") None None).
Proof.
  split; [| split; [| split; [| split]]].
  - apply (proj1 (determine_priority_rule _ _)).
    exists "urgent"%string. split; [simpl; auto |].
    apply occurs_ci_iff. reflexivity.
  - apply (proj1 (proj2 (determine_priority_rule _ _)));
      [apply not_mentions_urgent; reflexivity | reflexivity].
  - apply (proj1 (proj2 (determine_priority_rule _ _)));
      [apply not_mentions_urgent; reflexivity | right; reflexivity].
  - apply (proj1 (proj2 (determine_priority_rule _ _)));
      [apply not_mentions_urgent; reflexivity | discriminate ..].
  - apply (proj2 (proj2 (determine_priority_rule _ _))); reflexivity.
Defined.

(** ** Sentiment *)

Lemma count_present_from (ws : list string) (t : string) (n : nat) :
  fold_left (fun acc w => if Text.contains w t then acc + 1 else acc) ws n =
  n + List.length (filter (fun w => Text.contains w t) ws).
Proof.
  revert n. induction ws as [|w ws IH]; intros n; simpl; [lia |].
  rewrite IH. destruct (Text.contains w t); simpl; lia.
Qed.

Lemma count_present_hits (ws : list string) (text : string) :
  Text.count_present ws (Text.lower text) = List.length (keyword_hits ws text).
Proof. unfold Text.count_present. now rewrite count_present_from. Qed.

Lemma keyword_hits_iff (ws : list string) (text k : string) :
  all_lowercase ws ->
  (In k (keyword_hits ws text) <-> In k ws /\ Text.occurs_ci k text).
Proof.
  intros Hlow. unfold keyword_hits. rewrite filter_In, occurs_ci_iff.
  unfold all_lowercase in Hlow. rewrite Forall_forall in Hlow.
  split; intros [Hin H]; (split; [exact Hin |]).
  - now rewrite (Hlow _ Hin).
  - now rewrite (Hlow _ Hin) in H.
Qed.

Lemma sentiment_keywords_lowercase :
  all_lowercase TextAnalyzer.positive_keywords /\
  all_lowercase TextAnalyzer.negative_keywords.
Proof. split; repeat constructor. Qed.

(** C5. The sentiment compares how many positive keywords and how many
    negative keywords occur in the text as case-insensitive substrings:
    POSITIVE when the positive count is larger, NEGATIVE when the negative
    count is larger, NEUTRAL on a tie; with the three sample texts. *)
Theorem analyze_sentiment_rule (text : string) :
  let pos := keyword_hits TextAnalyzer.positive_keywords text in
  let neg := keyword_hits TextAnalyzer.negative_keywords text in
  (forall k, In k pos <->
             In k TextAnalyzer.positive_keywords /\ Text.occurs_ci k text) /\
  (forall k, In k neg <->
             In k TextAnalyzer.negative_keywords /\ Text.occurs_ci k text) /\
  TextAnalyzer.analyze_sentiment text =
    (if List.length neg <? List.length pos then POSITIVE
     else if List.length pos <? List.length neg then NEGATIVE
     else NEUTRAL) /\
  TextAnalyzer.analyze_sentiment "Thank you, excellent service!" = POSITIVE /\
  TextAnalyzer.analyze_sentiment "This is terrible and broken" = NEGATIVE /\
  TextAnalyzer.analyze_sentiment "Please provide an update" = NEUTRAL.
Proof.
  intros pos neg.
  split; [| split; [| split; [| split; [| split]]]]; try reflexivity.
  - intros k. apply keyword_hits_iff, sentiment_keywords_lowercase.
  - intros k. apply keyword_hits_iff, sentiment_keywords_lowercase.
  - unfold TextAnalyzer.analyze_sentiment. now rewrite !count_present_hits.
Qed.

(** ** The matcher *)

Lemma cap_within_refl st : cap_within st st.
Proof. now left. Qed.

Lemma cap_within_trans st st1 st2 :
  Re.pos st <= Re.pos st1 -> Re.pos st1 <= Re.pos st2 ->
  cap_within st st1 -> cap_within st1 st2 -> cap_within st st2.
Proof.
  intros P1 P2 [E1 | (i & j & E1 & A1 & B1 & C1)]
               [E2 | (i' & j' & E2 & A2 & B2 & C2)].
  - left. congruence.
  - right. exists i', j'. repeat split; auto; lia.
  - right. exists i, j. repeat split; auto; try congruence; lia.
  - right. exists i', j'. repeat split; auto; lia.
Qed.

Lemma reaches_seq r1 r2 st st1 st2 u1 u2 :
  reaches r1 st st1 u1 -> reaches r2 st1 st2 u2 ->
  reaches (Re.Seq r1 r2) st st2 (u1 ++ u2).
Proof.
  intros (L1 & R1 & P1 & C1) (L2 & R2 & P2 & C2). repeat split.
  - now constructor.
  - now rewrite R1, R2, app_assoc.
  - rewrite P2, P1, length_app. lia.
  - simpl. intros G. apply andb_prop in G. destruct G as [G1 G2].
    now rewrite C2, C1.
Qed.

(** A run looks at its continuation only through the results it gives. *)
Lemma star_loop_ext step k k' fuel st :
  (forall st0 h h', (forall s, h s = h' s) -> step st0 h = step st0 h') ->
  (forall s, k s = k' s) ->
  Re.star_loop step k fuel st = Re.star_loop step k' fuel st.
Proof.
  intros Hstep Hk. revert st. induction fuel as [|fuel IH]; intros st;
    cbn [Re.star_loop]; [apply Hk |].
  rewrite (Hstep st _
             (fun st1 =>
                if List.length (Re.rest st1) <? List.length (Re.rest st)
                then Re.star_loop step k' fuel st1 else None)).
  - destruct (step st _); [reflexivity | apply Hk].
  - intros s. destruct (_ <? _); [apply IH | reflexivity].
Qed.

Lemma run_ext (r : Re.regex) :
  forall st k k', (forall s, k s = k' s) -> Re.run r st k = Re.run r st k'.
Proof.
  induction r as [| p | | r1 IH1 r2 IH2 | r1 IH1 r2 IH2 | r1 IH1 | r1 IH1];
    intros st k k' Hk; cbn [Re.run].
  - apply Hk.
  - destruct (Re.rest st) as [|c cs]; [reflexivity |].
    destruct (p c); [apply Hk | reflexivity].
  - destruct (Re.at_boundary st); [apply Hk | reflexivity].
  - apply IH1. intros s. now apply IH2.
  - rewrite (IH1 st k k' Hk), (IH2 st k k' Hk). reflexivity.
  - apply star_loop_ext; [exact IH1 | exact Hk].
  - apply IH1. intros s. apply Hk.
Qed.

(** A run whose continuation always fails, fails. *)
Lemma run_none (r : Re.regex) :
  forall st, Re.run r st (fun _ => None) = None.
Proof.
  induction r as [| p | | r1 IH1 r2 IH2 | r1 IH1 r2 IH2 | r1 IH1 | r1 IH1];
    intros st; cbn [Re.run]; auto.
  - destruct (Re.rest st) as [|c cs]; [reflexivity |]. now destruct (p c).
  - now destruct (Re.at_boundary st).
  - rewrite (run_ext r1 st _ (fun _ => None)); auto.
  - now rewrite IH1, IH2.
  - generalize (List.length (Re.rest st)). intros fuel. revert st.
    induction fuel as [|fuel IHf]; intros st; cbn [Re.star_loop]; auto.
    rewrite (run_ext r1 st _ (fun _ => None)).
    + now rewrite IH1.
    + intros s. destruct (_ <? _); auto.
Qed.

(** With no input left, a further iteration of [r*] cannot consume
    anything: the loop hands over to [k]. *)
Lemma star_loop_at_end (r : Re.regex) k fuel st :
  List.length (Re.rest st) = 0 ->
  Re.star_loop (Re.run r) k fuel st = k st.
Proof.
  intros E. destruct fuel as [|fuel]; cbn [Re.star_loop]; [reflexivity |].
  rewrite (run_ext r st _ (fun _ => None)).
  - now rewrite run_none.
  - intros s. rewrite E. reflexivity.
Qed.

(** The fuel of [star_loop] is never the reason why it stops: any amount
    of it that covers the input gives the same result. *)
Lemma star_loop_fuel (r : Re.regex) k :
  forall n m st,
    List.length (Re.rest st) <= n -> List.length (Re.rest st) <= m ->
    Re.star_loop (Re.run r) k n st = Re.star_loop (Re.run r) k m st.
Proof.
  induction n as [|n IH]; intros m st Hn Hm.
  - rewrite !star_loop_at_end by lia. reflexivity.
  - destruct m as [|m].
    + rewrite !star_loop_at_end by lia. reflexivity.
    + cbn [Re.star_loop].
      rewrite (run_ext r st _
                 (fun st1 =>
                    if List.length (Re.rest st1) <? List.length (Re.rest st)
                    then Re.star_loop (Re.run r) k m st1 else None));
        [reflexivity |].
      intros s. destruct (Nat.ltb_spec (List.length (Re.rest s))
                            (List.length (Re.rest st))); [|reflexivity].
      apply IH; lia.
Qed.

Lemma run_sound (r : Re.regex) :
  forall st k res,
    Re.run r st k = Some res ->
    exists u st', reaches r st st' u /\ k st' = Some res.
Proof.
  induction r as [| p | | r1 IH1 r2 IH2 | r1 IH1 r2 IH2 | r1 IH1 | r1 IH1];
    intros st k res H; simpl in H.
  - exists [], st. split; [|exact H]. repeat split; auto; constructor.
  - destruct (Re.rest st) as [|c cs] eqn:E; [discriminate |].
    destruct (p c) eqn:Pc; [|discriminate].
    eexists [c], _. split; [|exact H]. repeat split; simpl; auto.
    + now constructor.
    + lia.
  - destruct (Re.at_boundary st); [|discriminate].
    exists [], st. split; [|exact H]. repeat split; auto; constructor.
  - apply IH1 in H. destruct H as (u1 & st1 & R1 & H).
    apply IH2 in H. destruct H as (u2 & st2 & R2 & H).
    exists (u1 ++ u2), st2. split; [|exact H]. eapply reaches_seq; eauto.
  - destruct (Re.run r1 st k) eqn:E.
    + injection H as <-. apply IH1 in E. destruct E as (u & st' & (L & R & P & C) & E).
      exists u, st'. split; [|exact E]. repeat split; auto.
      * now apply Re.lang_alt_l.
      * simpl. intros G. apply andb_prop in G. now apply C.
    + apply IH2 in H. destruct H as (u & st' & (L & R & P & C) & E').
      exists u, st'. split; [|exact E']. repeat split; auto.
      * now apply Re.lang_alt_r.
      * simpl. intros G. apply andb_prop in G. now apply C.
  - revert H. generalize (List.length (Re.rest st)) as fuel. intros fuel.
    revert st. induction fuel as [|fuel IHf]; intros st H;
      cbn [Re.star_loop] in H.
    + exists [], st. split; [|exact H]. repeat split; auto; constructor.
    + match type of H with
      | match ?m with _ => _ end = _ => destruct m eqn:E
      end.
      * injection H as <-. apply IH1 in E.
        destruct E as (u1 & st1 & R1 & E).
        destruct (List.length (Re.rest st1) <? List.length (Re.rest st));
          [|discriminate].
        apply IHf in E. destruct E as (u2 & st2 & R2 & E).
        exists (u1 ++ u2), st2. split; [|exact E].
        destruct R1 as (L1 & Q1 & P1 & C1), R2 as (L2 & Q2 & P2 & C2).
        repeat split.
        -- now apply Re.lang_star_app.
        -- now rewrite Q1, Q2, app_assoc.
        -- rewrite P2, P1, length_app. lia.
        -- simpl. intros G. simpl in C2. now rewrite C2, C1.
      * exists [], st. split; [|exact H]. repeat split; auto; constructor.
  - apply IH1 in H. destruct H as (u & st1 & (L & R & P & C) & H).
    eexists u, _. split; [|exact H]. repeat split; simpl; auto.
    + now constructor.
    + discriminate.
Qed.

Lemma lang_chr_inv p u :
  Re.lang (Re.Chr p) u -> exists c, u = [c] /\ p c = true.
Proof. intros H. inversion H; subst. eauto. Qed.

Lemma lang_star_chr p u :
  Re.lang (Re.Star (Re.Chr p)) u -> Forall (fun c => p c = true) u.
Proof.
  intros H. remember (Re.Star (Re.Chr p)) as r eqn:Er.
  induction H; try discriminate.
  - constructor.
  - injection Er as ->. apply lang_chr_inv in H. destruct H as (c & -> & Pc).
    simpl. constructor; auto.
Qed.

Lemma lang_rep_chr p n u :
  Re.lang (Re.rep n (Re.Chr p)) u ->
  List.length u = n /\ Forall (fun c => p c = true) u.
Proof.
  revert u. induction n as [|n IH]; intros u H; simpl in H.
  - inversion H; subst. split; [reflexivity | constructor].
  - inversion H; subst. apply lang_chr_inv in H2. destruct H2 as (c & -> & Pc).
    apply IH in H4. destruct H4 as [Hl Hf]. simpl. split; [lia | auto].
Qed.

Lemma lang_at_least_chr p n u :
  Re.lang (Re.at_least n (Re.Chr p)) u ->
  n <= List.length u /\ Forall (fun c => p c = true) u.
Proof.
  intros H. inversion H; subst.
  apply lang_rep_chr in H2. destruct H2 as [Hl Hf].
  apply lang_star_chr in H4. rewrite length_app. split; [lia |].
  apply Forall_app; auto.
Qed.

Lemma never_empty_lang r u :
  never_empty r = true -> Re.lang r u -> u <> [].
Proof.
  intros N L. induction L; simpl in N; try discriminate.
  - apply orb_prop in N. intros E. apply app_eq_nil in E.
    destruct E as [-> ->]. destruct N as [N|N]; [now apply IHL1 | now apply IHL2].
  - apply andb_prop in N. now apply IHL.
  - apply andb_prop in N. now apply IHL.
  - now apply IHL.
Qed.

(** None of the patterns of the text analyzer matches the empty string,
    so a scan never meets an empty match. *)
Lemma patterns_never_empty :
  Forall (fun r => forall u, Re.lang r u -> u <> [])
    (TextAnalyzer.word_pattern :: map snd TextAnalyzer.entity_passes).
Proof.
  repeat constructor; intros u; apply never_empty_lang; reflexivity.
Qed.

(** ** The scan *)

(** Without a group, what is reported is the text the pattern consumed,
    which is a piece of the subject. *)
Lemma scan_values r before s p skip q v :
  groupless r = true ->
  In (q, v) (Re.scan r before s p skip) ->
  exists u, v = string_of_list_ascii u /\ Re.lang r u /\ incl u s.
Proof.
  intros G. revert before p skip.
  assert (Hhere : forall before s p st,
             Re.run r (Re.mkState before s p None) Some = Some st ->
             exists u, Re.reported p s st = u /\ Re.lang r u /\ incl u s).
  { intros before0 s0 p0 st E. apply run_sound in E.
    destruct E as (u & st' & (L & R & P & C) & E). injection E as <-.
    simpl in R, P, C. exists u. split; [|split; [exact L |]].
    - unfold Re.reported. rewrite (C G). unfold Re.slice. simpl.
      rewrite P, R. replace (p0 + List.length u - p0 - 0) with (List.length u) by lia.
      rewrite firstn_app, firstn_all, Nat.sub_diag. simpl. apply app_nil_r.
    - rewrite R. apply incl_appl, incl_refl. }
  induction s as [|c s IH]; intros before p skip H; simpl in H.
  - destruct skip as [|n]; simpl in H; [|contradiction].
    destruct (Re.run _ _ _) eqn:E; simpl in H; [|contradiction].
    try rewrite app_nil_r in H. destruct H as [H|[]]. injection H as _ <-.
    apply Hhere in E. destruct E as (u & -> & L & I). eauto.
  - assert (Htail : forall sk,
               In (q, v) (Re.scan r (Some c) s (S p) sk) ->
               exists u, v = string_of_list_ascii u /\ Re.lang r u /\
                         incl u (c :: s)).
    { intros sk Hin. apply IH in Hin. destruct Hin as (u & -> & L & I).
      exists u. repeat split; auto. now apply incl_tl. }
    destruct skip as [|n]; simpl in H; [|eauto].
    destruct (Re.run _ _ _) eqn:E; simpl in H; [|eauto].
    destruct H as [H|H]; [|eauto]. injection H as _ <-.
    apply Hhere in E. destruct E as (u & -> & L & I). eauto.
Qed.

(** A successful run closes its group, if any, inside what it read. *)
Lemma run_cap (r : Re.regex) :
  forall st k res,
    Re.run r st k = Some res ->
    exists st', Re.pos st <= Re.pos st' /\ cap_within st st' /\
                k st' = Some res.
Proof.
  induction r as [| p | | r1 IH1 r2 IH2 | r1 IH1 r2 IH2 | r1 IH1 | r1 IH1];
    intros st k res H; simpl in H.
  - exists st. auto using cap_within_refl.
  - destruct (Re.rest st) as [|c cs]; [discriminate |].
    destruct (p c); [|discriminate].
    eexists. split; [|split; [|exact H]]; simpl; [lia | now left].
  - destruct (Re.at_boundary st); [|discriminate].
    exists st. auto using cap_within_refl.
  - apply IH1 in H. destruct H as (st1 & P1 & C1 & H).
    apply IH2 in H. destruct H as (st2 & P2 & C2 & H).
    exists st2. split; [lia |]. split; [|exact H].
    eapply cap_within_trans; eauto.
  - destruct (Re.run r1 st k) eqn:E.
    + injection H as <-. now apply IH1 in E.
    + now apply IH2 in H.
  - revert H. generalize (List.length (Re.rest st)) as fuel. intros fuel.
    revert st. induction fuel as [|fuel IHf]; intros st H;
      cbn [Re.star_loop] in H.
    + exists st. auto using cap_within_refl.
    + match type of H with
      | match ?m with _ => _ end = _ => destruct m eqn:E
      end.
      * injection H as <-. apply IH1 in E.
        destruct E as (st1 & P1 & C1 & E).
        destruct (List.length (Re.rest st1) <? List.length (Re.rest st));
          [|discriminate].
        apply IHf in E. destruct E as (st2 & P2 & C2 & E).
        exists st2. split; [lia |]. split; [|exact E].
        eapply cap_within_trans; eauto.
      * exists st. auto using cap_within_refl.
  - apply IH1 in H. destruct H as (st1 & P1 & C1 & H).
    eexists. split; [|split; [|exact H]]; simpl; [exact P1 |].
    right. exists (Re.pos st), (Re.pos st1). repeat split; auto.
Qed.

(** What a match found at offset [p] reports is the piece [s[a-p:b-p]] of
    the subject, for offsets [a], [b] inside the match. *)
Lemma run_reported r before s p st :
  Re.run r (Re.mkState before s p None) Some = Some st ->
  exists a b,
    p <= a /\ a <= b /\ b <= Re.pos st /\ Re.pos st <= p + List.length s /\
    Re.reported p s st = Re.slice (a - p) (b - p) s.
Proof.
  intros H.
  assert (Hlen : Re.pos st <= p + List.length s).
  { apply run_sound in H. destruct H as (u & st' & (_ & R & P & _) & E).
    injection E as <-. simpl in R, P. rewrite P, R, length_app. lia. }
  apply run_cap in H. destruct H as (st' & P & C & E). injection E as ->.
  simpl in P. unfold Re.reported.
  destruct C as [C | (i & j & C & A & B & D)]; simpl in *; rewrite C.
  - exists p, (Re.pos st). repeat split; auto. now rewrite Nat.sub_diag.
  - exists i, j. repeat split; auto.
Qed.

Lemma slice_cons c s a b :
  Re.slice (S a) (S b) (c :: s) = Re.slice a b s.
Proof. reflexivity. Qed.

Lemma Forall2_left {A B} (P : A -> B -> Prop) (Q : A -> Prop) l l' :
  (forall x y, P x y -> Q x) -> Forall2 P l l' -> Forall Q l.
Proof. intros H F. induction F; constructor; eauto. Qed.

Lemma Forall2_weaken {A B} (P P' : A -> B -> Prop) l l' :
  (forall x y, P x y -> P' x y) -> Forall2 P l l' -> Forall2 P' l l'.
Proof. intros H F. induction F; constructor; eauto. Qed.

(** The values reported by a scan lie in the subject one after the other,
    without overlap. *)
Lemma scan_spans r before s p skip :
  exists spans,
    Forall2 (span_of p skip s) spans (Re.scan r before s p skip) /\
    StronglySorted precedes spans.
Proof.
  revert before p skip. induction s as [|c s IH]; intros before p skip.
  - simpl. destruct skip as [|n]; simpl.
    + destruct (Re.run _ _ _) eqn:E; simpl.
      * apply run_reported in E. destruct E as (a & b & A & B & C & D & E).
        exists [(a, b)]. split; [|repeat constructor].
        repeat constructor; simpl in *; try lia. now rewrite E.
      * exists []. split; constructor.
    + exists []. split; constructor.
  - assert (Htail : forall sk sk',
               p + sk' <= S p + sk ->
               exists spans,
                 Forall2 (span_of p sk' (c :: s)) spans
                         (Re.scan r (Some c) s (S p) sk) /\
                 StronglySorted precedes spans /\
                 Forall (fun ab => S p + sk <= fst ab) spans).
    { intros sk sk' Hsk. destruct (IH (Some c) (S p) sk) as (spans & F & Hs).
      exists spans. split; [|split; [exact Hs |]].
      - revert F. apply Forall2_weaken. intros [a b] [q v] (A & B & C & D).
        simpl in *. repeat split; simpl; try lia.
        rewrite D. f_equal.
        replace (a - p) with (S (a - S p)) by lia.
        replace (b - p) with (S (b - S p)) by lia.
        now rewrite slice_cons.
      - revert F. apply Forall2_left. intros [a b] [q v] (A & _). exact A. }
    cbn [Re.scan]. destruct skip as [|n].
    + destruct (Re.run _ _ _) eqn:E.
      * apply run_reported in E. destruct E as (a & b & A & B & C & D & E).
        destruct (Htail (Re.pos s0 - p - 1) 0) as (spans & F & Hs & G); [lia |].
        exists ((a, b) :: spans). split.
        -- simpl. constructor; [|exact F].
           repeat split; simpl in *; try lia. now rewrite E.
        -- constructor; [exact Hs |].
           revert G. apply Forall_impl. intros [a' b'] G. unfold precedes.
           simpl in *. lia.
      * destruct (Htail 0 0) as (spans & F & Hs & _); [lia |].
        exists spans. auto.
    + destruct (Htail n (S n)) as (spans & F & Hs & _); [lia |].
      exists spans. auto.
Qed.

(** ** Keywords *)

Lemma StronglySorted_filter {A} (R : A -> A -> Prop) (f : A -> bool) l :
  StronglySorted R l -> StronglySorted R (filter f l).
Proof.
  induction 1 as [|x l S IH F]; simpl; [constructor |].
  destruct (f x); [|exact IH]. constructor; [exact IH |].
  apply Forall_forall. intros y Hy. apply filter_In in Hy.
  rewrite Forall_forall in F. now apply F.
Qed.

Lemma StronglySorted_weaken {A} (R R' : A -> A -> Prop) l :
  (forall a b, In a l -> In b l -> R a b -> R' a b) ->
  StronglySorted R l -> StronglySorted R' l.
Proof.
  intros HR S. induction S as [|x l S IH F]; constructor.
  - apply IH. intros a b Ha Hb. apply HR; now right.
  - rewrite Forall_forall in *. intros y Hy. apply HR; simpl; auto.
Qed.

Lemma StronglySorted_map {A B} (f : A -> B) (R : B -> B -> Prop) l :
  StronglySorted (fun a b => R (f a) (f b)) l -> StronglySorted R (map f l).
Proof.
  induction 1 as [|x l S IH F]; simpl; constructor; [exact IH |].
  rewrite Forall_forall in *. intros y Hy. apply in_map_iff in Hy.
  destruct Hy as (a & <- & Ha). now apply F.
Qed.

Lemma In_firstn {A} (x : A) n l : In x (firstn n l) -> In x l.
Proof.
  revert n. induction l as [|y l IH]; intros [|n]; simpl; try tauto.
  intros [H|H]; [now left | right; eauto].
Qed.

Lemma StronglySorted_firstn {A} (R : A -> A -> Prop) n l :
  StronglySorted R l -> StronglySorted R (firstn n l).
Proof.
  intros S. revert n. induction S as [|x l S IH F]; intros [|n]; simpl;
    try constructor; [apply IH |].
  rewrite Forall_forall in *. intros y Hy. apply F.
  eapply In_firstn. exact Hy.
Qed.

Lemma distinct_In ws w : In w (distinct ws) <-> In w ws.
Proof.
  induction ws as [|x ws IH]; simpl; [tauto |].
  rewrite filter_In, IH. destruct (String.eqb_spec w x) as [->|N]; simpl.
  - tauto.
  - intuition congruence.
Qed.

Lemma distinct_NoDup ws : NoDup (distinct ws).
Proof.
  induction ws as [|x ws IH]; simpl; constructor.
  - rewrite filter_In. intros [_ H]. now rewrite String.eqb_refl in H.
  - now apply NoDup_filter.
Qed.

Lemma distinct_first_seen ws :
  StronglySorted (fun a b => first_index ws a < first_index ws b) (distinct ws).
Proof.
  induction ws as [|x ws IH]; simpl; constructor.
  - apply StronglySorted_filter with (f := fun y => negb (String.eqb y x)) in IH.
    revert IH. apply StronglySorted_weaken. intros a b Ha Hb H.
    apply filter_In in Ha, Hb. destruct Ha as [_ Ha], Hb as [_ Hb].
    destruct (String.eqb a x); [discriminate |].
    destruct (String.eqb b x); [discriminate |]. lia.
  - apply Forall_forall. intros y Hy. apply filter_In in Hy.
    destruct Hy as [_ Hy]. rewrite String.eqb_refl.
    destruct (String.eqb y x); [discriminate | lia].
Qed.

Lemma distinct_snoc ws w :
  distinct (ws ++ [w]) =
  if Text.mem w ws then distinct ws else distinct ws ++ [w].
Proof.
  unfold Text.mem. induction ws as [|x ws IH]; simpl; [reflexivity |].
  rewrite IH. destruct (String.eqb_spec w x) as [->|N]; simpl.
  - destruct (existsb (String.eqb x) ws); [reflexivity |].
    rewrite filter_app. simpl. rewrite String.eqb_refl. simpl.
    now rewrite app_nil_r.
  - destruct (existsb (String.eqb w) ws); [reflexivity |].
    rewrite filter_app. simpl.
    destruct (String.eqb_spec w x); [congruence | reflexivity].
Qed.

Lemma mem_In w ws : Text.mem w ws = true <-> In w ws.
Proof.
  unfold Text.mem. rewrite existsb_exists. split.
  - intros (x & Hx & E). apply String.eqb_eq in E. now subst.
  - intros H. exists w. split; [exact H | apply String.eqb_refl].
Qed.

Lemma frequency_snoc ws w x :
  frequency (ws ++ [w]) x = frequency ws x + (if String.eqb x w then 1 else 0).
Proof.
  unfold frequency. rewrite count_occ_app. simpl.
  destruct (string_dec w x) as [->|N].
  - now rewrite String.eqb_refl.
  - destruct (String.eqb_spec x w); [congruence | reflexivity].
Qed.

(** *** The dictionary *)

Lemma dict_get_tabulate f l w :
  TextAnalyzer.dict_get (tabulate f l) w = if Text.mem w l then f w else 0.
Proof.
  unfold Text.mem. induction l as [|x l IH]; simpl; [reflexivity |].
  destruct (String.eqb_spec w x) as [->|N]; simpl; [reflexivity | exact IH].
Qed.

Lemma dict_set_tabulate_new f l w v :
  Text.mem w l = false ->
  TextAnalyzer.dict_set (tabulate f l) w v = tabulate f l ++ [(w, v)].
Proof.
  unfold Text.mem. induction l as [|x l IH]; simpl; [reflexivity |].
  destruct (String.eqb w x); simpl; [discriminate |].
  intros H. now rewrite IH.
Qed.

Lemma dict_set_tabulate_old f g l w :
  NoDup l -> In w l ->
  (forall x, x <> w -> g x = f x) ->
  TextAnalyzer.dict_set (tabulate f l) w (g w) = tabulate g l.
Proof.
  intros ND Hin Hg. induction l as [|x l IH]; simpl; [contradiction |].
  inversion ND as [|? ? Hx ND']; subst.
  destruct (String.eqb_spec w x) as [->|N].
  - f_equal. unfold tabulate. apply map_ext_in. intros y Hy.
    rewrite Hg; [reflexivity |]. intros ->. contradiction.
  - rewrite (Hg x) by congruence. f_equal. apply IH; [exact ND' |].
    destruct Hin; [congruence | assumption].
Qed.

(** After the counting loop the dictionary holds every distinct token, in
    first-seen order, with its number of occurrences. *)
Lemma word_freq_tabulate ws :
  fold_left count_word ws [] = tabulate (frequency ws) (distinct ws).
Proof.
  induction ws as [|w ws IH] using rev_ind; [reflexivity |].
  rewrite fold_left_app, IH. simpl. unfold count_word.
  rewrite dict_get_tabulate, distinct_snoc.
  assert (Hmem : Text.mem w (distinct ws) = Text.mem w ws).
  { destruct (Text.mem w ws) eqn:E.
    - apply mem_In, distinct_In, mem_In, E.
    - destruct (Text.mem w (distinct ws)) eqn:E'; [|reflexivity].
      apply (proj1 (mem_In _ _)), (proj1 (distinct_In _ _)),
        (proj2 (mem_In _ _)) in E'.
      congruence. }
  rewrite Hmem. destruct (Text.mem w ws) eqn:E.
  - replace (frequency ws w + 1) with (frequency (ws ++ [w]) w)
      by (rewrite frequency_snoc, String.eqb_refl; reflexivity).
    apply dict_set_tabulate_old.
    + apply distinct_NoDup.
    + apply distinct_In, mem_In, E.
    + intros x N. rewrite frequency_snoc.
      destruct (String.eqb_spec x w); [congruence | lia].
  - rewrite dict_set_tabulate_new by (now rewrite Hmem).
    unfold tabulate. rewrite map_app. simpl. f_equal.
    + apply map_ext_in. intros x Hx. rewrite frequency_snoc. f_equal.
      destruct (String.eqb_spec x w) as [->|N]; [|lia].
      apply (proj1 (distinct_In _ _)), (proj2 (mem_In _ _)) in Hx. congruence.
    + rewrite frequency_snoc, String.eqb_refl.
      assert (frequency ws w = 0); [|now rewrite H].
      apply count_occ_not_In. intros Hin. apply mem_In in Hin. congruence.
Qed.

Lemma word_freq_skips_stop_words ws d :
  fold_left
    (fun word_freq word =>
       if negb (Text.mem word TextAnalyzer.stop_words)
       then TextAnalyzer.dict_set word_freq word
              (TextAnalyzer.dict_get word_freq word + 1)
       else word_freq) ws d =
  fold_left count_word
    (filter (fun w => negb (Text.mem w TextAnalyzer.stop_words)) ws) d.
Proof.
  revert d. induction ws as [|w ws IH]; intros d; [reflexivity |].
  cbn [fold_left filter].
  destruct (negb (Text.mem w TextAnalyzer.stop_words)); cbn [fold_left];
    apply IH.
Qed.

(** *** The sort *)

Section StableSort.

Variable seen : string * nat -> string * nat -> Prop.

Lemma insert_desc_perm x l :
  Permutation (TextAnalyzer.insert_desc x l) (x :: l).
Proof.
  induction l as [|y l IH]; simpl; [reflexivity |].
  destruct (snd x <? snd y); [|reflexivity].
  rewrite IH. apply perm_swap.
Qed.

Lemma insert_desc_sorted x l :
  StronglySorted (stable_desc seen) l ->
  Forall (seen x) l ->
  StronglySorted (stable_desc seen) (TextAnalyzer.insert_desc x l).
Proof.
  intros S. induction S as [|y l S IH F]; intros Hx; simpl.
  - repeat constructor.
  - inversion Hx as [|? ? Hxy Hxl]; subst.
    destruct (Nat.ltb_spec (snd x) (snd y)) as [Hlt|Hge].
    + constructor; [now apply IH |].
      apply Forall_forall. intros z Hz.
      apply (Permutation_in _ (insert_desc_perm x l)) in Hz.
      destruct Hz as [<-|Hz]; [now left |].
      rewrite Forall_forall in F. now apply F.
    + constructor; [now constructor |].
      assert (Hy : stable_desc seen x y).
      { unfold stable_desc. destruct (Nat.eq_dec (snd x) (snd y)); [right | left]; auto; lia. }
      constructor; [exact Hy |].
      rewrite Forall_forall in *. intros z Hz.
      specialize (F z Hz). specialize (Hxl z Hz).
      unfold stable_desc in *.
      destruct (Nat.eq_dec (snd x) (snd z)); [right; auto | left; lia].
Qed.

Lemma sorted_by_count_desc_perm l :
  Permutation (TextAnalyzer.sorted_by_count_desc l) l.
Proof.
  induction l as [|x l IH]; simpl; [reflexivity |].
  rewrite insert_desc_perm. now constructor.
Qed.

Lemma sorted_by_count_desc_sorted l :
  StronglySorted seen l ->
  StronglySorted (stable_desc seen) (TextAnalyzer.sorted_by_count_desc l).
Proof.
  induction 1 as [|x l S IH F]; simpl; [constructor |].
  apply insert_desc_sorted; [exact IH |].
  rewrite Forall_forall in *. intros y Hy. apply F.
  now apply (Permutation_in _ (sorted_by_count_desc_perm l)).
Qed.

End StableSort.

(** *** The words the pattern finds *)

Lemma is_alpha_word c : Text.is_alpha c = true -> Text.is_word c = true.
Proof. unfold Text.is_word, Text.is_alnum. now intros ->. Qed.

Lemma take_drop_while p s : take_while p s ++ drop_while p s = s.
Proof.
  induction s as [|c s IH]; simpl; [reflexivity |].
  destruct (p c); simpl; [now rewrite IH | reflexivity].
Qed.

Lemma take_while_all p s : forallb p (take_while p s) = true.
Proof.
  induction s as [|c s IH]; simpl; [reflexivity |].
  destruct (p c) eqn:E; simpl; [now rewrite E | reflexivity].
Qed.

Lemma drop_while_stop p s :
  match hd_error (drop_while p s) with
  | Some c => p c = false
  | None => True
  end.
Proof.
  induction s as [|c s IH]; simpl; [exact I |].
  destruct (p c) eqn:E; simpl; [exact IH | exact E].
Qed.

(** A run of [p]-characters that is followed by none is the longest. *)
Lemma take_while_app p w s :
  forallb p w = true ->
  match hd_error s with Some c => p c = false | None => True end ->
  take_while p (w ++ s) = w /\ drop_while p (w ++ s) = s.
Proof.
  intros Hw Hs. induction w as [|c w IH]; simpl in *.
  - destruct s as [|c s]; simpl in *; [auto |]. now rewrite Hs.
  - apply andb_prop in Hw. destruct Hw as [Hc Hw]. rewrite Hc.
    destruct (IH Hw) as [-> ->]. auto.
Qed.

Lemma wordish_drop_while s :
  Re.wordish (hd_error (drop_while Text.is_word s)) = false.
Proof.
  pose proof (drop_while_stop Text.is_word s) as H.
  destruct (hd_error _); [exact H | reflexivity].
Qed.

Lemma drop_while_fixed p s :
  match hd_error s with Some c => p c = false | None => True end ->
  drop_while p s = s.
Proof. destruct s as [|c s]; simpl; [auto |]. now intros ->. Qed.

Lemma prev_after_word before u :
  u <> [] -> forallb Text.is_word u = true ->
  Re.wordish (prev_after before u) = true.
Proof.
  unfold prev_after. revert before.
  induction u as [|c u IH]; intros before Hne Hu; [contradiction |].
  simpl in *. apply andb_prop in Hu. destruct Hu as [Hc Hu].
  destruct u as [|c' u]; [exact Hc |].
  apply IH; [discriminate | exact Hu].
Qed.

Lemma forallb_alpha_word u :
  forallb Text.is_alpha u = true -> forallb Text.is_word u = true.
Proof.
  induction u as [|c u IH]; simpl; [reflexivity |].
  intros H. apply andb_prop in H. destruct H as [Hc Hu].
  now rewrite (is_alpha_word _ Hc), IH.
Qed.

Lemma run_chr p st k :
  Re.run (Re.Chr p) st k =
  match Re.rest st with
  | c :: cs =>
      if p c then k (Re.mkState (Some c) cs (S (Re.pos st)) (Re.cap st))
      else None
  | [] => None
  end.
Proof. reflexivity. Qed.

(** Greedy [[a-zA-Z]*] followed by [\b], after a word character: the
    letters are read to the last one, and the match stands or falls with
    the boundary there; a shorter run of letters ends before a letter. *)
Lemma star_alpha_boundary fuel :
  forall before s p cap,
    List.length s <= fuel -> Re.wordish before = true ->
    Re.star_loop (Re.run (Re.Chr Text.is_alpha))
      (fun st => if Re.at_boundary st then Some st else None)
      fuel (Re.mkState before s p cap) =
    if Re.wordish (hd_error (drop_while Text.is_alpha s)) then None
    else Some (Re.mkState (prev_after before (take_while Text.is_alpha s))
                 (drop_while Text.is_alpha s)
                 (p + List.length (take_while Text.is_alpha s)) cap).
Proof.
  induction fuel as [|fuel IH]; intros before s p cap Hlen Hw.
  - destruct s as [|c s]; [|simpl in Hlen; lia].
    cbn [Re.star_loop]. unfold Re.at_boundary. cbn. rewrite Hw.
    now rewrite Nat.add_0_r.
  - cbn [Re.star_loop]. rewrite run_chr. cbn [Re.rest].
    destruct s as [|c s].
    + unfold Re.at_boundary. cbn. rewrite Hw. now rewrite Nat.add_0_r.
    + cbn [take_while drop_while]. destruct (Text.is_alpha c) eqn:A.
      * cbn [Re.rest Re.pos Re.cap List.length].
        assert (L : (List.length s <? S (List.length s)) = true)
          by (apply Nat.ltb_lt; lia).
        rewrite L. simpl in Hlen.
        rewrite (IH (Some c) s (S p) cap) by
          (try lia; simpl; now apply is_alpha_word).
        cbn [List.length].
        destruct (Re.wordish (hd_error (drop_while Text.is_alpha s))).
        -- unfold Re.at_boundary. cbn. rewrite Hw.
           now rewrite (is_alpha_word _ A).
        -- unfold prev_after. cbn [fold_left]. do 2 f_equal. lia.
      * unfold Re.at_boundary. cbn. rewrite Hw.
        destruct (Text.is_word c); [reflexivity |].
        now rewrite Nat.add_0_r.
Qed.

Lemma run_seq r1 r2 st k :
  Re.run (Re.Seq r1 r2) st k = Re.run r1 st (fun st1 => Re.run r2 st1 k).
Proof. reflexivity. Qed.

Lemma run_bnd st k :
  Re.run Re.Bnd st k = if Re.at_boundary st then k st else None.
Proof. reflexivity. Qed.

(** One attempt of the word pattern: it succeeds exactly after a character
    that is no word character, on three letters or more that no word
    character follows, and then reads all of them. *)
Lemma run_word_pattern before s p :
  Re.run TextAnalyzer.word_pattern (Re.mkState before s p None) Some =
  if negb (Re.wordish before)
     && (3 <=? List.length (take_while Text.is_alpha s))
     && negb (Re.wordish (hd_error (drop_while Text.is_alpha s)))
  then Some (Re.mkState (prev_after before (take_while Text.is_alpha s))
               (drop_while Text.is_alpha s)
               (p + List.length (take_while Text.is_alpha s)) None)
  else None.
Proof.
  unfold TextAnalyzer.word_pattern, Re.seqs, Re.at_least. cbn [fold_right Re.rep].
  rewrite run_seq, run_bnd. unfold Re.at_boundary at 1. cbn [Re.prev Re.rest].
  destruct (Re.wordish before) eqn:B; cbn [negb andb xorb].
  - destruct s as [|c s]; cbn [hd_error Re.wordish xorb negb].
    + rewrite !run_seq, run_chr. reflexivity.
    + destruct (Text.is_word c) eqn:W; cbn [negb]; [reflexivity |].
      rewrite !run_seq, run_chr. cbn [Re.rest].
      destruct (Text.is_alpha c) eqn:A; [|reflexivity].
      apply is_alpha_word in A. congruence.
  - destruct s as [|c1 s]; cbn [hd_error Re.wordish]; [reflexivity |].
    cbn [take_while drop_while].
    destruct (Text.is_alpha c1) eqn:A1.
    2: { cbn [List.length Nat.leb andb].
         destruct (Text.is_word c1); [|reflexivity].
         rewrite !run_seq, run_chr. cbn [Re.rest]. now rewrite A1. }
    rewrite (is_alpha_word _ A1).
    rewrite !run_seq, run_chr. cbn [Re.rest Re.pos Re.cap]. rewrite A1.
    rewrite !run_seq, run_chr. cbn [Re.rest Re.pos Re.cap].
    destruct s as [|c2 s]; [reflexivity |].
    cbn [take_while drop_while].
    destruct (Text.is_alpha c2) eqn:A2; [|reflexivity].
    rewrite !run_seq, run_chr. cbn [Re.rest Re.pos Re.cap].
    destruct s as [|c3 s]; [reflexivity |].
    cbn [take_while drop_while].
    destruct (Text.is_alpha c3) eqn:A3; [|reflexivity].
    cbn [Re.run Re.rest].
    change (fun (st : Re.state) (k : Re.state -> option Re.state) =>
              match Re.rest st with
              | [] => None
              | c :: cs =>
                  if Text.is_alpha c
                  then k (Re.mkState (Some c) cs (S (Re.pos st)) (Re.cap st))
                  else None
              end)
      with (Re.run (Re.Chr Text.is_alpha)).
    rewrite star_alpha_boundary;
      [| lia | simpl; now apply is_alpha_word].
    cbn [List.length Nat.leb andb].
    destruct (Re.wordish (hd_error (drop_while Text.is_alpha s)));
      cbn [negb]; [reflexivity |].
    unfold prev_after. cbn [fold_left]. do 2 f_equal. lia.
Qed.

(** *** The scan, position by position *)

Lemma scan_nil r before p :
  Re.scan r before [] p 0 =
  match Re.run r (Re.mkState before [] p None) Some with
  | Some st => [(p, string_of_list_ascii (Re.reported p [] st))]
  | None => []
  end.
Proof. simpl. destruct (Re.run _ _ _); reflexivity. Qed.

Lemma scan_cons r before c s p :
  Re.scan r before (c :: s) p 0 =
  match Re.run r (Re.mkState before (c :: s) p None) Some with
  | Some st =>
      (p, string_of_list_ascii (Re.reported p (c :: s) st))
      :: Re.scan r (Some c) s (S p) (Re.pos st - p - 1)
  | None => Re.scan r (Some c) s (S p) 0
  end.
Proof. simpl. destruct (Re.run _ _ _); reflexivity. Qed.

(** The characters of a match are passed over. *)
Lemma scan_skip r n :
  forall s before p,
    n <= List.length s ->
    Re.scan r before s p n =
    Re.scan r (prev_after before (firstn n s)) (skipn n s) (p + n) 0.
Proof.
  induction n as [|n IH]; intros s before p Hn.
  - cbn [firstn skipn]. unfold prev_after. cbn [fold_left].
    now rewrite Nat.add_0_r.
  - destruct s as [|c s]; [simpl in Hn; lia |].
    cbn [firstn skipn]. unfold prev_after. cbn [fold_left].
    fold (prev_after (Some c) (firstn n s)).
    replace (p + S n) with (S p + n) by lia.
    rewrite <- IH by (simpl in Hn; lia). reflexivity.
Qed.

Lemma word_runs_words w :
  forall run s,
    forallb Text.is_word w = true ->
    word_runs run (w ++ s) = word_runs (run ++ w) s.
Proof.
  induction w as [|c w IH]; intros run s Hw; simpl in *.
  - now rewrite app_nil_r.
  - apply andb_prop in Hw. destruct Hw as [Hc Hw]. rewrite Hc.
    rewrite IH by exact Hw. now rewrite <- app_assoc.
Qed.

Lemma word_runs_stop run s :
  Re.wordish (hd_error s) = false ->
  word_runs run s =
  match run with [] => [] | _ => [run] end ++ word_runs [] s.
Proof.
  destruct s as [|c s]; simpl.
  - intros _. now rewrite app_nil_r.
  - now intros ->.
Qed.

(** A run of word characters that no word character follows is one run of
    the text. *)
Lemma word_runs_run w s :
  w <> [] -> forallb Text.is_word w = true ->
  Re.wordish (hd_error s) = false ->
  word_runs [] (w ++ s) = w :: word_runs [] s.
Proof.
  intros Hne Hw Hs. rewrite word_runs_words by exact Hw. cbn [app].
  rewrite word_runs_stop by exact Hs.
  destruct w; [contradiction | reflexivity].
Qed.

Lemma not_wordish_stop (p : ascii -> bool) s :
  (forall c, p c = true -> Text.is_word c = true) ->
  Re.wordish (hd_error s) = false ->
  match hd_error s with Some c => p c = false | None => True end.
Proof.
  intros Hp. destruct s as [|c s]; simpl; [auto |].
  intros W. destruct (p c) eqn:E; [|reflexivity].
  apply Hp in E. congruence.
Qed.

(** The scan with the word pattern finds the words of the text: after a
    character that is no word character it starts afresh, after a word
    character it first leaves the run it stands in. *)
Lemma scan_word_pattern n :
  forall s before p,
    List.length s <= n ->
    map snd (Re.scan TextAnalyzer.word_pattern before s p 0) =
    map string_of_list_ascii
      (filter is_long_word
         (word_runs []
            (if Re.wordish before then drop_while Text.is_word s else s))).
Proof.
  induction n as [|n IH]; intros s before p Hlen.
  - destruct s as [|c s]; [|simpl in Hlen; lia].
    rewrite scan_nil, run_word_pattern. cbn [take_while List.length Nat.leb].
    rewrite andb_false_r. cbn [andb]. now destruct (Re.wordish before).
  - destruct s as [|c s].
    { rewrite scan_nil, run_word_pattern. cbn [take_while List.length Nat.leb].
      rewrite andb_false_r. cbn [andb]. now destruct (Re.wordish before). }
    simpl in Hlen. rewrite scan_cons, run_word_pattern.
    set (u := take_while Text.is_alpha (c :: s)).
    set (r := drop_while Text.is_alpha (c :: s)).
    assert (Hur : u ++ r = c :: s) by apply take_drop_while.
    assert (Hu : forallb Text.is_alpha u = true) by apply take_while_all.
    assert (Hnext : forall (b : bool),
               map snd (Re.scan TextAnalyzer.word_pattern (Some c) s (S p) 0) =
               map string_of_list_ascii
                 (filter is_long_word
                    (word_runs []
                       (if Text.is_word c then drop_while Text.is_word s
                        else s)))).
    { intros _. rewrite IH by lia. reflexivity. }
    destruct (Re.wordish before) eqn:B; cbn [negb andb].
    + (* inside a run: no match here *)
      rewrite (Hnext true). cbn [drop_while].
      destruct (Text.is_word c) eqn:W; [reflexivity |].
      cbn [word_runs]. rewrite W. reflexivity.
    + destruct ((3 <=? List.length u)
                && negb (Re.wordish (hd_error r))) eqn:M.
      * (* a word starts here *)
        apply andb_prop in M. destruct M as [M3 Mr].
        apply negb_true_iff in Mr. apply Nat.leb_le in M3.
        destruct u as [|c' u1] eqn:Eu; [simpl in M3; lia |].
        injection Hur as -> Hs.
        cbn [map snd Re.pos]. unfold Re.reported. cbn [Re.cap Re.pos].
        assert (Hrep : Re.slice 0 (p + List.length (c :: u1) - p) (c :: s) =
                       c :: u1).
        { unfold Re.slice. cbn [skipn].
          replace (p + List.length (c :: u1) - p - 0)
            with (List.length (c :: u1)) by lia.
          rewrite <- Hs.
          change (c :: u1 ++ r) with ((c :: u1) ++ r).
          rewrite firstn_app, Nat.sub_diag, firstn_all. cbn [firstn].
          apply app_nil_r. }
        rewrite Hrep.
        replace (p + List.length (c :: u1) - p - 1) with (List.length u1)
          by (simpl; lia).
        rewrite scan_skip by (rewrite <- Hs, length_app; lia).
        rewrite <- Hs at 1 2.
        rewrite firstn_app, Nat.sub_diag, firstn_all. cbn [firstn].
        rewrite app_nil_r, skipn_app, Nat.sub_diag, skipn_all. cbn [skipn app].
        rewrite IH by (apply (f_equal (@List.length ascii)) in Hs;
                       rewrite length_app in Hs; lia).
        assert (Hw : forallb Text.is_word (c :: u1) = true)
          by now apply forallb_alpha_word.
        assert (Hprev : Re.wordish (prev_after (Some c) u1) = true).
        { change (prev_after (Some c) u1) with (prev_after before (c :: u1)).
          apply prev_after_word; [discriminate | exact Hw]. }
        rewrite Hprev.
        rewrite (drop_while_fixed Text.is_word r)
          by (apply not_wordish_stop; auto).
        rewrite <- Hs.
        change (c :: u1 ++ r) with ((c :: u1) ++ r).
        rewrite word_runs_run by (discriminate || assumption).
        assert (Hl : is_long_word (c :: u1) = true).
        { unfold is_long_word. rewrite Hu. apply Nat.leb_le in M3.
          now rewrite M3. }
        cbn [filter]. rewrite Hl. reflexivity.
      * (* no word starts here *)
        rewrite (Hnext true).
        destruct (Text.is_word c) eqn:W.
        2: { cbn [word_runs]. rewrite W. reflexivity. }
        set (w := take_while Text.is_word (c :: s)).
        set (rw := drop_while Text.is_word (c :: s)).
        assert (Hw : forallb Text.is_word w = true) by apply take_while_all.
        assert (Hrw : Re.wordish (hd_error rw) = false)
          by apply wordish_drop_while.
        assert (Hne : w <> []).
        { unfold w. cbn [take_while]. rewrite W. discriminate. }
        rewrite <- (take_drop_while Text.is_word (c :: s)) at 1.
        fold w. fold rw.
        rewrite word_runs_run by assumption.
        cbn [filter].
        assert (Hlong : is_long_word w = false).
        { destruct (is_long_word w) eqn:Lw; [exfalso | reflexivity].
          unfold is_long_word in Lw. apply andb_prop in Lw.
          destruct Lw as [L3 La].
          destruct (take_while_app Text.is_alpha w rw La) as [Tu Tr].
          { apply not_wordish_stop; [apply is_alpha_word | exact Hrw]. }
          unfold w, rw in Tu, Tr. rewrite take_drop_while in Tu, Tr.
          fold u in Tu. fold r in Tr. fold w in Tu. fold rw in Tr.
          rewrite Tu, Tr, L3, Hrw in M. discriminate. }
        rewrite Hlong. unfold rw. cbn [drop_while]. rewrite W. reflexivity.
Qed.

(** The tokenizer of [extract_keywords] finds the words of the text. *)
Lemma findall_word_pattern text :
  Re.findall TextAnalyzer.word_pattern text = alphabetic_words text.
Proof.
  unfold Re.findall, Re.finditer, alphabetic_words.
  now rewrite (scan_word_pattern (List.length (list_ascii_of_string text))).
Qed.

(** *** Tokens *)

Lemma string_length_of_list u :
  String.length (string_of_list_ascii u) = List.length u.
Proof. induction u as [|c u IH]; simpl; [reflexivity | now rewrite IH]. Qed.

Lemma lower_char_not_upper c : Text.is_upper (Text.lower_char c) = false.
Proof. destruct c as [[] [] [] [] [] [] [] []]; reflexivity. Qed.

Lemma lower_not_upper t :
  Forall (fun c => Text.is_upper c = false) (list_ascii_of_string (Text.lower t)).
Proof.
  induction t as [|c t IH]; simpl; constructor; auto using lower_char_not_upper.
Qed.

Lemma findall_In r text v :
  In v (Re.findall r text) <->
  exists q, In (q, v) (Re.scan r None (list_ascii_of_string text) 0 0).
Proof.
  unfold Re.findall, Re.finditer. rewrite in_map_iff. split.
  - intros ([q v'] & <- & H). now exists q.
  - intros (q & H). now exists (q, v).
Qed.

Lemma lang_word_pattern u :
  Re.lang TextAnalyzer.word_pattern u ->
  3 <= List.length u /\ Forall (fun c => Text.is_alpha c = true) u.
Proof.
  unfold TextAnalyzer.word_pattern, Re.seqs. cbn [fold_right]. intros H.
  inversion H as [| | | ? ? u1 u' H1 H' | | | | |]; subst.
  inversion H1; subst.
  inversion H' as [| | | ? ? u2 u3 H2 H3 | | | | |]; subst.
  inversion H3 as [| | | ? ? u4 u5 H4 H5 | | | | |]; subst.
  inversion H4; subst. inversion H5; subst.
  simpl. rewrite app_nil_r. now apply lang_at_least_chr.
Qed.

(** Every word the tokenizer finds in a lowercased text is made of at
    least three lowercase letters. *)
Lemma words_of_lowered text w :
  In w (Re.findall TextAnalyzer.word_pattern (Text.lower text)) ->
  3 <= String.length w /\
  Forall (fun c => Text.is_lower c = true) (list_ascii_of_string w).
Proof.
  intros H. apply findall_In in H. destruct H as (q & H).
  apply scan_values in H; [|reflexivity].
  destruct H as (u & -> & L & I). apply lang_word_pattern in L.
  destruct L as [Hlen Halpha].
  rewrite string_length_of_list, list_ascii_of_string_of_list_ascii.
  split; [exact Hlen |].
  pose proof (lower_not_upper text) as Hup.
  rewrite Forall_forall in *. intros c Hc.
  specialize (Halpha c Hc). specialize (Hup c (I c Hc)).
  unfold Text.is_alpha in Halpha. rewrite Hup in Halpha. exact Halpha.
Qed.

Lemma keyword_tokens_ok text : Forall is_keyword_token (keyword_tokens text).
Proof.
  apply Forall_forall. intros w Hw. unfold keyword_tokens in Hw.
  apply filter_In in Hw. destruct Hw as [Hw Hstop].
  rewrite <- findall_word_pattern in Hw.
  apply words_of_lowered in Hw. destruct Hw as [Hlen Hlow].
  repeat split; auto. now apply negb_true_iff.
Qed.

Lemma map_fst_tabulate f l : map fst (tabulate f l) = l.
Proof.
  unfold tabulate. rewrite map_map. simpl. apply map_id.
Qed.

(** C9. The keywords are the first [max_k] of the distinct tokens ranked
    by descending frequency, equally frequent tokens in first-seen order.
    The tokens are the words of the lowercased text, stop words removed,
    a word being a maximal run of letters, digits and underscores that is
    made of three letters or more. *)
Theorem extract_keywords_ranked (text : string) (max_k : nat) :
  let toks := keyword_tokens text in
  Forall is_keyword_token toks /\
  (exists ranked,
     Permutation ranked (distinct toks) /\
     StronglySorted (ranks_before toks) ranked /\
     TextAnalyzer.extract_keywords text max_k = firstn max_k ranked /\
     List.length (TextAnalyzer.extract_keywords text max_k) <= max_k) /\
  keyword_tokens "Order the box2 now, ORDER shipping_fee and shipping!" =
    ["order"; "now"; "order"; "shipping"]%string /\
  TextAnalyzer.extract_keywords
    "Order the box2 now, ORDER shipping_fee and shipping!" 2 =
    ["order"; "now"]%string.
Proof.
  intros toks. split; [apply keyword_tokens_ok |].
  split; [| split; reflexivity].
  set (d := tabulate (frequency toks) (distinct toks)).
  assert (Hout : TextAnalyzer.extract_keywords text max_k =
                 firstn max_k (map fst (TextAnalyzer.sorted_by_count_desc d))).
  { unfold TextAnalyzer.extract_keywords.
    rewrite word_freq_skips_stop_words, findall_word_pattern.
    fold (keyword_tokens text). fold toks.
    rewrite word_freq_tabulate. fold d. now rewrite firstn_map. }
  exists (map fst (TextAnalyzer.sorted_by_count_desc d)).
  split; [| split; [| split]].
  - rewrite <- (map_fst_tabulate (frequency toks) (distinct toks)). fold d.
    apply Permutation_map, sorted_by_count_desc_perm.
  - apply StronglySorted_map.
    pose (seen := fun a b : string * nat =>
                    first_index toks (fst a) < first_index toks (fst b)).
    assert (Hs : StronglySorted (stable_desc seen)
                   (TextAnalyzer.sorted_by_count_desc d)).
    { apply sorted_by_count_desc_sorted. unfold d, tabulate.
      apply StronglySorted_map. unfold seen. simpl.
      apply distinct_first_seen. }
    revert Hs. apply StronglySorted_weaken. intros a b Ha Hb.
    assert (Hin : forall c, In c (TextAnalyzer.sorted_by_count_desc d) ->
                            snd c = frequency toks (fst c)).
    { intros c Hc.
      apply (Permutation_in _ (sorted_by_count_desc_perm d)) in Hc.
      unfold d, tabulate in Hc. apply in_map_iff in Hc.
      destruct Hc as (z & <- & _). reflexivity. }
    unfold stable_desc, ranks_before, seen.
    rewrite (Hin a Ha), (Hin b Hb). tauto.
  - exact Hout.
  - rewrite Hout. apply firstn_le_length.
Qed.

Example extract_keywords_sample :
  TextAnalyzer.extract_keywords
    "The order arrived. Shipping was slow, the ORDER box was damaged; box2 shipping!"
    3 = ["order"; "shipping"; "arrived"].
Proof. reflexivity. Qed.

(** ** Entities *)

Lemma string_of_list_app a b :
  string_of_list_ascii (a ++ b) =
  (string_of_list_ascii a ++ string_of_list_ascii b)%string.
Proof. induction a as [|c a IH]; simpl; [reflexivity | now rewrite IH]. Qed.

Lemma slice_occurs a b s :
  a <= b -> b <= List.length s ->
  occurs_at a (string_of_list_ascii (Re.slice a b s)) (string_of_list_ascii s).
Proof.
  intros Hab Hb.
  exists (string_of_list_ascii (firstn a s)), (string_of_list_ascii (skipn b s)).
  split.
  - rewrite <- !string_of_list_app. f_equal. unfold Re.slice.
    rewrite <- (firstn_skipn a s) at 1. f_equal.
    rewrite <- (firstn_skipn (b - a) (skipn a s)) at 1. f_equal.
    rewrite skipn_skipn. f_equal. lia.
  - rewrite string_length_of_list, length_firstn. lia.
Qed.

Lemma occurs_at_drop o v text :
  occurs_at o v text -> String.prefix v (Text.drop o text) = true.
Proof.
  intros (pre & post & -> & <-). induction pre as [|c pre IH]; simpl.
  - destruct (v ++ post)%string eqn:E; rewrite <- E; apply prefix_iff; eauto.
  - exact IH.
Qed.

(** Whatever the pattern, [findall] lists its values in document order. *)
Lemma findall_in_document_order r text :
  in_document_order text (Re.findall r text).
Proof.
  unfold Re.findall, Re.finditer.
  destruct (scan_spans r None (list_ascii_of_string text) 0 0)
    as (spans & F & S).
  exists (map fst spans). split.
  - clear S. apply Forall2_flip in F.
    induction F as [|[q v] [a b] l l' (A & B & C & D) F IH]; simpl;
      [constructor |].
    constructor; [|exact IH].
    simpl in *. rewrite D, !Nat.sub_0_r.
    rewrite <- (string_of_list_ascii_of_string text) at 2.
    now apply slice_occurs.
  - apply StronglySorted_Sorted.
    assert (Hab : Forall (fun ab : nat * nat => fst ab <= snd ab) spans).
    { revert F. apply Forall2_left. intros ab qv (_ & B & _). exact B. }
    clear F. induction S as [|[a b] l S IH G]; simpl; [constructor |].
    constructor.
    + apply IH. now inversion Hab.
    + inversion Hab as [|? ? Ha Hl]; subst. simpl in Ha.
      rewrite Forall_forall in *. intros o Ho. apply in_map_iff in Ho.
      destruct Ho as ([a' b'] & <- & Ho). specialize (G _ Ho).
      unfold precedes in G. simpl in *. lia.
Qed.

(** C6, as stated, fails: the passes run one type after the other, so an
    amount that stands before an address in the text is listed after it. *)
Lemma extract_entities_not_in_document_order :
  TextAnalyzer.extract_entities "$5 a@b.co" =
    [mkEntity "email" "a@b.co"; mkEntity "money" "$5"] /\
  ~ in_document_order "$5 a@b.co"
      (map evalue (TextAnalyzer.extract_entities "$5 a@b.co")).
Proof.
  split; [reflexivity |].
  change (map evalue (TextAnalyzer.extract_entities "$5 a@b.co"))
    with ["a@b.co"; "$5"]%string.
  intros (offs & F & S).
  inversion F as [|o1 v1 l1 l1' H1 F1]; subst.
  inversion F1 as [|o2 v2 l2 l2' H2 F2]; subst.
  inversion F2; subst.
  apply occurs_at_drop in H1, H2.
  assert (E2 : o2 = 0).
  { destruct o2 as [|o2]; [reflexivity | exfalso].
    do 9 (destruct o2 as [|o2]; [discriminate |]). discriminate. }
  assert (E1 : o1 = 3).
  { do 3 (destruct o1 as [|o1]; [discriminate |]).
    destruct o1 as [|o1]; [reflexivity | exfalso].
    do 6 (destruct o1 as [|o1]; [discriminate |]). discriminate. }
  subst. inversion S as [|? ? _ Hd]; subst. inversion Hd; subst. lia.
Qed.

(** C6, amended. The entities come grouped by type, in the fixed order
    email, phone, order id, money; within one type they are in document
    order, and equal values are all kept. *)
Theorem extract_entities_by_type (text : string) :
  let found := fun tag pattern => TextAnalyzer.entities_of tag pattern text in
  TextAnalyzer.extract_entities text =
    found "email" TextAnalyzer.email_pattern ++
    found "phone" TextAnalyzer.phone_pattern ++
    found "order_id" TextAnalyzer.order_pattern ++
    found "money" TextAnalyzer.money_pattern /\
  Forall (fun pass =>
            Forall (fun e => etype e = fst pass) (found (fst pass) (snd pass)) /\
            in_document_order text
              (map evalue (found (fst pass) (snd pass))))
         TextAnalyzer.entity_passes /\
  TextAnalyzer.extract_entities
    "contact me at john.doe@example.com or 555-123-4567, order #12345, charged $49.99" =
    [mkEntity "email" "john.doe@example.com";
     mkEntity "phone" "555-123-4567";
     mkEntity "order_id" "12345";
     mkEntity "money" "$49.99"] /\
  TextAnalyzer.extract_entities "ask a@b.co, again a@b.co" =
    [mkEntity "email" "a@b.co"; mkEntity "email" "a@b.co"].
Proof.
  intros found. split.
  { unfold TextAnalyzer.extract_entities, found. cbn [app].
    now rewrite <- !app_assoc. }
  split; [|split; reflexivity].
  assert (H : forall tag pattern,
             Forall (fun e => etype e = tag) (found tag pattern) /\
             in_document_order text (map evalue (found tag pattern))).
  { intros tag pattern. unfold found, TextAnalyzer.entities_of. split.
    - apply Forall_forall. intros e He. apply in_map_iff in He.
      destruct He as (v & <- & _). reflexivity.
    - rewrite map_map. simpl. rewrite map_id.
      apply findall_in_document_order. }
  unfold TextAnalyzer.entity_passes. repeat constructor; apply H.
Qed.

(** ** The retrying classifier *)

Lemma take_length n s :
  n <= String.length s -> String.length (Text.take n s) = n.
Proof.
  revert s. induction n as [|n IH]; intros [|c s] H; simpl in *;
    try reflexivity; try lia.
  rewrite IH; [reflexivity | lia].
Qed.

Lemma take_app_exact n a b :
  String.length a = n -> Text.take n (a ++ b) = a.
Proof.
  revert n. induction a as [|c a IH]; intros n H; simpl in *; subst.
  - now destruct b.
  - simpl. now rewrite IH.
Qed.

Lemma append_length a b :
  String.length (a ++ b) = String.length a + String.length b.
Proof. induction a as [|c a IH]; simpl; [reflexivity | now rewrite IH]. Qed.

(** Truncating what is already truncated changes nothing, so every retry
    sends the request of the first attempt. *)
Lemma truncate_idem n s :
  Enhanced.truncate n (Enhanced.truncate n s) = Enhanced.truncate n s.
Proof.
  unfold Enhanced.truncate.
  destruct (Nat.ltb_spec n (String.length s)) as [Hlt|Hge].
  - rewrite append_length, take_length by lia. simpl.
    replace (n <? n + 3) with true by (symmetry; apply Nat.ltb_lt; lia).
    rewrite take_app_exact; [reflexivity | apply take_length; lia].
  - destruct (Nat.ltb_spec n (String.length s)); [lia | reflexivity].
Qed.

Lemma request_for_truncated subject body :
  Enhanced.request_for
    (Enhanced.truncate Enhanced.max_subject_length subject)
    (Enhanced.truncate Enhanced.max_body_length body) =
  Enhanced.request_for subject body.
Proof. unfold Enhanced.request_for. now rewrite !truncate_idem. Qed.

(** The body of [classify_email], as the source has it. *)
Lemma classify_email_step client subject body retry_count w :
  Enhanced.classify_email client subject body retry_count w =
  let request := Enhanced.request_for subject body in
  match client (requests_made w) request with
  | CompletionContent content =>
      let category := Text.lower (Text.strip content) in
      if negb (Text.mem category Config.VALID_CATEGORIES)
      then (Config.DEFAULT_CATEGORY, w ++ [Request request])
      else (category, w ++ [Request request])
  | CompletionRaises =>
      if retry_count <? Config.MAX_RETRIES - 1
      then Enhanced.classify_email client
             (Enhanced.truncate Enhanced.max_subject_length subject)
             (Enhanced.truncate Enhanced.max_body_length body)
             (retry_count + 1)
             (w ++ [Request request; Sleep Config.RETRY_DELAY])
      else (Config.DEFAULT_CATEGORY, w ++ [Request request])
  end.
Proof.
  rewrite Enhanced.classify_email_equation_1. cbv zeta.
  destruct (client (requests_made w) (Enhanced.request_for subject body)).
  - rewrite Enhanced.classify_email_clause_1_equation_1.
    destruct (lt_dec retry_count (Config.MAX_RETRIES - 1)) as [Hlt|Hge].
    + rewrite Enhanced.classify_email_clause_1_clause_2_equation_1.
      replace (retry_count <? Config.MAX_RETRIES - 1) with true
        by (symmetry; now apply Nat.ltb_lt).
      reflexivity.
    + rewrite Enhanced.classify_email_clause_1_clause_2_equation_2.
      replace (retry_count <? Config.MAX_RETRIES - 1) with false
        by (symmetry; now apply Nat.ltb_ge, Nat.nlt_ge).
      reflexivity.
  - now rewrite Enhanced.classify_email_clause_1_equation_2.
Qed.

(** The truncated inputs of a retry classify like the original ones. *)
Lemma classify_email_truncated client subject body retry_count w :
  Enhanced.classify_email client
    (Enhanced.truncate Enhanced.max_subject_length subject)
    (Enhanced.truncate Enhanced.max_body_length body) retry_count w =
  Enhanced.classify_email client subject body retry_count w.
Proof.
  rewrite (classify_email_step client (Enhanced.truncate _ subject)).
  rewrite (classify_email_step client subject).
  now rewrite request_for_truncated, !truncate_idem.
Qed.

Lemma classify_email_unfold client subject body retry_count w :
  Enhanced.classify_email client subject body retry_count w =
  let request := Enhanced.request_for subject body in
  match client (requests_made w) request with
  | CompletionContent content =>
      let category := Text.lower (Text.strip content) in
      if negb (Text.mem category Config.VALID_CATEGORIES)
      then (Config.DEFAULT_CATEGORY, w ++ [Request request])
      else (category, w ++ [Request request])
  | CompletionRaises =>
      if retry_count <? Config.MAX_RETRIES - 1
      then Enhanced.classify_email client subject body (retry_count + 1)
             (w ++ [Request request; Sleep Config.RETRY_DELAY])
      else (Config.DEFAULT_CATEGORY, w ++ [Request request])
  end.
Proof.
  rewrite (classify_email_step client subject body retry_count w).
  cbv zeta. now rewrite classify_email_truncated.
Qed.

Lemma requests_made_app w w' :
  requests_made (w ++ w') = requests_made w + requests_made w'.
Proof. unfold requests_made. now rewrite filter_app, length_app. Qed.

Lemma default_category_valid :
  In Config.DEFAULT_CATEGORY Config.VALID_CATEGORIES.
Proof. simpl. auto. Qed.

(** From attempt [retry_count] on: the answer is a valid category, and
    what is added to the log holds at least one request and at most as
    many as there are attempts left. *)
Lemma classify_email_bounded client subject body :
  forall k retry_count w,
    Config.MAX_RETRIES - 1 - retry_count = k ->
    In (fst (Enhanced.classify_email client subject body retry_count w))
       Config.VALID_CATEGORIES /\
    exists added,
      snd (Enhanced.classify_email client subject body retry_count w) =
        w ++ added /\
      1 <= requests_made added <= k + 1.
Proof.
  induction k as [|k IH]; intros retry_count w Hk;
    rewrite classify_email_unfold; cbv zeta;
    destruct (client (requests_made w) (Enhanced.request_for subject body))
      as [|content] eqn:E.
  - replace (retry_count <? Config.MAX_RETRIES - 1) with false
      by (symmetry; apply Nat.ltb_ge; lia).
    split; [apply default_category_valid |].
    eexists. split; [reflexivity | cbn; lia].
  - destruct (Text.mem _ Config.VALID_CATEGORIES) eqn:M; cbn [negb fst snd].
    + split; [now apply mem_In |]. eexists. split; [reflexivity | cbn; lia].
    + split; [apply default_category_valid |].
      eexists. split; [reflexivity | cbn; lia].
  - replace (retry_count <? Config.MAX_RETRIES - 1) with true
      by (symmetry; apply Nat.ltb_lt; lia).
    destruct (IH (retry_count + 1)
                 (w ++ [Request (Enhanced.request_for subject body);
                        Sleep Config.RETRY_DELAY]))
      as (Hin & added & Hsnd & Hn); [lia |].
    split; [exact Hin |].
    eexists. split; [rewrite Hsnd, <- app_assoc; reflexivity |].
    rewrite requests_made_app. cbn. lia.
  - destruct (Text.mem _ Config.VALID_CATEGORIES) eqn:M; cbn [negb fst snd].
    + split; [now apply mem_In |]. eexists. split; [reflexivity | cbn; lia].
    + split; [apply default_category_valid |].
      eexists. split; [reflexivity | cbn; lia].
Qed.

(** C3. When the first two attempts fail and the third answers with a
    recognized category, [classify_email] returns that category after
    exactly three requests (with the retry delay between them); and in no
    case does one call make more than three requests. *)
Theorem classify_email_third_attempt :
  (forall client subject body w content,
     let request := Enhanced.request_for subject body in
     let n := requests_made w in
     client n request = CompletionRaises ->
     client (n + 1) request = CompletionRaises ->
     client (n + 2) request = CompletionContent content ->
     Text.mem (Text.lower (Text.strip content)) Config.VALID_CATEGORIES =
       true ->
     Enhanced.classify_email client subject body 0 w =
       (Text.lower (Text.strip content),
        w ++ [Request request; Sleep Config.RETRY_DELAY;
              Request request; Sleep Config.RETRY_DELAY;
              Request request]) /\
     requests_made (snd (Enhanced.classify_email client subject body 0 w)) =
       n + 3) /\
  (forall client subject body w,
     requests_made (snd (Enhanced.classify_email client subject body 0 w))
     <= requests_made w + 3).
Proof.
  split.
  - intros client subject body w content request n H1 H2 H3 Hvalid.
    assert (E : Enhanced.classify_email client subject body 0 w =
                (Text.lower (Text.strip content),
                 w ++ [Request request; Sleep Config.RETRY_DELAY;
                       Request request; Sleep Config.RETRY_DELAY;
                       Request request])).
    { rewrite classify_email_unfold. cbv zeta. fold request n. rewrite H1.
      cbn [Nat.ltb Nat.leb Config.MAX_RETRIES Nat.sub Nat.add].
      rewrite classify_email_unfold. cbv zeta. fold request.
      rewrite requests_made_app.
      change (requests_made [Request request; Sleep Config.RETRY_DELAY])
        with 1.
      fold n. rewrite H2.
      cbn [Nat.ltb Nat.leb Config.MAX_RETRIES Nat.sub Nat.add].
      rewrite classify_email_unfold. cbv zeta. fold request.
      rewrite !requests_made_app.
      change (requests_made [Request request; Sleep Config.RETRY_DELAY])
        with 1.
      fold n. replace (n + 1 + 1) with (n + 2) by lia. rewrite H3, Hvalid.
      cbn [negb]. now rewrite <- !app_assoc. }
    split; [exact E |].
    rewrite E. cbn [snd]. rewrite requests_made_app. reflexivity.
  - intros client subject body w.
    destruct (classify_email_bounded client subject body 2 0 w eq_refl)
      as (_ & added & -> & Hn).
    rewrite requests_made_app. lia.
Qed.

Lemma classify_email_third_attempt_witness :
  Enhanced.classify_email Samples.flaky_client "Where is my parcel?"
    "It was due on Monday." 0 [] =
  ("order",
   [Request (Enhanced.request_for "Where is my parcel?" "It was due on Monday.");
    Sleep Config.RETRY_DELAY;
    Request (Enhanced.request_for "Where is my parcel?" "It was due on Monday.");
    Sleep Config.RETRY_DELAY;
    Request (Enhanced.request_for "Where is my parcel?" "It was due on Monday.")]).
Proof.
  apply (proj1 (proj1 classify_email_third_attempt Samples.flaky_client
                  "Where is my parcel?" "It was due on Monday." [] " Order "
                  eq_refl eq_refl eq_refl eq_refl)).
Defined.

(** C1, as stated, fails on [EmailProcessor.classify_email]: a category
    outside the enum is not replaced, the call raises. *)
Lemma processor_raises_on_unknown_category :
  fst (EmailProcessor.classify_email Samples.spam_json_client
         Samples.json_loads Samples.an_email []) =
  Raise (ValidationError "category").
Proof. reflexivity. Qed.

(** C1, amended. [enhanced_email_classifier.classify_email] always returns
    one of its valid categories and answers an unrecognized word of the
    service with the default category, after that one request.
    [EmailProcessor.classify_email] has no default: when it returns, its
    category is the enum member the service named, and when the service
    names no member of the enum it raises. *)
Theorem classify_category_in_enum :
  (forall client subject body w,
     In (fst (Enhanced.classify_email client subject body 0 w))
        Config.VALID_CATEGORIES) /\
  (forall client subject body w content,
     client (requests_made w) (Enhanced.request_for subject body) =
       CompletionContent content ->
     Text.mem (Text.lower (Text.strip content)) Config.VALID_CATEGORIES =
       false ->
     Enhanced.classify_email client subject body 0 w =
       (Config.DEFAULT_CATEGORY,
        w ++ [Request (Enhanced.request_for subject body)])) /\
  (forall client json_loads email w c,
     fst (EmailProcessor.classify_email client json_loads email w) = Ok c ->
     exists reply ai,
       client (requests_made w)
         (LLMClient.classification_request
            (EmailProcessor.email_content email)) = CompletionContent reply /\
       json_loads reply = Some ai /\
       ai_category ai = Some (category_value (category c))) /\
  (forall client json_loads email w reply ai s,
     client (requests_made w)
       (LLMClient.classification_request
          (EmailProcessor.email_content email)) = CompletionContent reply ->
     json_loads reply = Some ai ->
     ai_category ai = Some s ->
     category_of_string s = None ->
     exists e,
       fst (EmailProcessor.classify_email client json_loads email w) =
       Raise e).
Proof.
  split; [| split; [| split]].
  - intros client subject body w.
    apply (classify_email_bounded client subject body 2 0 w eq_refl).
  - intros client subject body w content H M.
    rewrite classify_email_unfold. cbv zeta. now rewrite H, M.
  - intros client json_loads email w c.
    unfold EmailProcessor.classify_email, LLMClient.classify_email.
    cbv zeta.
    destruct (client _ _) as [|reply]; [discriminate |].
    destruct (json_loads reply) as [ai|] eqn:J; [|discriminate].
    cbn [fst]. unfold EmailProcessor.build_classification.
    destruct (ai_category ai) as [s|] eqn:Hs; [|discriminate].
    destruct (ai_confidence ai) as [q|]; [|discriminate].
    destruct (category_of_string s) as [cat|] eqn:Hc; [|discriminate].
    destruct (EmailProcessor.optional_str _) as [sub|]; [|discriminate].
    destruct (_ && _); [|discriminate].
    intros H. injection H as <-. exists reply, ai.
    repeat split; auto. cbn [category]. rewrite Hs. f_equal.
    unfold category_of_string in Hc. apply find_some in Hc.
    destruct Hc as [_ Hc]. now apply String.eqb_eq in Hc.
  - intros client json_loads email w reply ai s H J Hs Hc.
    unfold EmailProcessor.classify_email, LLMClient.classify_email.
    cbv zeta. rewrite H, J. cbn [fst].
    unfold EmailProcessor.build_classification. rewrite Hs.
    destruct (ai_confidence ai); [rewrite Hc |]; eauto.
Qed.

Lemma classify_category_in_enum_witness :
  Enhanced.classify_email Samples.spam_client "Hello" "You have won a prize"
    0 [] =
    ("other", [Request (Enhanced.request_for "Hello" "You have won a prize")]) /\
  exists e,
    fst (EmailProcessor.classify_email Samples.spam_json_client
           Samples.json_loads Samples.an_email []) = Raise e.
Proof.
  split.
  - apply (proj1 (proj2 classify_category_in_enum) Samples.spam_client
             "Hello" "You have won a prize" [] "spam" eq_refl eq_refl).
  - apply (proj2 (proj2 (proj2 classify_category_in_enum))
             Samples.spam_json_client Samples.json_loads Samples.an_email []
             Samples.spam_reply
             (mkAi (Some "spam") None (Some (9 # 10))) "spam"
             eq_refl eq_refl eq_refl eq_refl).
Defined.

(** C2, as stated, fails on [LLMClient.classify_email] and so on
    [EmailProcessor.classify_email]: the one request that fails is not
    tried again, and its failure is raised to the caller. *)
Lemma processor_raises_when_service_fails :
  EmailProcessor.classify_email Samples.failing_client Samples.json_loads
    Samples.an_email [] =
  (Raise APIError,
   [Request (LLMClient.classification_request
               (EmailProcessor.email_content Samples.an_email))]).
Proof. reflexivity. Qed.

(** C2, amended. When all three attempts of
    [enhanced_email_classifier.classify_email] fail, it returns the default
    category, having made three requests with the retry delay between
    them.  [LLMClient.classify_email] makes one request; when that fails
    the failure is raised, also out of [EmailProcessor.classify_email]. *)
Theorem classify_when_service_fails :
  (forall client subject body w,
     let request := Enhanced.request_for subject body in
     let n := requests_made w in
     client n request = CompletionRaises ->
     client (n + 1) request = CompletionRaises ->
     client (n + 2) request = CompletionRaises ->
     Enhanced.classify_email client subject body 0 w =
       (Config.DEFAULT_CATEGORY,
        w ++ [Request request; Sleep Config.RETRY_DELAY;
              Request request; Sleep Config.RETRY_DELAY;
              Request request])) /\
  Config.MAX_RETRIES = 3 /\ (Config.RETRY_DELAY == 1)%Q /\
  (forall client json_loads content w,
     client (requests_made w) (LLMClient.classification_request content) =
       CompletionRaises ->
     LLMClient.classify_email client json_loads content w =
       (Raise APIError,
        w ++ [Request (LLMClient.classification_request content)])) /\
  (forall client json_loads email w,
     client (requests_made w)
       (LLMClient.classification_request
          (EmailProcessor.email_content email)) = CompletionRaises ->
     EmailProcessor.classify_email client json_loads email w =
       (Raise APIError,
        w ++ [Request (LLMClient.classification_request
                         (EmailProcessor.email_content email))])).
Proof.
  split; [| split; [reflexivity | split; [reflexivity | split]]].
  - intros client subject body w request n H1 H2 H3.
    rewrite classify_email_unfold. cbv zeta. fold request n. rewrite H1.
    cbn [Nat.ltb Nat.leb Config.MAX_RETRIES Nat.sub Nat.add].
    rewrite classify_email_unfold. cbv zeta. fold request.
    rewrite requests_made_app.
    change (requests_made [Request request; Sleep Config.RETRY_DELAY]) with 1.
    fold n. rewrite H2.
    cbn [Nat.ltb Nat.leb Config.MAX_RETRIES Nat.sub Nat.add].
    rewrite classify_email_unfold. cbv zeta. fold request.
    rewrite !requests_made_app.
    change (requests_made [Request request; Sleep Config.RETRY_DELAY]) with 1.
    fold n. replace (n + 1 + 1) with (n + 2) by lia. rewrite H3.
    cbn [Nat.ltb Nat.leb Config.MAX_RETRIES Nat.sub Nat.add].
    now rewrite <- !app_assoc.
  - intros client json_loads content w H.
    unfold LLMClient.classify_email. cbv zeta. now rewrite H.
  - intros client json_loads email w H.
    unfold EmailProcessor.classify_email, LLMClient.classify_email.
    cbv zeta. now rewrite H.
Qed.

Lemma classify_when_service_fails_witness :
  Enhanced.classify_email Samples.failing_client "Hello" "Anyone there?" 0 [] =
    ("other",
     [Request (Enhanced.request_for "Hello" "Anyone there?");
      Sleep Config.RETRY_DELAY;
      Request (Enhanced.request_for "Hello" "Anyone there?");
      Sleep Config.RETRY_DELAY;
      Request (Enhanced.request_for "Hello" "Anyone there?")]) /\
  LLMClient.classify_email Samples.failing_client Samples.json_loads
    "Hello" [] =
    (Raise APIError, [Request (LLMClient.classification_request "Hello")]) /\
  EmailProcessor.classify_email Samples.failing_client Samples.json_loads
    Samples.an_email [] =
    (Raise APIError,
     [Request (LLMClient.classification_request
                 (EmailProcessor.email_content Samples.an_email))]).
Proof.
  split; [| split].
  - apply (proj1 classify_when_service_fails Samples.failing_client
             "Hello" "Anyone there?" [] eq_refl eq_refl eq_refl).
  - apply (proj1 (proj2 (proj2 (proj2 classify_when_service_fails)))
             Samples.failing_client Samples.json_loads "Hello" [] eq_refl).
  - apply (proj2 (proj2 (proj2 (proj2 classify_when_service_fails)))
             Samples.failing_client Samples.json_loads Samples.an_email []
             eq_refl).
Defined.

(** ** The similarity index *)

Section Collect.

Import SemanticSearchEngine.

Variable keep : Hit -> bool.
Variable mk : Hit -> Result SearchResult.

Lemma for_each_collect hits acc :
  for_each hits acc
    (fun search_results hit =>
       if keep hit then
         search_result <- lift (mk hit) ;;
         ret (search_results ++ [search_result])
       else ret search_results) =
  ([], collect keep mk hits acc).
Proof.
  revert acc. induction hits as [|h hs IH]; intros acc; simpl; [reflexivity |].
  destruct (keep h); simpl.
  - destruct (mk h) as [sr|e]; simpl; [|reflexivity]. now rewrite IH.
  - now rewrite IH.
Qed.

Lemma collect_ok hits acc out :
  collect keep mk hits acc = Ok out ->
  exists rs, out = acc ++ rs /\
             Forall2 (fun h sr => mk h = Ok sr) (filter keep hits) rs.
Proof.
  revert acc. induction hits as [|h hs IH]; intros acc H; simpl in *.
  - injection H as <-. exists []. split; [now rewrite app_nil_r | constructor].
  - destruct (keep h).
    + destruct (mk h) as [sr|e] eqn:E; [|discriminate].
      apply IH in H. destruct H as (rs & -> & F).
      exists (sr :: rs). split; [now rewrite <- app_assoc | now constructor].
    + now apply IH.
Qed.

End Collect.

Lemma make_result_ok svc id md snip score sr :
  SemanticSearchEngine.make_result svc id md snip score = Ok sr ->
  SemanticSearchEngine.email_id sr = id /\
  SemanticSearchEngine.similarity_score sr = score.
Proof.
  unfold SemanticSearchEngine.make_result.
  destruct (category_of_string _); [|discriminate].
  destruct (negb _); [discriminate |].
  destruct (negb _); [discriminate |].
  intros H. injection H as <-. split; reflexivity.
Qed.

Lemma score_of_distance_antitone d1 d2 :
  (d1 <= d2)%Q ->
  (SemanticSearchEngine.score_of_distance d2 <=
   SemanticSearchEngine.score_of_distance d1)%Q.
Proof.
  intros H. unfold SemanticSearchEngine.score_of_distance.
  apply Q.max_le_compat_l. unfold Qminus.
  apply Qplus_le_r. now apply Qopp_le_compat.
Qed.

Lemma StronglySorted_Forall2 {A B} (R : A -> A -> Prop) (R' : B -> B -> Prop)
    (P : A -> B -> Prop) l l' :
  (forall a b a' b', R a b -> P a a' -> P b b' -> R' a' b') ->
  Forall2 P l l' -> StronglySorted R l -> StronglySorted R' l'.
Proof.
  intros H F. induction F as [|a a' l l' Pa F IH]; intros S; [constructor |].
  inversion S as [|? ? S' Fa]; subst. constructor; [now apply IH |].
  clear IH S S'. induction F as [|b b' l l' Pb F IH]; constructor.
  - inversion Fa; subst. eapply H; eauto.
  - apply IH. now inversion Fa.
Qed.

Lemma Forall2_right {A B} (P : A -> B -> Prop) (Q : B -> Prop) l l' :
  (forall x y, In x l -> P x y -> Q y) -> Forall2 P l l' -> Forall Q l'.
Proof.
  intros H F. induction F; constructor.
  - eapply H; [now left | eassumption].
  - apply IHF. intros x0 y0 Hin. apply H. now right.
Qed.

(** The results built from neighbours that come nearest first. *)
Lemma results_of_hits keep mk hits rs :
  (forall h sr, mk h = Ok sr ->
     SemanticSearchEngine.email_id sr = SemanticSearchEngine.hit_id h /\
     SemanticSearchEngine.similarity_score sr =
       SemanticSearchEngine.score_of_distance
         (SemanticSearchEngine.hit_distance h)) ->
  Forall2 (fun h sr => mk h = Ok sr) (filter keep hits) rs ->
  Forall (fun sr => exists h,
            In h hits /\ keep h = true /\
            SemanticSearchEngine.email_id sr = SemanticSearchEngine.hit_id h /\
            SemanticSearchEngine.similarity_score sr =
              Qmax 0 (1 - SemanticSearchEngine.hit_distance h)) rs /\
  (StronglySorted SemanticSearchEngine.by_distance_asc hits ->
   StronglySorted SemanticSearchEngine.by_score_desc rs) /\
  List.length rs <= List.length hits.
Proof.
  intros Hmk F. split; [| split].
  - revert F. apply Forall2_right. intros h sr Hin E.
    apply filter_In in Hin. destruct Hin as [Hin Hk].
    destruct (Hmk _ _ E) as [E1 E2]. exists h. auto.
  - intros S. apply (StronglySorted_filter _ keep) in S.
    revert F S. apply StronglySorted_Forall2.
    intros a b a' b' Hab Ea Eb.
    destruct (Hmk _ _ Ea) as [_ Sa], (Hmk _ _ Eb) as [_ Sb].
    unfold SemanticSearchEngine.by_score_desc. rewrite Sa, Sb.
    now apply score_of_distance_antitone.
  - rewrite <- (Forall2_length F). apply filter_length_le.
Qed.

(** [find_similar], call by call. *)
Lemma find_similar_cases svc id lim :
  match SemanticSearchEngine.collection_get svc id with
  | Ok (Some e) =>
      match SemanticSearchEngine.collection_query svc e (lim + 1) None with
      | Ok hits =>
          SemanticSearchEngine.find_similar svc id lim =
          ([SemanticSearchEngine.CollectionGet id;
            SemanticSearchEngine.CollectionQuery e (lim + 1) None],
           Ok (match collect (other_than id) (similar_result svc) hits [] with
               | Ok rs => firstn lim rs
               | Raise _ => []
               end))
      | Raise _ =>
          SemanticSearchEngine.find_similar svc id lim =
          ([SemanticSearchEngine.CollectionGet id;
            SemanticSearchEngine.CollectionQuery e (lim + 1) None], Ok [])
      end
  | _ =>
      SemanticSearchEngine.find_similar svc id lim =
      ([SemanticSearchEngine.CollectionGet id], Ok [])
  end.
Proof.
  unfold SemanticSearchEngine.find_similar, SemanticSearchEngine.get,
    SemanticSearchEngine.query_collection.
  destruct (SemanticSearchEngine.collection_get svc id) as [[e|]|err];
    try reflexivity.
  cbn [SemanticSearchEngine.bind SemanticSearchEngine.try_except].
  destruct (SemanticSearchEngine.collection_query svc e (lim + 1) None)
    as [hits|err]; [|reflexivity].
  pose proof (for_each_collect (other_than id) (similar_result svc) hits [])
    as H.
  unfold other_than, similar_result in H. unfold other_than, similar_result.
  cbv zeta. rewrite H.
  destruct (collect _ _ hits []); reflexivity.
Qed.

(** [search], call by call. *)
Lemma search_cases svc q :
  let text := SemanticSearchEngine.query q in
  let where_ := option_map category_value
                  (SemanticSearchEngine.category_filter q) in
  match SemanticSearchEngine.embeddings_create svc text with
  | Raise err =>
      SemanticSearchEngine.search svc q =
      ([SemanticSearchEngine.EmbeddingsCreate text], Raise err)
  | Ok e =>
      let calls :=
        [SemanticSearchEngine.EmbeddingsCreate text;
         SemanticSearchEngine.CollectionQuery e
           (SemanticSearchEngine.limit q) where_] in
      match SemanticSearchEngine.collection_query svc e
              (SemanticSearchEngine.limit q) where_ with
      | Raise err => SemanticSearchEngine.search svc q = (calls, Raise err)
      | Ok hits =>
          SemanticSearchEngine.search svc q =
          (calls,
           match collect (fun _ => true) (search_result svc q) hits [] with
           | Ok rs => Ok (rs, List.length rs)
           | Raise err => Raise err
           end)
      end
  end.
Proof.
  cbv zeta.
  unfold SemanticSearchEngine.search, SemanticSearchEngine._get_embedding,
    SemanticSearchEngine.query_collection, SemanticSearchEngine.reraise,
    SemanticSearchEngine.lift.
  destruct (SemanticSearchEngine.embeddings_create svc _) as [e|err];
    [|reflexivity].
  cbn [SemanticSearchEngine.bind SemanticSearchEngine.try_except app].
  destruct (SemanticSearchEngine.collection_query svc e _ _) as [hits|err];
    [|reflexivity].
  cbv zeta.
  pose proof (for_each_collect (fun _ => true) (search_result svc q) hits [])
    as H.
  unfold search_result in H. cbv beta iota in H.
  destruct hits as [|h hs]; [reflexivity |].
  cbv zeta. unfold SemanticSearchEngine.lift in H.
  cbn [SemanticSearchEngine.bind SemanticSearchEngine.try_except app] in H.
  rewrite H. unfold search_result.
  destruct (collect _ _ (h :: hs) []); reflexivity.
Qed.

Lemma similar_result_ok svc h sr :
  similar_result svc h = Ok sr ->
  SemanticSearchEngine.email_id sr = SemanticSearchEngine.hit_id h /\
  SemanticSearchEngine.similarity_score sr =
    SemanticSearchEngine.score_of_distance (SemanticSearchEngine.hit_distance h).
Proof. apply make_result_ok. Qed.

Lemma search_result_ok svc q h sr :
  search_result svc q h = Ok sr ->
  SemanticSearchEngine.email_id sr = SemanticSearchEngine.hit_id h /\
  SemanticSearchEngine.similarity_score sr =
    SemanticSearchEngine.score_of_distance (SemanticSearchEngine.hit_distance h).
Proof. apply make_result_ok. Qed.

Lemma Forall_firstn {A} (P : A -> Prop) n l :
  Forall P l -> Forall P (firstn n l).
Proof.
  rewrite !Forall_forall. intros H x Hx. apply H. eapply In_firstn, Hx.
Qed.

Lemma category_of_value cat : category_of_string (category_value cat) = Some cat.
Proof. destruct cat; reflexivity. Qed.

(** A presentable neighbour is turned into a result, whatever the snippet. *)
Lemma make_result_total svc h snip :
  presentable svc h ->
  exists sr,
    SemanticSearchEngine.make_result svc (SemanticSearchEngine.hit_id h)
      (SemanticSearchEngine.hit_metadata h) snip
      (SemanticSearchEngine.score_of_distance
         (SemanticSearchEngine.hit_distance h)) = Ok sr.
Proof.
  intros ((cat & Hc) & Hd & Ht). unfold SemanticSearchEngine.make_result.
  rewrite Hc, category_of_value. cbv zeta.
  assert (H0 : Qle_bool 0 (SemanticSearchEngine.score_of_distance
                             (SemanticSearchEngine.hit_distance h)) = true).
  { apply Qle_bool_iff. apply Q.le_max_l. }
  assert (H1 : Qle_bool (SemanticSearchEngine.score_of_distance
                           (SemanticSearchEngine.hit_distance h)) 1 = true).
  { apply Qle_bool_iff. apply Q.max_lub; [discriminate |].
    rewrite <- (Qplus_0_r 1) at 2. unfold Qminus.
    apply Qplus_le_r. apply (Qopp_le_compat 0). exact Hd. }
  rewrite H0, H1, Ht. cbn [andb negb]. eauto.
Qed.

(** When every neighbour can be turned into a result, the loop returns. *)
Lemma collect_total keep mk hits acc :
  (forall h, In h hits -> exists sr, mk h = Ok sr) ->
  exists rs,
    collect keep mk hits acc = Ok (acc ++ rs) /\
    Forall2 (fun h sr => mk h = Ok sr) (filter keep hits) rs.
Proof.
  revert acc. induction hits as [|h hs IH]; intros acc Hall.
  - exists []. split; [simpl; now rewrite app_nil_r | constructor].
  - cbn [collect filter].
    destruct (IH acc) as (rs0 & E0 & F0); [intros x Hx; apply Hall; now right |].
    destruct (keep h).
    + destruct (Hall h (or_introl eq_refl)) as (sr & E). rewrite E.
      destruct (IH (acc ++ [sr])) as (rs & Ers & F);
        [intros x Hx; apply Hall; now right |].
      exists (sr :: rs). split; [now rewrite Ers, <- app_assoc |].
      now constructor.
    + exists rs0. auto.
Qed.

Lemma Forall2_take {A B} (P : A -> B -> Prop) n l l' :
  Forall2 P l l' -> Forall2 P (firstn n l) (firstn n l').
Proof.
  intros F. revert n. induction F as [|a b l l' Hab F IH]; intros [|n];
    simpl; constructor; auto.
Qed.

Ltac empty_results :=
  repeat match goal with
         | |- _ /\ _ => split
         | |- Forall _ [] => constructor
         | |- StronglySorted _ [] => constructor
         | |- List.length [] <= _ => simpl; lia
         end.

(** C7. With an index that answers a query nearest first:
    [find_similar id limit] asks for [limit + 1] neighbours, leaves [id]
    out, returns at most [limit] results; its results and those of
    [search] are in descending order of score, and every score is
    [max(0, 1 - d)] for the distance [d] of its neighbour. *)
Theorem similar_and_search_ranked (svc : SemanticSearchEngine.Services) :
  SemanticSearchEngine.nearest_first svc ->
  (forall id lim,
     (forall e,
        SemanticSearchEngine.collection_get svc id = Ok (Some e) ->
        fst (SemanticSearchEngine.find_similar svc id lim) =
        [SemanticSearchEngine.CollectionGet id;
         SemanticSearchEngine.CollectionQuery e (lim + 1) None]) /\
     exists results,
       snd (SemanticSearchEngine.find_similar svc id lim) = Ok results /\
       Forall (fun r => SemanticSearchEngine.email_id r <> id) results /\
       List.length results <= lim /\
       StronglySorted SemanticSearchEngine.by_score_desc results /\
       Forall (fun r => exists e hits hit,
                 SemanticSearchEngine.collection_get svc id = Ok (Some e) /\
                 SemanticSearchEngine.collection_query svc e (lim + 1) None =
                   Ok hits /\
                 In hit hits /\
                 SemanticSearchEngine.email_id r =
                   SemanticSearchEngine.hit_id hit /\
                 SemanticSearchEngine.similarity_score r =
                   Qmax 0 (1 - SemanticSearchEngine.hit_distance hit))
              results) /\
  (forall q results total,
     snd (SemanticSearchEngine.search svc q) = Ok (results, total) ->
     StronglySorted SemanticSearchEngine.by_score_desc results /\
     total = List.length results /\
     exists e hits,
       SemanticSearchEngine.embeddings_create svc
         (SemanticSearchEngine.query q) = Ok e /\
       SemanticSearchEngine.collection_query svc e
         (SemanticSearchEngine.limit q)
         (option_map category_value
            (SemanticSearchEngine.category_filter q)) = Ok hits /\
       Forall2 (fun hit r =>
                  SemanticSearchEngine.email_id r =
                    SemanticSearchEngine.hit_id hit /\
                  SemanticSearchEngine.similarity_score r =
                    Qmax 0 (1 - SemanticSearchEngine.hit_distance hit))
               hits results) /\
  (forall id lim e hits,
     SemanticSearchEngine.collection_get svc id = Ok (Some e) ->
     SemanticSearchEngine.collection_query svc e (lim + 1) None = Ok hits ->
     Forall (presentable svc) hits ->
     exists results,
       SemanticSearchEngine.find_similar svc id lim =
         ([SemanticSearchEngine.CollectionGet id;
           SemanticSearchEngine.CollectionQuery e (lim + 1) None],
          Ok results) /\
       Forall2 stands_for
         (firstn lim
            (filter (fun hit =>
                       negb (String.eqb (SemanticSearchEngine.hit_id hit) id))
                    hits))
         results /\
       StronglySorted SemanticSearchEngine.by_score_desc results) /\
  (forall q e hits,
     SemanticSearchEngine.embeddings_create svc
       (SemanticSearchEngine.query q) = Ok e ->
     SemanticSearchEngine.collection_query svc e
       (SemanticSearchEngine.limit q)
       (option_map category_value
          (SemanticSearchEngine.category_filter q)) = Ok hits ->
     Forall (presentable svc) hits ->
     exists results,
       SemanticSearchEngine.search svc q =
         ([SemanticSearchEngine.EmbeddingsCreate
             (SemanticSearchEngine.query q);
           SemanticSearchEngine.CollectionQuery e
             (SemanticSearchEngine.limit q)
             (option_map category_value
                (SemanticSearchEngine.category_filter q))],
          Ok (results, List.length hits)) /\
       Forall2 stands_for hits results /\
       StronglySorted SemanticSearchEngine.by_score_desc results).
Proof.
  intros Hnear. split; [| split; [| split]].
  - intros id lim. pose proof (find_similar_cases svc id lim) as H.
    destruct (SemanticSearchEngine.collection_get svc id) as [[e|]|err] eqn:G.
    + destruct (SemanticSearchEngine.collection_query svc e (lim + 1) None)
        as [hits|err] eqn:Q; rewrite H; cbn [fst snd].
      * split; [intros e' E'; now injection E' as <- |].
        eexists. split; [reflexivity |].
        destruct (collect (other_than id) (similar_result svc) hits [])
          as [rs|err] eqn:C; [|empty_results].
        apply collect_ok in C. destruct C as (rs' & -> & F). cbn [app].
        destruct (results_of_hits (other_than id) (similar_result svc) hits rs'
                    (similar_result_ok svc) F) as (Hall & Hsort & _).
        split; [| split; [| split]].
        -- apply Forall_firstn. revert Hall. apply Forall_impl.
           intros r (h & _ & Hk & Hid & _) Heq. unfold other_than in Hk.
           rewrite <- Hid, Heq, String.eqb_refl in Hk. discriminate.
        -- apply firstn_le_length.
        -- apply StronglySorted_firstn, Hsort. eapply Hnear, Q.
        -- apply Forall_firstn. revert Hall. apply Forall_impl.
           intros r (h & Hin & _ & Hid & Hsc). exists e, hits, h. auto.
      * split; [intros e' E'; now injection E' as <- |].
        exists []. split; [reflexivity | empty_results].
    + rewrite H. cbn [fst snd]. split; [discriminate |].
      exists []. split; [reflexivity | empty_results].
    + rewrite H. cbn [fst snd]. split; [discriminate |].
      exists []. split; [reflexivity | empty_results].
  - intros q results total. pose proof (search_cases svc q) as H.
    cbv zeta in H.
    destruct (SemanticSearchEngine.embeddings_create svc _) as [e|err] eqn:E;
      [|rewrite H; discriminate].
    destruct (SemanticSearchEngine.collection_query svc e _ _)
      as [hits|err] eqn:Q; rewrite H; cbn [snd]; [|discriminate].
    destruct (collect _ _ hits []) as [rs|err] eqn:C; [|discriminate].
    intros R. injection R as <- <-.
    apply collect_ok in C. destruct C as (rs' & -> & F). cbn [app].
    rewrite filter_true in F.
    destruct (results_of_hits (fun _ => true) (search_result svc q) hits rs'
                (search_result_ok svc q)) as (_ & Hsort & _).
    { now rewrite filter_true. }
    split; [eapply Hsort, Hnear, Q |]. split; [reflexivity |].
    exists e, hits. split; [reflexivity |]. split; [exact Q |].
    revert F. apply Forall2_weaken.
    intros h r Hr. now apply search_result_ok in Hr.
  - intros id lim e hits G Q Hok.
    pose proof (find_similar_cases svc id lim) as H. rewrite G, Q in H.
    destruct (collect_total (other_than id) (similar_result svc) hits [])
      as (rs & C & F).
    { intros h Hin. apply make_result_total.
      rewrite Forall_forall in Hok. now apply Hok. }
    rewrite C in H. cbn [app] in H.
    exists (firstn lim rs). split; [exact H |].
    destruct (results_of_hits (other_than id) (similar_result svc) hits rs
                (similar_result_ok svc) F) as (_ & Hsort & _).
    split.
    + apply Forall2_take. revert F. apply Forall2_weaken.
      intros h r Hr. now apply similar_result_ok in Hr.
    + apply StronglySorted_firstn, Hsort. eapply Hnear, Q.
  - intros q e hits E Q Hok.
    pose proof (search_cases svc q) as H. cbv zeta in H. rewrite E, Q in H.
    destruct (collect_total (fun _ => true) (search_result svc q) hits [])
      as (rs & C & F).
    { intros h Hin. apply make_result_total.
      rewrite Forall_forall in Hok. now apply Hok. }
    rewrite C in H. cbn [app] in H.
    rewrite filter_true in F.
    assert (Hlen : List.length rs = List.length hits)
      by (symmetry; eapply Forall2_length; eauto).
    rewrite Hlen in H.
    exists rs. split; [exact H |].
    destruct (results_of_hits (fun _ => true) (search_result svc q) hits rs
                (search_result_ok svc q)) as (_ & Hsort & _).
    { now rewrite filter_true. }
    split.
    + revert F. apply Forall2_weaken.
      intros h r Hr. now apply search_result_ok in Hr.
    + eapply Hsort, Hnear, Q.
Qed.

Lemma sample_index_nearest_first :
  SemanticSearchEngine.nearest_first Samples.index.
Proof.
  intros e n w hits H. simpl in H. injection H as <-.
  apply StronglySorted_firstn. unfold Samples.stored.
  repeat constructor; unfold SemanticSearchEngine.by_distance_asc, Qle;
    simpl; lia.
Qed.

Lemma sample_index_presentable n :
  Forall (presentable Samples.index) (firstn n Samples.stored).
Proof.
  apply Forall_firstn. unfold Samples.stored.
  repeat constructor; simpl;
    try (now exists ORDER); try (now exists BILLING);
    unfold Qle; simpl; lia.
Qed.

Lemma similar_and_search_ranked_witness :
  SemanticSearchEngine.nearest_first Samples.index /\
  fst (SemanticSearchEngine.find_similar Samples.index "a" 1) =
    [SemanticSearchEngine.CollectionGet "a";
     SemanticSearchEngine.CollectionQuery [1; 0]%Q 2 None] /\
  (exists results,
     snd (SemanticSearchEngine.find_similar Samples.index "a" 1) = Ok results /\
     Forall (fun r => SemanticSearchEngine.email_id r <> "a"%string) results /\
     List.length results <= 1 /\
     StronglySorted SemanticSearchEngine.by_score_desc results /\
     Forall (fun r => exists e hits hit,
               SemanticSearchEngine.collection_get Samples.index "a" =
                 Ok (Some e) /\
               SemanticSearchEngine.collection_query Samples.index e (1 + 1)
                 None = Ok hits /\
               In hit hits /\
               SemanticSearchEngine.email_id r =
                 SemanticSearchEngine.hit_id hit /\
               SemanticSearchEngine.similarity_score r =
                 Qmax 0 (1 - SemanticSearchEngine.hit_distance hit))
            results) /\
  snd (SemanticSearchEngine.find_similar Samples.index "a" 1) =
    Ok [SemanticSearchEngine.mkSearchResult "b" "Late parcel"
          "My parcel is late" (Qmax 0 (1 - (1 # 10))) ORDER
          "2024-01-01T10:00:00"] /\
  (exists results,
     SemanticSearchEngine.find_similar Samples.index "a" 2 =
       ([SemanticSearchEngine.CollectionGet "a";
         SemanticSearchEngine.CollectionQuery [1; 0]%Q 3 None], Ok results) /\
     Forall2 stands_for
       [SemanticSearchEngine.mkHit "b" (Samples.meta "order")
          "My parcel is late" (1 # 10);
        SemanticSearchEngine.mkHit "c" (Samples.meta "billing")
          "Refund please" (3 # 2)]
       results /\
     StronglySorted SemanticSearchEngine.by_score_desc results) /\
  (exists results,
     SemanticSearchEngine.search Samples.index
       (SemanticSearchEngine.mkSearchQuery "parcel" 3 None None None) =
       ([SemanticSearchEngine.EmbeddingsCreate "parcel";
         SemanticSearchEngine.CollectionQuery [1; 0]%Q 3 None],
        Ok (results, 3)) /\
     Forall2 stands_for Samples.stored results /\
     StronglySorted SemanticSearchEngine.by_score_desc results).
Proof.
  split; [exact sample_index_nearest_first |].
  split; [| split; [| split; [reflexivity | split]]].
  - exact (proj1 (proj1 (similar_and_search_ranked Samples.index
                           sample_index_nearest_first) "a"%string 1)
             [1; 0]%Q eq_refl).
  - exact (proj2 (proj1 (similar_and_search_ranked Samples.index
                           sample_index_nearest_first) "a"%string 1)).
  - exact (proj1 (proj2 (proj2 (similar_and_search_ranked Samples.index
                                  sample_index_nearest_first)))
             "a"%string 2 [1; 0]%Q (firstn 3 Samples.stored)
             eq_refl eq_refl (sample_index_presentable 3)).
  - exact (proj2 (proj2 (proj2 (similar_and_search_ranked Samples.index
                                  sample_index_nearest_first)))
             (SemanticSearchEngine.mkSearchQuery "parcel" 3 None None None)
             [1; 0]%Q (firstn 3 Samples.stored)
             eq_refl eq_refl (sample_index_presentable 3)).
Defined.

(** C8, as stated, fails on [find_similar]: a failure of the index is
    answered with an empty list, as if nothing similar were stored. *)
Lemma find_similar_swallows_failure :
  SemanticSearchEngine.find_similar Samples.broken_index "a" 5 =
    ([SemanticSearchEngine.CollectionGet "a"], Ok []) /\
  SemanticSearchEngine.find_similar Samples.half_broken_index "a" 5 =
    ([SemanticSearchEngine.CollectionGet "a";
      SemanticSearchEngine.CollectionQuery [1; 0]%Q 6 None], Ok []).
Proof. split; reflexivity. Qed.

(** C8, amended. [search] hands every failure of the embedding service or
    of the index to its caller, after the one call that failed.
    [find_similar] never calls the embedding service and never raises: a
    failure of the index, at the lookup or at the query, makes it return
    the empty list.  Neither repeats a call. *)
Theorem search_failures_surface (svc : SemanticSearchEngine.Services) :
  (forall q err,
     SemanticSearchEngine.embeddings_create svc
       (SemanticSearchEngine.query q) = Raise err ->
     SemanticSearchEngine.search svc q =
       ([SemanticSearchEngine.EmbeddingsCreate (SemanticSearchEngine.query q)],
        Raise err)) /\
  (forall q e err,
     SemanticSearchEngine.embeddings_create svc
       (SemanticSearchEngine.query q) = Ok e ->
     SemanticSearchEngine.collection_query svc e
       (SemanticSearchEngine.limit q)
       (option_map category_value
          (SemanticSearchEngine.category_filter q)) = Raise err ->
     SemanticSearchEngine.search svc q =
       ([SemanticSearchEngine.EmbeddingsCreate (SemanticSearchEngine.query q);
         SemanticSearchEngine.CollectionQuery e
           (SemanticSearchEngine.limit q)
           (option_map category_value
              (SemanticSearchEngine.category_filter q))],
        Raise err)) /\
  (forall id lim err,
     SemanticSearchEngine.collection_get svc id = Raise err ->
     SemanticSearchEngine.find_similar svc id lim =
       ([SemanticSearchEngine.CollectionGet id], Ok [])) /\
  (forall id lim e err,
     SemanticSearchEngine.collection_get svc id = Ok (Some e) ->
     SemanticSearchEngine.collection_query svc e (lim + 1) None = Raise err ->
     SemanticSearchEngine.find_similar svc id lim =
       ([SemanticSearchEngine.CollectionGet id;
         SemanticSearchEngine.CollectionQuery e (lim + 1) None], Ok [])) /\
  (forall id lim,
     (exists results,
        snd (SemanticSearchEngine.find_similar svc id lim) = Ok results) /\
     existsb is_embedding_call
       (fst (SemanticSearchEngine.find_similar svc id lim)) = false /\
     NoDup (fst (SemanticSearchEngine.find_similar svc id lim))) /\
  (forall q, NoDup (fst (SemanticSearchEngine.search svc q))).
Proof.
  split; [| split; [| split; [| split; [| split]]]].
  - intros q err H. pose proof (search_cases svc q) as C. cbv zeta in C.
    now rewrite H in C.
  - intros q e err H1 H2. pose proof (search_cases svc q) as C.
    cbv zeta in C. now rewrite H1, H2 in C.
  - intros id lim err H. pose proof (find_similar_cases svc id lim) as C.
    now rewrite H in C.
  - intros id lim e err H1 H2.
    pose proof (find_similar_cases svc id lim) as C.
    now rewrite H1, H2 in C.
  - intros id lim. pose proof (find_similar_cases svc id lim) as C.
    destruct (SemanticSearchEngine.collection_get svc id) as [[e|]|err].
    + destruct (SemanticSearchEngine.collection_query svc e (lim + 1) None);
        rewrite C; cbn [fst snd]; (split; [eauto |]);
        (split; [reflexivity |]); repeat constructor; simpl;
        intuition discriminate.
    + rewrite C; cbn [fst snd]. split; [eauto |]. split; [reflexivity |].
      repeat constructor. simpl. tauto.
    + rewrite C; cbn [fst snd]. split; [eauto |]. split; [reflexivity |].
      repeat constructor. simpl. tauto.
  - intros q. pose proof (search_cases svc q) as C. cbv zeta in C.
    destruct (SemanticSearchEngine.embeddings_create svc _) as [e|err].
    + destruct (SemanticSearchEngine.collection_query svc e _ _);
        rewrite C; cbn [fst]; repeat constructor; simpl;
        intuition discriminate.
    + rewrite C; cbn [fst]. repeat constructor. simpl. tauto.
Qed.

Lemma search_failures_surface_witness :
  SemanticSearchEngine.search Samples.broken_index
    (SemanticSearchEngine.mkSearchQuery "late parcel" 10 None None None) =
    ([SemanticSearchEngine.EmbeddingsCreate "late parcel"],
     Raise EmbeddingError) /\
  SemanticSearchEngine.search Samples.half_broken_index
    (SemanticSearchEngine.mkSearchQuery "late parcel" 10 (Some ORDER)
       None None) =
    ([SemanticSearchEngine.EmbeddingsCreate "late parcel";
      SemanticSearchEngine.CollectionQuery [1; 0]%Q 10 (Some "order"%string)],
     Raise IndexError_) /\
  SemanticSearchEngine.find_similar Samples.broken_index "a" 5 =
    ([SemanticSearchEngine.CollectionGet "a"], Ok []) /\
  SemanticSearchEngine.find_similar Samples.half_broken_index "a" 5 =
    ([SemanticSearchEngine.CollectionGet "a";
      SemanticSearchEngine.CollectionQuery [1; 0]%Q (5 + 1) None], Ok []).
Proof.
  split; [| split; [| split]].
  - exact (proj1 (search_failures_surface Samples.broken_index)
             (SemanticSearchEngine.mkSearchQuery "late parcel" 10 None None None)
             EmbeddingError eq_refl).
  - exact (proj1 (proj2 (search_failures_surface Samples.half_broken_index))
             (SemanticSearchEngine.mkSearchQuery "late parcel" 10 (Some ORDER)
                None None)
             [1; 0]%Q IndexError_ eq_refl eq_refl).
  - exact (proj1 (proj2 (proj2 (search_failures_surface Samples.broken_index)))
             "a"%string 5 IndexError_ eq_refl).
  - exact (proj1 (proj2 (proj2 (proj2
                    (search_failures_surface Samples.half_broken_index))))
             "a"%string 5 [1; 0]%Q IndexError_ eq_refl eq_refl).
Defined.

(** C10. For an id the index does not hold, [find_similar] returns the
    empty list, without an error, after the lookup alone: no query for
    neighbours is made. *)
Theorem find_similar_unknown_id
    (svc : SemanticSearchEngine.Services) (id : string) (lim : nat) :
  SemanticSearchEngine.collection_get svc id = Ok None ->
  SemanticSearchEngine.find_similar svc id lim =
    ([SemanticSearchEngine.CollectionGet id], Ok []).
Proof.
  intros H. pose proof (find_similar_cases svc id lim) as C.
  now rewrite H in C.
Qed.

Lemma find_similar_unknown_id_witness :
  SemanticSearchEngine.find_similar Samples.index "zzz" 5 =
    ([SemanticSearchEngine.CollectionGet "zzz"], Ok []).
Proof.
  exact (find_similar_unknown_id Samples.index "zzz" 5 eq_refl).
Defined.

(* ================================================================== *)
(** * The repository's unit tests, run on the model *)
(* ================================================================== *)

(** [tests/test_ai_components.py], [TestTextAnalyzer] *)

Example test_analyze_sentiment_positive :
  TextAnalyzer.analyze_sentiment
    "Thank you so much! This is excellent service. I'm very happy with the results."
  = POSITIVE.
Proof. reflexivity. Qed.

Example test_analyze_sentiment_negative :
  TextAnalyzer.analyze_sentiment
    "This is terrible service. I'm very disappointed and frustrated with your company."
  = NEGATIVE.
Proof. reflexivity. Qed.

Example test_analyze_sentiment_neutral :
  TextAnalyzer.analyze_sentiment
    "I would like to inquire about my order status. Please provide an update."
  = NEUTRAL.
Proof. reflexivity. Qed.

Example test_extract_keywords :
  TextAnalyzer.extract_keywords
    "I need help with my order delivery. The shipping address is incorrect." 10
  = ["need"; "help"; "order"; "delivery"; "shipping"; "address"; "incorrect"].
Proof. reflexivity. Qed.

Example test_extract_entities_email :
  TextAnalyzer.extract_entities
    "Please contact me at john.doe@example.com for further information."
  = [mkEntity "email" "john.doe@example.com"].
Proof. reflexivity. Qed.

Example test_extract_entities_phone :
  TextAnalyzer.extract_entities
    "You can reach me at 555-123-4567 or 555.987.6543."
  = [mkEntity "phone" "555-123-4567"; mkEntity "phone" "555.987.6543"].
Proof. reflexivity. Qed.

Example test_extract_entities_order_id :
  TextAnalyzer.extract_entities
    "I have an issue with order #12345 and ORDER-67890."
  = [mkEntity "order_id" "12345"; mkEntity "order_id" "67890"].
Proof. reflexivity. Qed.

Example test_extract_entities_money :
  TextAnalyzer.extract_entities "I was charged $99.99 but expected $49.50."
  = [mkEntity "money" "$99.99"; mkEntity "money" "$49.50"].
Proof. reflexivity. Qed.

(** [tests/test_email_processor.py] *)

Example test_determine_priority_complaint :
  EmailProcessor._determine_priority
    (mkEmailRequest "Terrible service"
       "I am very disappointed with your service. This is unacceptable!"
       "angry@customer.com")
    (mkAi (Some "complaint") None None)
  = HIGH.
Proof. reflexivity. Qed.

Example test_determine_priority_urgent_keywords :
  EmailProcessor._determine_priority
    (mkEmailRequest "Critical issue"
       "We have a critical system failure that needs immediate attention."
       "user@company.com")
    (mkAi (Some "technical") None None)
  = URGENT.
Proof. reflexivity. Qed.

(* ================================================================== *)
(** * Further properties *)
(* ================================================================== *)

(** ** Urgency score *)

Lemma keyword_hits_length ws text :
  List.length (keyword_hits ws text) <= List.length ws.
Proof. apply filter_length_le. Qed.

Lemma urgent_indicators_lowercase :
  all_lowercase TextAnalyzer.urgent_indicators.
Proof. repeat constructor. Qed.

Lemma urgency_score_value text :
  (TextAnalyzer.calculate_urgency_score text ==
   Z.of_nat (List.length (keyword_hits TextAnalyzer.urgent_indicators text)) # 10)%Q.
Proof.
  unfold TextAnalyzer.calculate_urgency_score. cbv zeta.
  rewrite count_present_hits.
  pose proof (keyword_hits_length TextAnalyzer.urgent_indicators text) as Hl.
  set (c := List.length (keyword_hits TextAnalyzer.urgent_indicators text)) in *.
  change (List.length TextAnalyzer.urgent_indicators) with 10 in *.
  assert (E : (inject_Z (Z.of_nat c) / inject_Z (Z.of_nat 10) ==
               Z.of_nat c # 10)%Q).
  { unfold Qeq, Qdiv, Qmult, Qinv, inject_Z. simpl. lia. }
  rewrite E. apply Q.min_l. unfold Qle. simpl. lia.
Qed.

(** X1. The urgency score is the number of urgent indicators that occur
    in the text, in any letter case, divided by ten: it lies in [0, 1],
    it is 0 exactly when none occurs and 1 exactly when all ten occur,
    and a text with more indicators never scores lower. *)
Theorem urgency_score_counts (text : string) :
  let hits := keyword_hits TextAnalyzer.urgent_indicators text in
  let score := TextAnalyzer.calculate_urgency_score text in
  (forall k, In k hits <->
             In k TextAnalyzer.urgent_indicators /\ Text.occurs_ci k text) /\
  (score == Z.of_nat (List.length hits) # 10)%Q /\
  (0 <= score)%Q /\ (score <= 1)%Q /\
  ((score == 0)%Q <-> hits = []) /\
  ((score == 1)%Q <-> List.length hits = 10) /\
  (forall text',
     (score <= TextAnalyzer.calculate_urgency_score text')%Q <->
     List.length hits <=
     List.length (keyword_hits TextAnalyzer.urgent_indicators text')).
Proof.
  intros hits score.
  pose proof (urgency_score_value text) as E. fold hits score in E.
  pose proof (keyword_hits_length TextAnalyzer.urgent_indicators text) as Hl.
  fold hits in Hl. change (List.length TextAnalyzer.urgent_indicators) with 10 in Hl.
  split; [intros k; apply keyword_hits_iff, urgent_indicators_lowercase |].
  split; [exact E |].
  split; [rewrite E; unfold Qle; simpl; lia |].
  split; [rewrite E; unfold Qle; simpl; lia |].
  split; [| split].
  - rewrite E. unfold Qeq. simpl. split.
    + intros H. destruct hits; [reflexivity | simpl in H; lia].
    + intros ->. reflexivity.
  - rewrite E. unfold Qeq. simpl. lia.
  - intros text'. rewrite E, (urgency_score_value text').
    unfold Qle. simpl. lia.
Qed.

(** ** Urgency score and priority *)

Lemma priority_urgent_iff email ai :
  EmailProcessor._determine_priority email ai = URGENT <->
  mentions_urgent email.
Proof.
  unfold EmailProcessor._determine_priority, mentions_urgent.
  rewrite <- (existsb_contains_iff _ _ urgent_keywords_lowercase).
  destruct (existsb _ EmailProcessor.urgent_keywords); [tauto |].
  split; [|discriminate].
  destruct (EmailProcessor.category_is _ COMPLAINT); [discriminate |].
  destruct (existsb _ [TECHNICAL; BILLING]); discriminate.
Qed.

(** X2. The score and the priority rule read almost the same list: the
    score knows [crashed] where the rule knows [error].  So a positive
    score makes the email URGENT unless [crashed] occurs, and an URGENT
    email has a positive score unless [error] occurs. *)
Theorem urgency_score_and_priority (email : EmailRequest) (ai : AiClassification) :
  let text := (subject email ++ " " ++ body email)%string in
  ((0 < TextAnalyzer.calculate_urgency_score text)%Q ->
   ~ Text.occurs_ci "crashed" text ->
   EmailProcessor._determine_priority email ai = URGENT) /\
  (EmailProcessor._determine_priority email ai = URGENT ->
   ~ Text.occurs_ci "error" text ->
   (0 < TextAnalyzer.calculate_urgency_score text)%Q).
Proof.
  intros text. split.
  - intros Hpos Hno. apply priority_urgent_iff.
    rewrite urgency_score_value in Hpos.
    destruct (keyword_hits TextAnalyzer.urgent_indicators text) as [|k l] eqn:E;
      [unfold Qlt in Hpos; simpl in Hpos; lia |].
    assert (Hk : In k (keyword_hits TextAnalyzer.urgent_indicators text))
      by (rewrite E; now left).
    apply (keyword_hits_iff _ _ _ urgent_indicators_lowercase) in Hk.
    destruct Hk as [Hin Hocc]. exists k. split; [|exact Hocc].
    simpl in Hin. simpl.
    repeat (destruct Hin as [<-|Hin]; [auto 12; try contradiction |]);
      try contradiction.
  - intros Hu Hno. apply priority_urgent_iff in Hu.
    destruct Hu as (k & Hin & Hocc). rewrite urgency_score_value.
    assert (Hk : In k (keyword_hits TextAnalyzer.urgent_indicators text)).
    { apply (keyword_hits_iff _ _ _ urgent_indicators_lowercase).
      split; [|exact Hocc]. simpl in Hin. simpl.
      repeat (destruct Hin as [<-|Hin]; [auto 12; try contradiction |]);
        try contradiction. }
    destruct (keyword_hits TextAnalyzer.urgent_indicators text);
      [contradiction |].
    unfold Qlt. simpl. lia.
Qed.

Lemma urgency_score_and_priority_witness :
  EmailProcessor._determine_priority
    (mkEmailRequest "Server down" "The site is down since noon" "ops@example.com")
    (mkAi (Some "general") None None) = URGENT /\
  (0 < TextAnalyzer.calculate_urgency_score
         "Urgent request Please call me asap")%Q.
Proof.
  split.
  - apply (proj1 (urgency_score_and_priority
                    (mkEmailRequest "Server down" "The site is down since noon"
                       "ops@example.com")
                    (mkAi (Some "general") None None))).
    + reflexivity.
    + intros H. apply occurs_ci_iff in H. discriminate.
  - apply (proj2 (urgency_score_and_priority
                    (mkEmailRequest "Urgent request" "Please call me asap"
                       "ops@example.com")
                    (mkAi (Some "general") None None))).
    + reflexivity.
    + intros H. apply occurs_ci_iff in H. discriminate.
Defined.

(** ** Language detection *)

Lemma substring_of_trans a b c :
  Text.substring_of a b -> Text.substring_of b c -> Text.substring_of a c.
Proof.
  intros (p1 & q1 & ->) (p2 & q2 & ->).
  exists (p2 ++ p1)%string, (q1 ++ q2)%string.
  induction p2 as [|x p2 IH]; simpl.
  - clear. induction p1 as [|x p1 IH]; simpl.
    + clear. induction a as [|x a IH]; simpl; [reflexivity | now rewrite IH].
    + now rewrite IH.
  - now rewrite IH.
Qed.

(** A keyword is found wherever a longer string that holds it is. *)
Lemma contains_mono k k' t :
  Text.contains k k' = true -> Text.contains k' t = true ->
  Text.contains k t = true.
Proof.
  rewrite !contains_iff. apply substring_of_trans.
Qed.

Lemma count_present_length ws t :
  Text.count_present ws t = List.length (filter (fun w => Text.contains w t) ws).
Proof. unfold Text.count_present. now rewrite count_present_from. Qed.

(** X3. Language detection tests Spanish first: three Spanish words found
    anywhere in the text, even inside other words, give [es] whatever
    else the text holds.  Four of the eight French words are also on the
    Spanish list, and [est] holds [es]: a text is reported French only if
    one of [le], [pour], [avec] occurs in it.  The empty text is [en]. *)
Theorem detect_language_order (text : string) :
  TextAnalyzer.detect_language "" = "en" /\
  (text <> ""%string ->
   3 <= List.length (keyword_hits TextAnalyzer.spanish_words text) ->
   TextAnalyzer.detect_language text = "es") /\
  (TextAnalyzer.detect_language text = "fr" ->
   List.length (keyword_hits TextAnalyzer.spanish_words text) <= 2 /\
   3 <= List.length (keyword_hits TextAnalyzer.french_words text) /\
   exists k, In k ["le"; "pour"; "avec"]%string /\ Text.occurs_ci k text) /\
  In (TextAnalyzer.detect_language text) ["en"; "es"; "fr"; "de"]%string.
Proof.
  split; [reflexivity |].
  assert (Hest : Text.contains "est" (Text.lower text) = true ->
                 Text.contains "es" (Text.lower text) = true).
  { apply contains_mono. reflexivity. }
  unfold TextAnalyzer.detect_language.
  rewrite !count_present_hits.
  split; [| split].
  - intros Hne H3. destruct text as [|c text]; [congruence |].
    replace (2 <? _) with true by (symmetry; apply Nat.ltb_lt; lia).
    reflexivity.
  - destruct text as [|c text]; [discriminate |].
    set (t := String c text) in *.
    destruct (Nat.ltb_spec 2 (List.length
                (keyword_hits TextAnalyzer.spanish_words t))) as [|Hsp];
      [discriminate |].
    destruct (Nat.ltb_spec 2 (List.length
                (keyword_hits TextAnalyzer.french_words t))) as [Hfr|].
    2: { destruct (2 <? _); discriminate. }
    intros _. split; [lia |]. split; [lia |].
    assert (Hk : forall k, In k ["le"; "pour"; "avec"]%string ->
                 Text.contains k (Text.lower t) = true ->
                 exists k, In k ["le"; "pour"; "avec"]%string /\
                           Text.occurs_ci k t).
    { intros k Hin Hc. exists k. split; [exact Hin |].
      apply occurs_ci_iff.
      replace (Text.lower k) with k; [exact Hc |].
      simpl in Hin. intuition (subst; reflexivity). }
    destruct (Text.contains "le" (Text.lower t)) eqn:Ele;
      [apply (Hk "le"%string); simpl; auto |].
    destruct (Text.contains "pour" (Text.lower t)) eqn:Epour;
      [apply (Hk "pour"%string); simpl; auto |].
    destruct (Text.contains "avec" (Text.lower t)) eqn:Eavec;
      [apply (Hk "avec"%string); simpl; auto |].
    exfalso. revert Hsp Hfr.
    unfold keyword_hits, TextAnalyzer.spanish_words,
      TextAnalyzer.french_words.
    cbn [filter]. rewrite Ele, Epour, Eavec.
    destruct (Text.contains "est" (Text.lower t)) eqn:Eest;
      [rewrite (Hest eq_refl) | ];
      destruct (Text.contains "la" (Text.lower t));
      destruct (Text.contains "en" (Text.lower t));
      destruct (Text.contains "de" (Text.lower t));
      destruct (Text.contains "que" (Text.lower t));
      destruct (Text.contains "el" (Text.lower t));
      destruct (Text.contains "por" (Text.lower t));
      destruct (Text.contains "con" (Text.lower t));
      try destruct (Text.contains "es" (Text.lower t));
      cbn [List.length]; lia.
  - destruct text as [|c text]; [simpl; auto |].
    destruct (2 <? _); [simpl; auto |].
    destruct (2 <? _); [simpl; auto |].
    destruct (2 <? _); simpl; auto.
Qed.

Lemma detect_language_order_witness :
  TextAnalyzer.detect_language "Please send the latest order details" = "es" /\
  exists k, In k ["le"; "pour"; "avec"]%string /\
            Text.occurs_ci k "Merci pour votre aide avec le colis".
Proof.
  split.
  - apply (proj1 (proj2 (detect_language_order
                           "Please send the latest order details")));
      [discriminate | vm_compute; lia].
  - apply (proj1 (proj2 (proj2 (detect_language_order
                                  "Merci pour votre aide avec le colis")))
             eq_refl).
Defined.

(** ** The LLM client *)

(** X4. The LLM sentiment analysis makes one request and always answers:
    POSITIVE or NEGATIVE exactly when the service's answer, stripped and
    lowercased, is that word; NEUTRAL in every other case, a failure of
    the service included. *)
Theorem llm_sentiment_fallback (client : Client) (text : string) (w : Log) :
  let request := LLMClient.sentiment_request text in
  let answer := client (requests_made w) request in
  let result := fst (LLMClient.analyze_sentiment client text w) in
  snd (LLMClient.analyze_sentiment client text w) = w ++ [Request request] /\
  (result = POSITIVE <->
   exists content, answer = CompletionContent content /\
                   Text.lower (Text.strip content) = "positive"%string) /\
  (result = NEGATIVE <->
   exists content, answer = CompletionContent content /\
                   Text.lower (Text.strip content) = "negative"%string) /\
  (answer = CompletionRaises -> result = NEUTRAL).
Proof.
  intros request answer result. subst result.
  unfold LLMClient.analyze_sentiment. fold request. fold answer.
  destruct answer as [|content] eqn:A.
  - cbn [fst snd]. split; [reflexivity |].
    split; [| split; [| reflexivity]];
      (split; [discriminate | intros (? & ? & _); discriminate]).
  - cbv zeta. set (s := Text.lower (Text.strip content)).
    assert (Hsnd : forall (b : bool) (x y : EmailSentiment * Log),
               snd x = w ++ [Request request] ->
               snd y = w ++ [Request request] ->
               snd (if b then x else y) = w ++ [Request request])
      by (intros []; auto).
    unfold Text.mem, LLMClient.sentiment_of_string.
    cbn [existsb find sentiment_value].
    destruct (String.eqb_spec s "positive") as [Ep|Np];
      [| destruct (String.eqb_spec s "neutral") as [Eu|Nu];
         [| destruct (String.eqb_spec s "negative") as [En|Nn]]];
      cbn [orb fst snd]; (split; [reflexivity |]).
    + split; [| split; [| discriminate]].
      * split; [intros _; exists content; auto | reflexivity].
      * split; [discriminate |].
        intros (c & H & Hc). injection H as <-. fold s in Hc. congruence.
    + split; [| split; [| discriminate]];
        (split; [discriminate |]);
        intros (c & H & Hc); injection H as <-; fold s in Hc; congruence.
    + split; [| split; [| discriminate]].
      * split; [discriminate |].
        intros (c & H & Hc). injection H as <-. fold s in Hc. congruence.
      * split; [intros _; exists content; auto | reflexivity].
    + split; [| split; [| discriminate]];
        (split; [discriminate |]);
        intros (c & H & Hc); injection H as <-; fold s in Hc; congruence.
Qed.

Lemma llm_sentiment_fallback_witness :
  fst (LLMClient.analyze_sentiment Samples.failing_client "Thank you!" []) =
  NEUTRAL.
Proof.
  apply (proj2 (proj2 (proj2 (llm_sentiment_fallback Samples.failing_client
                                "Thank you!" []))) eq_refl).
Defined.

Lemma generate_response_log fmt client json_loads email c w :
  snd (LLMClient.generate_response fmt client json_loads email c w) =
  w ++ [Request (LLMClient.response_request fmt email c)].
Proof.
  unfold LLMClient.generate_response. cbv zeta.
  destruct (client _ _); [reflexivity |].
  destruct (json_loads _); reflexivity.
Qed.

Lemma build_response_ok d r :
  LLMClient.build_response d = Ok r ->
  rd_content d = Some (content r) /\
  rd_tone d = Some (tone r) /\
  suggested_actions r =
    match rd_suggested_actions d with Some a => a | None => [] end /\
  response_confidence r =
    match rd_confidence d with Some c => c | None => 8 # 10 end /\
  String.length (content r) <= 2000 /\
  (0 <= response_confidence r)%Q /\ (response_confidence r <= 1)%Q.
Proof.
  unfold LLMClient.build_response.
  destruct (rd_content d) as [c|]; [|discriminate].
  destruct (rd_tone d) as [t|]; [|discriminate]. cbv zeta.
  destruct (Nat.ltb_spec 2000 (String.length c)); [discriminate |].
  destruct (Qle_bool 0 _) eqn:Q0; [|discriminate].
  destruct (Qle_bool _ 1) eqn:Q1; [|discriminate].
  cbn [andb]. intros Hr. injection Hr as <-. cbn.
  apply Qle_bool_imp_le in Q0, Q1. repeat split; auto; lia.
Qed.

(** X5. Response generation makes one request, whatever happens.  A
    response it returns holds the content and tone the service gave, at
    most 2000 characters of content and a confidence in [0, 1], with 0.8
    and the empty list standing in for a missing confidence and missing
    actions.  A failure of the service, an answer that is no JSON object,
    and a missing content or tone are raised to the caller. *)
Theorem generate_response_contract
    (fmt : LLMClient.EnumFormat) (client : Client)
    (json_loads : string -> option ResponseData)
    (email : EmailRequest) (c : EmailClassification) (w : Log) :
  let request := LLMClient.response_request fmt email c in
  let answer := client (requests_made w) request in
  let outcome := fst (LLMClient.generate_response fmt client json_loads email c w) in
  snd (LLMClient.generate_response fmt client json_loads email c w) =
    w ++ [Request request] /\
  (forall r, outcome = Ok r ->
     exists reply d,
       answer = CompletionContent reply /\ json_loads reply = Some d /\
       rd_content d = Some (content r) /\ rd_tone d = Some (tone r) /\
       suggested_actions r =
         match rd_suggested_actions d with Some a => a | None => [] end /\
       response_confidence r =
         match rd_confidence d with Some x => x | None => 8 # 10 end /\
       String.length (content r) <= 2000 /\
       (0 <= response_confidence r)%Q /\ (response_confidence r <= 1)%Q) /\
  (answer = CompletionRaises -> outcome = Raise APIError) /\
  (forall reply, answer = CompletionContent reply ->
     json_loads reply = None -> outcome = Raise JSONDecodeError) /\
  (forall reply d, answer = CompletionContent reply ->
     json_loads reply = Some d ->
     rd_content d = None \/ rd_tone d = None ->
     exists key, outcome = Raise (KeyError key)).
Proof.
  intros request answer outcome. subst outcome.
  split; [apply generate_response_log |].
  unfold LLMClient.generate_response. cbv zeta. fold request. fold answer.
  destruct answer as [|reply] eqn:A; cbn [fst].
  - split; [discriminate |]. split; [reflexivity |].
    split; [discriminate |]. intros reply d H. discriminate.
  - destruct (json_loads reply) as [d|] eqn:J; cbn [fst].
    + split.
      { intros r H. exists reply, d. split; [reflexivity |].
        split; [exact J |]. now apply build_response_ok. }
      split; [discriminate |]. split.
      { intros reply' E J'. injection E as <-. congruence. }
      intros reply' d' E J' Hmiss. injection E as <-.
      rewrite J in J'. injection J' as <-.
      unfold LLMClient.build_response.
      destruct (rd_content d); [|eauto].
      destruct Hmiss as [Hm|Hm]; [discriminate |]. rewrite Hm. eauto.
    + split; [discriminate |]. split; [discriminate |]. split.
      { reflexivity. }
      intros reply' d' E J'. injection E as <-. congruence.
Qed.

Lemma generate_response_contract_witness :
  fst (LLMClient.generate_response
         (LLMClient.mkEnumFormat category_value priority_value sentiment_value)
         Samples.failing_client (fun _ => None) Samples.an_email
         (mkEmailClassification GENERAL None LOW NEUTRAL 1 [] []) []) =
  Raise APIError.
Proof.
  apply (proj1 (proj2 (proj2 (generate_response_contract
           (LLMClient.mkEnumFormat category_value priority_value sentiment_value)
           Samples.failing_client (fun _ => None) Samples.an_email
           (mkEmailClassification GENERAL None LOW NEUTRAL 1 [] []) [])))
         eq_refl).
Defined.

(** ** The classification of the service *)

Lemma processor_classify_log client json_loads email w :
  snd (EmailProcessor.classify_email client json_loads email w) =
  w ++ [Request (LLMClient.classification_request
                   (EmailProcessor.email_content email))].
Proof.
  unfold EmailProcessor.classify_email, LLMClient.classify_email. cbv zeta.
  destruct (client _ _); [reflexivity |].
  destruct (json_loads _); reflexivity.
Qed.

Lemma extract_keywords_length text max_k :
  List.length (TextAnalyzer.extract_keywords text max_k) <= max_k.
Proof.
  unfold TextAnalyzer.extract_keywords. cbv zeta.
  rewrite length_map. apply firstn_le_length.
Qed.

(** X6. A classification returned by [EmailProcessor.classify_email] has
    a confidence in [0, 1] and at most ten keywords; its priority is
    URGENT exactly when an urgent keyword occurs in subject and body; its
    sentiment, keywords and entities are those of the text analyzer on
    the labelled content.  One request is made in every case.  An answer
    without a category or without a confidence makes the call raise. *)
Theorem processor_classification_invariants
    (client : Client) (json_loads : string -> option AiClassification)
    (email : EmailRequest) (w : Log) :
  let text := EmailProcessor.email_content email in
  let outcome := fst (EmailProcessor.classify_email client json_loads email w) in
  snd (EmailProcessor.classify_email client json_loads email w) =
    w ++ [Request (LLMClient.classification_request text)] /\
  (forall c, outcome = Ok c ->
     (0 <= confidence c)%Q /\ (confidence c <= 1)%Q /\
     List.length (keywords c) <= 10 /\
     (priority c = URGENT <-> mentions_urgent email) /\
     sentiment c = TextAnalyzer.analyze_sentiment text /\
     keywords c = TextAnalyzer.extract_keywords text 10 /\
     entities c = TextAnalyzer.extract_entities text) /\
  (forall reply ai,
     client (requests_made w) (LLMClient.classification_request text) =
       CompletionContent reply ->
     json_loads reply = Some ai ->
     ai_category ai = None \/ ai_confidence ai = None ->
     exists key, outcome = Raise (KeyError key)).
Proof.
  intros text outcome. subst outcome.
  split; [apply processor_classify_log |].
  unfold EmailProcessor.classify_email, LLMClient.classify_email. cbv zeta.
  fold text.
  destruct (client _ _) as [|reply] eqn:A; cbn [fst].
  - split; [discriminate |]. intros reply ai H. discriminate.
  - destruct (json_loads reply) as [ai|] eqn:J; cbn [fst].
    2: { split; [discriminate |]. intros reply' ai' E J'.
         injection E as <-. congruence. }
    split.
    + intros c. unfold EmailProcessor.build_classification.
      destruct (ai_category ai) as [s|]; [|discriminate].
      destruct (ai_confidence ai) as [q|]; [|discriminate].
      destruct (category_of_string s) as [cat|]; [|discriminate].
      destruct (EmailProcessor.optional_str _) as [sub|]; [|discriminate].
      destruct (Qle_bool 0 q) eqn:Q0; [|discriminate].
      destruct (Qle_bool q 1) eqn:Q1; [|discriminate].
      cbn [andb]. intros H. injection H as <-.
      cbn [confidence keywords priority sentiment entities].
      apply Qle_bool_imp_le in Q0, Q1.
      split; [exact Q0 |]. split; [exact Q1 |].
      split; [apply extract_keywords_length |].
      split; [apply priority_urgent_iff |]. auto.
    + intros reply' ai' E J' Hmiss. injection E as <-.
      rewrite J in J'. injection J' as <-.
      unfold EmailProcessor.build_classification.
      destruct (ai_category ai); [|eauto].
      destruct Hmiss as [Hm|Hm]; [discriminate |]. rewrite Hm. eauto.
Qed.

Lemma processor_classification_invariants_witness :
  exists key,
    fst (EmailProcessor.classify_email
           (fun _ _ => CompletionContent "{}")
           (fun _ => Some (mkAi None None None)) Samples.an_email []) =
    Raise (KeyError key).
Proof.
  apply (proj2 (proj2 (processor_classification_invariants
                         (fun _ _ => CompletionContent "{}")
                         (fun _ => Some (mkAi None None None))
                         Samples.an_email []))
           "{}"%string (mkAi None None None) eq_refl eq_refl).
  left. reflexivity.
Defined.

(** ** The processing endpoint *)

Lemma requests_made_request w r :
  requests_made (w ++ [Request r]) = requests_made w + 1.
Proof. now rewrite requests_made_app. Qed.

(** X7. [POST /process] stores a result only after the classification and
    the response were both produced, and answers 200 only after the store
    succeeded: a 200 answer is the very result that was stored, built
    from two completion requests.  When the classification fails the
    answer is 500 after that one request: no response is asked for and
    nothing is stored. *)
Theorem process_email_all_or_nothing
    (env : Endpoints.Env) (fmt : LLMClient.EnumFormat) (client : Client)
    (json_loads : string -> option AiClassification)
    (json_loads_response : string -> option ResponseData)
    (email : EmailRequest) (w : Log) :
  let run := Endpoints.process_email env fmt client json_loads
               json_loads_response email w in
  let answer := fst (fst run) in
  let w' := snd (fst run) in
  let stored := snd run in
  (forall r, answer = Endpoints.Http200 r ->
     stored = [(Endpoints.uuid4 env, email, r)] /\
     Endpoints.store_email env (Endpoints.uuid4 env) email r = Ok tt /\
     result_email_id r = Endpoints.uuid4 env /\
     fst (EmailProcessor.classify_email client json_loads email w) =
       Ok (classification r) /\
     requests_made w' = requests_made w + 2) /\
  (stored <> [] -> requests_made w' = requests_made w + 2) /\
  List.length stored <= 1 /\
  (forall e,
     fst (EmailProcessor.classify_email client json_loads email w) = Raise e ->
     answer = Endpoints.Http500 e /\ stored = [] /\
     requests_made w' = requests_made w + 1).
Proof.
  cbv zeta. unfold Endpoints.process_email. cbv zeta.
  pose proof (processor_classify_log client json_loads email w) as L1.
  destruct (EmailProcessor.classify_email client json_loads email w)
    as [[c|e] w1]; cbn [fst snd] in *.
  - pose proof (generate_response_log fmt client json_loads_response email c w1)
      as L2.
    destruct (LLMClient.generate_response fmt client json_loads_response
                email c w1) as [[r|e] w2]; cbn [fst snd] in *.
    + assert (Hreq : requests_made w2 = requests_made w + 2).
      { rewrite L2, L1, !requests_made_request. lia. }
      destruct (Endpoints.store_email env _ email _) as [[]|e] eqn:St;
        cbn [fst snd].
      * split.
        { intros r' H. injection H as <-. cbn [result_email_id classification].
          repeat split; auto. }
        split; [auto |]. split; [simpl; lia |]. discriminate.
      * split; [discriminate |]. split; [auto |].
        split; [simpl; lia |]. discriminate.
    + split; [discriminate |]. split; [congruence |].
      split; [simpl; lia |]. discriminate.
  - split; [discriminate |]. split; [congruence |]. split; [simpl; lia |].
    intros e' H. injection H as <-. repeat split.
    rewrite L1. apply requests_made_request.
Qed.

Lemma process_email_all_or_nothing_witness :
  Endpoints.process_email
    (Endpoints.mkEnv "id-1" 1 "2024-01-01T10:00:00" (fun _ _ _ => Ok tt))
    (LLMClient.mkEnumFormat category_value priority_value sentiment_value)
    Samples.failing_client Samples.json_loads (fun _ => None)
    Samples.an_email [] =
  (Endpoints.Http500 APIError,
   [Request (LLMClient.classification_request
               (EmailProcessor.email_content Samples.an_email))], []).
Proof.
  pose proof (proj2 (proj2 (proj2 (process_email_all_or_nothing
    (Endpoints.mkEnv "id-1" 1 "2024-01-01T10:00:00" (fun _ _ _ => Ok tt))
    (LLMClient.mkEnumFormat category_value priority_value sentiment_value)
    Samples.failing_client Samples.json_loads (fun _ => None)
    Samples.an_email []))) APIError eq_refl) as [H _].
  reflexivity.
Defined.

(** ** The batch of the script *)




(** ** Retries in general *)

Lemma requests_made_retries request k :
  requests_made
    (List.concat (repeat [Request request; Sleep Config.RETRY_DELAY] k)) = k.
Proof.
  induction k as [|k IH]; [reflexivity |].
  cbn [repeat List.concat]. rewrite requests_made_app, IH. reflexivity.
Qed.

(** X9. The call is decided by the first attempt that does not raise:
    started at [retry_count], with [k] failing attempts before an answer
    and [retry_count + k] below the maximum, [classify_email] returns the
    validated category of that answer after [k] request-and-sleep rounds
    and one more request.  Every attempt sends the same request.  At the
    last allowed attempt a failure gives the default category. *)
Theorem classify_email_first_answer
    (client : Client) (subject body : string) :
  let request := Enhanced.request_for subject body in
  (forall k retry_count w content,
     retry_count + k < Config.MAX_RETRIES ->
     (forall i, i < k -> client (requests_made w + i) request = CompletionRaises) ->
     client (requests_made w + k) request = CompletionContent content ->
     Enhanced.classify_email client subject body retry_count w =
       (validated_category content, w ++ retry_log request k)) /\
  (forall retry_count w,
     Config.MAX_RETRIES - 1 <= retry_count ->
     client (requests_made w) request = CompletionRaises ->
     Enhanced.classify_email client subject body retry_count w =
       (Config.DEFAULT_CATEGORY, w ++ [Request request])).
Proof.
  intros request. split.
  - induction k as [|k IH]; intros retry_count w content Hlt Hfail Hok.
    + rewrite classify_email_unfold. cbv zeta. fold request.
      rewrite Nat.add_0_r in Hok. rewrite Hok.
      unfold validated_category, retry_log. cbv zeta. cbn [repeat List.concat app].
      destruct (Text.mem _ Config.VALID_CATEGORIES); reflexivity.
    + rewrite classify_email_unfold. cbv zeta. fold request.
      rewrite <- (Nat.add_0_r (requests_made w)) at 1.
      rewrite (Hfail 0) by lia.
      replace (retry_count <? Config.MAX_RETRIES - 1) with true
        by (symmetry; apply Nat.ltb_lt; lia).
      rewrite (IH (retry_count + 1) _ content).
      * unfold retry_log. cbn [repeat List.concat]. now rewrite <- !app_assoc.
      * lia.
      * intros i Hi. rewrite requests_made_app.
        change (requests_made [Request request; Sleep Config.RETRY_DELAY])
          with 1.
        replace (requests_made w + 1 + i) with (requests_made w + S i) by lia.
        apply Hfail. lia.
      * rewrite requests_made_app.
        change (requests_made [Request request; Sleep Config.RETRY_DELAY])
          with 1.
        replace (requests_made w + 1 + k) with (requests_made w + S k) by lia.
        exact Hok.
  - intros retry_count w Hge Hfail.
    rewrite classify_email_unfold. cbv zeta. fold request. rewrite Hfail.
    replace (retry_count <? Config.MAX_RETRIES - 1) with false
      by (symmetry; apply Nat.ltb_ge; lia).
    reflexivity.
Qed.

Lemma classify_email_first_answer_witness :
  Enhanced.classify_email Samples.flaky_client "Hi" "Where is it?" 1
    [Request (Enhanced.request_for "Hi" "Where is it?");
     Sleep Config.RETRY_DELAY] =
  ("order",
   [Request (Enhanced.request_for "Hi" "Where is it?");
    Sleep Config.RETRY_DELAY] ++
   retry_log (Enhanced.request_for "Hi" "Where is it?") 1).
Proof.
  apply (proj1 (classify_email_first_answer Samples.flaky_client
                  "Hi" "Where is it?") 1 1
           [Request (Enhanced.request_for "Hi" "Where is it?");
            Sleep Config.RETRY_DELAY] " Order ").
  - vm_compute. lia.
  - intros i Hi. destruct i as [|i]; [reflexivity | lia].
  - reflexivity.
Defined.

(** ** Truncation *)

Lemma prompt_length subject body :
  String.length (Enhanced.prompt subject body) =
  String.length (Enhanced.prompt "" "") +
  String.length subject + String.length body.
Proof.
  unfold Enhanced.prompt. rewrite !append_length. simpl. lia.
Qed.

Lemma take_take n s : Text.take n (Text.take n s) = Text.take n s.
Proof.
  revert s. induction n as [|n IH]; intros [|c s]; simpl; auto.
  now rewrite IH.
Qed.

Lemma take_app_le n a b :
  n <= String.length a -> Text.take n (a ++ b) = Text.take n a.
Proof.
  revert a. induction n as [|n IH]; intros [|c a] H; simpl in *;
    try reflexivity; try lia; try (now destruct b).
  rewrite IH; [reflexivity | lia].
Qed.

(** X10. Truncation keeps short strings as they are and cuts longer ones
    to their first [n] characters followed by three dots; the result has
    at most [n + 3] characters, begins like the original, and is not
    changed by a second truncation.  So the prompt of a classification
    request has a bounded length, whatever the size of the email: at most
    2206 characters more than the empty prompt. *)
Theorem truncate_bounds (n : nat) (s : string) :
  (String.length s <= n -> Enhanced.truncate n s = s) /\
  (n < String.length s ->
   Enhanced.truncate n s = (Text.take n s ++ "...")%string /\
   String.length (Enhanced.truncate n s) = n + 3) /\
  String.length (Enhanced.truncate n s) <= n + 3 /\
  Text.take n (Enhanced.truncate n s) = Text.take n s /\
  Enhanced.truncate n (Enhanced.truncate n s) = Enhanced.truncate n s /\
  (forall subject body,
     String.length
       (Enhanced.prompt
          (Enhanced.truncate Enhanced.max_subject_length subject)
          (Enhanced.truncate Enhanced.max_body_length body))
     <= String.length (Enhanced.prompt "" "") + 2206).
Proof.
  assert (Hb : forall m t, String.length (Enhanced.truncate m t) <= m + 3).
  { intros m t. unfold Enhanced.truncate.
    destruct (Nat.ltb_spec m (String.length t)).
    - rewrite append_length, take_length by lia. simpl. lia.
    - lia. }
  unfold Enhanced.truncate at 1 2 3.
  destruct (Nat.ltb_spec n (String.length s)) as [Hlt|Hge].
  - split; [lia |]. split.
    + intros _. split; [reflexivity |].
      rewrite append_length, take_length by lia. reflexivity.
    + split; [apply Hb |]. split.
      * unfold Enhanced.truncate.
        replace (n <? String.length s) with true
          by (symmetry; apply Nat.ltb_lt; lia).
        rewrite take_app_le by (rewrite take_length; lia).
        apply take_take.
      * split; [apply truncate_idem |].
        intros subject body. rewrite prompt_length.
        pose proof (Hb Enhanced.max_subject_length subject).
        pose proof (Hb Enhanced.max_body_length body).
        unfold Enhanced.max_subject_length, Enhanced.max_body_length in *. lia.
  - split; [reflexivity |]. split; [lia |].
    split; [apply Hb |]. split.
    + unfold Enhanced.truncate.
      replace (n <? String.length s) with false
        by (symmetry; apply Nat.ltb_ge; lia).
      reflexivity.
    + split; [apply truncate_idem |].
      intros subject body. rewrite prompt_length.
      pose proof (Hb Enhanced.max_subject_length subject).
      pose proof (Hb Enhanced.max_body_length body).
      unfold Enhanced.max_subject_length, Enhanced.max_body_length in *. lia.
Qed.

Lemma truncate_bounds_witness :
  Enhanced.truncate 5 "Hello" = "Hello"%string /\
  Enhanced.truncate 5 "Hello, world" = "Hello..."%string.
Proof.
  split.
  - apply (proj1 (truncate_bounds 5 "Hello")). simpl. lia.
  - refine (proj1 (proj1 (proj2 (truncate_bounds 5 "Hello, world")) _)).
    simpl. lia.
Defined.

(** ** Snippets *)

Section Argmax.

Variable f : nat -> nat.

(** A loop that keeps the first position of the largest value seen. *)
Lemma argmax_fold :
  forall n a p0 s0,
    let ps := fold_left
                (fun '(p, s) i => if s <? f i then (i, f i) else (p, s))
                (seq a n) (p0, s0) in
    s0 <= snd ps /\
    (forall i, a <= i < a + n -> f i <= snd ps) /\
    (ps = (p0, s0) \/
     (a <= fst ps < a + n /\ snd ps = f (fst ps) /\ s0 < snd ps /\
      forall i, a <= i < fst ps -> f i < snd ps)).
Proof.
  induction n as [|n IH]; intros a p0 s0; cbn [seq fold_left].
  - cbv zeta. cbn [fst snd]. split; [lia |]. split; [intros i Hi; lia |].
    now left.
  - cbv zeta.
    destruct (Nat.ltb_spec s0 (f a)) as [Hlt|Hge].
    + specialize (IH (S a) a (f a)). cbv zeta in IH.
      destruct IH as (H1 & H2 & H3).
      split; [lia |]. split.
      * intros i Hi. destruct (Nat.eq_dec i a) as [->|Hne]; [exact H1 |].
        apply H2. lia.
      * right. destruct H3 as [E | (Hp & Hs & Hgt & Hfirst)].
        -- rewrite E. cbn [fst snd]. repeat split; try lia; intros i Hi; lia.
        -- repeat split; try lia; intros i Hi.
           destruct (Nat.eq_dec i a) as [->|Hne]; [lia |].
           apply Hfirst. lia.
    + specialize (IH (S a) p0 s0). cbv zeta in IH.
      destruct IH as (H1 & H2 & H3).
      split; [lia |]. split.
      * intros i Hi. destruct (Nat.eq_dec i a) as [->|Hne]; [lia |].
        apply H2. lia.
      * destruct H3 as [E | (Hp & Hs & Hgt & Hfirst)]; [now left | right].
        repeat split; try lia; intros i Hi.
        destruct (Nat.eq_dec i a) as [->|Hne]; [lia |].
        apply Hfirst. lia.
Qed.

End Argmax.

Lemma take_length_le n s : String.length (Text.take n s) <= n.
Proof.
  revert s. induction n as [|n IH]; intros [|c s]; simpl; try lia.
  specialize (IH s). lia.
Qed.

Lemma take_all n s : String.length s <= n -> Text.take n s = s.
Proof.
  revert s. induction n as [|n IH]; intros [|c s] H; simpl in *;
    try reflexivity; try lia.
  rewrite IH; [reflexivity | lia].
Qed.

Lemma drop_length n s : String.length (Text.drop n s) = String.length s - n.
Proof.
  revert s. induction n as [|n IH]; intros [|c s]; simpl; try lia.
  apply IH.
Qed.

Lemma slice_length i j s :
  j <= String.length s -> String.length (Text.slice i j s) = j - i.
Proof.
  intros H. unfold Text.slice. apply take_length. rewrite drop_length. lia.
Qed.

Lemma slice_length_le i j s : String.length (Text.slice i j s) <= j - i.
Proof. apply take_length_le. Qed.

Lemma take_drop n s : (Text.take n s ++ Text.drop n s)%string = s.
Proof.
  revert s. induction n as [|n IH]; intros [|c s]; simpl; try reflexivity.
  now rewrite IH.
Qed.

(** A slice, and every beginning of it, is a piece of the string. *)
Lemma take_slice_substring cut i j s :
  Text.substring_of (Text.take cut (Text.slice i j s)) s.
Proof.
  unfold Text.slice.
  exists (Text.take i s),
    (Text.drop cut (Text.take (j - i) (Text.drop i s)) ++
     Text.drop (j - i) (Text.drop i s))%string.
  rewrite <- (take_drop i s) at 1. f_equal.
  rewrite <- (take_drop (j - i) (Text.drop i s)) at 1.
  rewrite <- (take_drop cut (Text.take (j - i) (Text.drop i s))) at 1.
  clear. generalize (Text.take cut (Text.take (j - i) (Text.drop i s))).
  intros a. induction a as [|c a IH]; simpl; [reflexivity | now rewrite IH].
Qed.

Lemma rfind_lt c s i : Text.rfind c s = Some i -> i < String.length s.
Proof.
  revert i. induction s as [|a s IH]; intros i H; simpl in *; [discriminate |].
  destruct (Text.rfind c s) as [j|].
  - injection H as <-. specialize (IH j eq_refl). lia.
  - destruct (Ascii.eqb a c); [injection H as <-; lia | discriminate].
Qed.

Lemma string_app_nil_r s : (s ++ "")%string = s.
Proof. induction s as [|c s IH]; simpl; [reflexivity | now rewrite IH]. Qed.

(** The snippet in terms of the chosen window. *)
Lemma create_snippet_window document query max_length :
  let p := fst (best_window document query max_length) in
  let window := Text.slice p (p + max_length) document in
  exists cut,
    cut <= max_length /\
    SemanticSearchEngine._create_snippet document query max_length =
    (Text.take cut window ++
     if (String.length window =? max_length)%nat
        && (p + max_length <? String.length document)%nat
     then "..." else "")%string.
Proof.
  cbv zeta. unfold SemanticSearchEngine._create_snippet, best_window.
  cbv zeta. unfold window_score, windows.
  destruct (fold_left _ _ (0, 0)) as [p s]. cbn [fst].
  set (window := Text.slice p (p + max_length) document).
  assert (Hw : String.length window <= max_length).
  { unfold window. pose proof (slice_length_le p (p + max_length) document).
    lia. }
  destruct ((String.length window =? max_length)%nat
            && (p + max_length <? String.length document)%nat) eqn:C.
  - destruct (Text.rfind " " window) as [ls|] eqn:R.
    + destruct (max_length * 8 <? ls * 10).
      * exists ls. split; [|reflexivity].
        apply rfind_lt in R. lia.
      * exists max_length. split; [lia |]. now rewrite take_all.
    + exists max_length. split; [lia |]. now rewrite take_all.
  - exists max_length. split; [lia |].
    now rewrite take_all, string_app_nil_r.
Qed.

Lemma create_snippet_length document query max_length :
  String.length
    (SemanticSearchEngine._create_snippet document query max_length)
  <= max_length + 3.
Proof.
  destruct (create_snippet_window document query max_length)
    as (cut & Hcut & E).
  cbv zeta in E. rewrite E, append_length.
  pose proof (take_length_le cut
                (Text.slice (fst (best_window document query max_length))
                   (fst (best_window document query max_length) + max_length)
                   document)).
  destruct (_ && _); simpl; lia.
Qed.

(** X11. The snippet is cut from the window that holds the most query
    terms, the first such window when several hold as many: no window
    scores higher than the chosen one and every earlier window scores
    lower.  The snippet is the beginning of that window, followed by three
    dots when the window is full and ends before the document does. *)
Theorem create_snippet_best_window (document query : string) (max_length : nat) :
  let score := window_score document query max_length in
  let p := fst (best_window document query max_length) in
  let window := Text.slice p (p + max_length) document in
  (0 < windows document max_length ->
   p < windows document max_length /\
   (forall i, i < windows document max_length -> score i <= score p) /\
   (forall i, i < p -> score i < score p)) /\
  (exists cut,
     cut <= max_length /\
     SemanticSearchEngine._create_snippet document query max_length =
     (Text.take cut window ++
      if (String.length window =? max_length)%nat
         && (p + max_length <? String.length document)%nat
      then "..." else "")%string).
Proof.
  cbv zeta. split; [|apply create_snippet_window].
  intros Hn. unfold best_window.
  pose proof (argmax_fold (window_score document query max_length)
                (windows document max_length) 0 0 0) as H.
  cbv zeta in H. destruct H as (_ & Hmax & Hfirst).
  destruct Hfirst as [E | (Hp & Hs & Hgt & Hlt)].
  - rewrite E in *. cbn [fst snd] in *. split; [exact Hn |].
    assert (Hz : forall i, i < windows document max_length ->
                           window_score document query max_length i = 0).
    { intros i Hi. specialize (Hmax i). lia. }
    split; [| intros i Hi; lia].
    intros i Hi. rewrite (Hz i Hi). lia.
  - split; [lia |]. split.
    + intros i Hi. rewrite <- Hs. apply Hmax. lia.
    + intros i Hi. rewrite <- Hs. apply Hlt. lia.
Qed.

Lemma create_snippet_best_window_witness :
  fst (best_window "aaaa bbbb cccc dddd eeee ffff" "DDDD" 10) = 9 /\
  SemanticSearchEngine._create_snippet "aaaa bbbb cccc dddd eeee ffff" "DDDD" 10 =
    " cccc dddd..."%string /\
  window_score "aaaa bbbb cccc dddd eeee ffff" "DDDD" 10 3 <=
  window_score "aaaa bbbb cccc dddd eeee ffff" "DDDD" 10
    (fst (best_window "aaaa bbbb cccc dddd eeee ffff" "DDDD" 10)).
Proof.
  split; [reflexivity |]. split; [reflexivity |].
  apply (proj1 (proj2 (proj1 (create_snippet_best_window
                                "aaaa bbbb cccc dddd eeee ffff" "DDDD" 10)
                         ltac:(vm_compute; lia)))).
  vm_compute. lia.
Defined.

(** X12. A document of at most [max_length] characters is its own
    snippet.  In general the snippet has at most [max_length + 3]
    characters, and without its closing dots it is a piece of the
    document. *)
Theorem create_snippet_bounds (document query : string) (max_length : nat) :
  (String.length document <= max_length ->
   SemanticSearchEngine._create_snippet document query max_length = document) /\
  String.length
    (SemanticSearchEngine._create_snippet document query max_length)
  <= max_length + 3 /\
  (exists piece dots,
     SemanticSearchEngine._create_snippet document query max_length =
       (piece ++ dots)%string /\
     Text.substring_of piece document /\
     (dots = ""%string \/ dots = "..."%string)).
Proof.
  destruct (create_snippet_window document query max_length)
    as (cut & Hcut & E).
  cbv zeta in E.
  set (p := fst (best_window document query max_length)) in *.
  set (window := Text.slice p (p + max_length) document) in *.
  split; [| split].
  - intros Hshort. clear E.
    assert (Hp : p = 0).
    { pose proof (argmax_fold (window_score document query max_length)
                    (windows document max_length) 0 0 0) as H.
      cbv zeta in H.
      change (fold_left _ (seq 0 (windows document max_length)) (0, 0))
        with (best_window document query max_length) in H.
      fold p in H. destruct H as (_ & _ & [H | (H & _)]).
      - unfold p. now rewrite H.
      - unfold windows in H. lia. }
    unfold SemanticSearchEngine._create_snippet. cbv zeta.
    fold (windows document max_length).
    change (fold_left _ (seq 0 (windows document max_length)) (0, 0))
      with (best_window document query max_length).
    subst window. unfold p in Hp. clear p.
    destruct (best_window document query max_length) as [p' s'].
    cbn [fst] in Hp. subst p'.
    assert (Hs : Text.slice 0 (0 + max_length) document = document).
    { unfold Text.slice. simpl. rewrite Nat.sub_0_r. now apply take_all. }
    rewrite Hs.
    replace (0 + max_length <? String.length document) with false
      by (symmetry; apply Nat.ltb_ge; lia).
    now rewrite andb_false_r.
  - apply create_snippet_length.
  - exists (Text.take cut window),
      (if (String.length window =? max_length)%nat
          && (p + max_length <? String.length document)%nat
       then "..." else "")%string.
    split; [exact E |]. split; [apply take_slice_substring |].
    destruct (_ && _); auto.
Qed.

Lemma create_snippet_bounds_witness :
  SemanticSearchEngine._create_snippet "Refund please" "refund" 200 =
  "Refund please"%string.
Proof.
  apply (proj1 (create_snippet_bounds "Refund please" "refund" 200)).
  simpl. lia.
Defined.

(** ** Shapes of the entities *)

Lemma lang_plus_chr p u :
  Re.lang (Re.plus (Re.Chr p)) u -> u <> [] /\ all_of p u.
Proof.
  intros H. inversion H; subst.
  apply lang_chr_inv in H2. destruct H2 as (c & -> & Pc).
  apply lang_star_chr in H4. split; [discriminate |].
  constructor; auto.
Qed.

Lemma lang_opt_inv r u : Re.lang (Re.opt r) u -> Re.lang r u \/ u = [].
Proof.
  intros H. inversion H; subst; [now left | right].
  match goal with E : Re.lang Re.Eps _ |- _ => now inversion E end.
Qed.

Lemma lang_seq_inv r1 r2 u :
  Re.lang (Re.Seq r1 r2) u ->
  exists u1 u2, u = u1 ++ u2 /\ Re.lang r1 u1 /\ Re.lang r2 u2.
Proof. intros H. inversion H; subst. eauto. Qed.

Lemma lang_eps_inv u : Re.lang Re.Eps u -> u = [].
Proof. intros H. now inversion H. Qed.

Lemma lang_bnd_inv u : Re.lang Re.Bnd u -> u = [].
Proof. intros H. now inversion H. Qed.

Lemma lang_one_of set u :
  Re.lang (Re.Chr (Re.one_of set)) u ->
  exists c, u = [c] /\ In c (list_ascii_of_string set).
Proof.
  intros H. apply lang_chr_inv in H. destruct H as (c & -> & Pc).
  exists c. split; [reflexivity |].
  unfold Re.one_of in Pc. apply existsb_exists in Pc.
  destruct Pc as (x & Hx & E). apply Ascii.eqb_eq in E. now subst.
Qed.

Ltac split_seq H :=
  let u1 := fresh "u" in
  let u2 := fresh "u" in
  let E := fresh "E" in
  let L := fresh "L" in
  apply lang_seq_inv in H; destruct H as (u1 & u2 & E & L & H); subst.

Lemma lang_email_pattern u :
  Re.lang TextAnalyzer.email_pattern u ->
  email_shape (string_of_list_ascii u).
Proof.
  unfold TextAnalyzer.email_pattern, Re.seqs. cbn [fold_right]. intros H.
  split_seq H. apply lang_bnd_inv in L. subst.
  split_seq H. apply lang_plus_chr in L. destruct L as [Nl Fl].
  split_seq H. apply lang_one_of in L. destruct L as (c & -> & [<-|[]]).
  split_seq H. apply lang_plus_chr in L. destruct L as [Nd Fd].
  split_seq H. apply lang_one_of in L. destruct L as (c & -> & [<-|[]]).
  split_seq H. apply lang_at_least_chr in L. destruct L as [Nt Ft].
  split_seq H. apply lang_bnd_inv in L. apply lang_eps_inv in H. subst.
  cbn [app]. rewrite !app_nil_r.
  match goal with
  | |- email_shape (string_of_list_ascii (?l ++ _ :: ?d ++ _ :: ?t)) =>
      exists l, d, t
  end.
  repeat split; auto.
Qed.

Lemma lang_separator u :
  Re.lang (Re.opt (Re.Chr (Re.one_of "-."))) u -> separator u.
Proof.
  intros H. apply lang_opt_inv in H. destruct H as [H| ->]; [|now left].
  apply lang_chr_inv in H. destruct H as (c & -> & Pc). right. eauto.
Qed.

Lemma lang_phone_pattern u :
  Re.lang TextAnalyzer.phone_pattern u ->
  phone_shape (string_of_list_ascii u).
Proof.
  unfold TextAnalyzer.phone_pattern, Re.seqs. cbn [fold_right]. intros H.
  split_seq H. apply lang_bnd_inv in L. subst.
  split_seq H. apply lang_rep_chr in L. rename L into La.
  split_seq H. apply lang_separator in L. rename L into L1.
  split_seq H. apply lang_rep_chr in L. rename L into Lb.
  split_seq H. apply lang_separator in L. rename L into L2.
  split_seq H. apply lang_rep_chr in L. rename L into Lc.
  split_seq H. apply lang_bnd_inv in L. apply lang_eps_inv in H. subst.
  cbn [app]. rewrite !app_nil_r.
  match goal with
  | |- phone_shape (string_of_list_ascii (?a ++ ?s1 ++ ?b ++ ?s2 ++ ?c)) =>
      exists a, s1, b, s2, c
  end.
  repeat split; try tauto; try apply La; try apply Lb; try apply Lc.
Qed.

Lemma lang_money_pattern u :
  Re.lang TextAnalyzer.money_pattern u ->
  money_shape (string_of_list_ascii u).
Proof.
  unfold TextAnalyzer.money_pattern, Re.seqs. cbn [fold_right]. intros H.
  split_seq H. apply lang_one_of in L. destruct L as (c & -> & [<-|[]]).
  split_seq H. apply lang_plus_chr in L. destruct L as [Nw Fw].
  split_seq H. apply lang_eps_inv in H. subst. rewrite app_nil_r.
  cbn [app].
  match goal with
  | |- money_shape (string_of_list_ascii (_ :: ?w ++ ?f)) => exists w, f
  end.
  split; [reflexivity |]. split; [exact Nw |]. split; [exact Fw |].
  apply lang_opt_inv in L. destruct L as [L| ->]; [right | now left].
  split_seq L. apply lang_one_of in L0. destruct L0 as (c & -> & [<-|[]]).
  split_seq L. apply lang_rep_chr in L0. apply lang_eps_inv in L. subst.
  rewrite app_nil_r. cbn [app]. eexists. split; [reflexivity |]. exact L0.
Qed.

Lemma run_grp r st k :
  Re.run (Re.Grp r) st k =
  Re.run r st
    (fun st1 => k (Re.mkState (Re.prev st1) (Re.rest st1) (Re.pos st1)
                              (Some (Re.pos st, Re.pos st1)))).
Proof. reflexivity. Qed.

(** A match of the order pattern reports what its group read: letters and
    digits, one at least. *)
Lemma run_order_pattern before s p st :
  Re.run TextAnalyzer.order_pattern (Re.mkState before s p None) Some = Some st ->
  Re.reported p s st <> [] /\ all_of Text.is_alnum (Re.reported p s st).
Proof.
  unfold TextAnalyzer.order_pattern, Re.seqs. cbn [fold_right]. intros H.
  rewrite run_seq in H.
  apply run_sound in H. destruct H as (u1 & st1 & (_ & R1 & P1 & _) & H).
  rewrite run_seq in H.
  apply run_sound in H. destruct H as (u2 & st2 & (_ & R2 & P2 & _) & H).
  rewrite run_seq in H.
  apply run_sound in H. destruct H as (u3 & st3 & (_ & R3 & P3 & _) & H).
  rewrite run_seq in H.
  apply run_sound in H. destruct H as (u4 & st4 & (_ & R4 & P4 & _) & H).
  rewrite run_seq, run_grp in H.
  apply run_sound in H. destruct H as (u5 & st5 & (L5 & R5 & P5 & _) & H).
  cbn [Re.run] in H.
  injection H as <-. cbn [Re.rest Re.pos] in *.
  unfold Re.reported. cbn [Re.cap].
  assert (E : Re.slice (Re.pos st4 - p) (Re.pos st5 - p) s = u5).
  { unfold Re.slice. rewrite R1, R2, R3, R4, R5, P5, P4, P3, P2, P1.
    rewrite !app_assoc. rewrite <- (app_assoc _ u5).
    rewrite skipn_app, skipn_all2 by (rewrite !length_app; lia).
    cbn [app].
    replace (_ - List.length (((u1 ++ u2) ++ u3) ++ u4)) with 0
      by (rewrite !length_app; lia).
    cbn [skipn].
    rewrite firstn_app.
    replace (_ - List.length u5) with 0 by lia.
    cbn [firstn]. rewrite app_nil_r. apply firstn_all2. lia. }
  rewrite E. now apply lang_plus_chr.
Qed.

(** What a scan reports satisfies whatever every single match does. *)
Lemma scan_reported r (P : list ascii -> Prop) :
  (forall before s p st,
      Re.run r (Re.mkState before s p None) Some = Some st ->
      P (Re.reported p s st)) ->
  forall s before p skip q v,
    In (q, v) (Re.scan r before s p skip) ->
    exists u, v = string_of_list_ascii u /\ P u.
Proof.
  intros Hhere. induction s as [|c s IH]; intros before p skip q v H;
    simpl in H.
  - destruct skip as [|n]; simpl in H; [|contradiction].
    destruct (Re.run _ _ _) eqn:E; simpl in H; [|contradiction].
    try rewrite app_nil_r in H. destruct H as [H|[]]. injection H as _ <-.
    apply Hhere in E. eauto.
  - destruct skip as [|n]; simpl in H; [|eauto].
    destruct (Re.run _ _ _) eqn:E; simpl in H; [|eauto].
    destruct H as [H|H]; [|eauto]. injection H as _ <-.
    apply Hhere in E. eauto.
Qed.

Lemma findall_lang r (P : string -> Prop) text v :
  groupless r = true ->
  (forall u, Re.lang r u -> P (string_of_list_ascii u)) ->
  In v (Re.findall r text) -> P v.
Proof.
  intros G HP H. apply findall_In in H. destruct H as (q & H).
  apply scan_values in H; [|exact G].
  destruct H as (u & -> & L & _). now apply HP.
Qed.

(** X13. Every entity has the shape of its type: an address is
    [local@domain.tld], a phone number is ten digits in groups of three,
    three and four with at most one separator between the groups, an order
    id is a non-empty run of letters and digits, and an amount is a dollar
    sign, digits and at most a point with two digits.  The last label of
    an address may hold a vertical bar, which the character class of the
    pattern lets through. *)
Theorem extract_entities_shapes (text : string) (e : Entity) :
  (In e (TextAnalyzer.extract_entities text) ->
   (etype e = "email"%string /\ email_shape (evalue e)) \/
   (etype e = "phone"%string /\ phone_shape (evalue e)) \/
   (etype e = "order_id"%string /\ order_shape (evalue e)) \/
   (etype e = "money"%string /\ money_shape (evalue e))) /\
  TextAnalyzer.extract_entities "write to a@b.x|y today" =
    [mkEntity "email" "a@b.x|y"].
Proof.
  split; [|reflexivity].
  unfold TextAnalyzer.extract_entities, TextAnalyzer.entities_of.
  cbn [app]. rewrite <- !app_assoc, !in_app_iff, !in_map_iff.
  intros [(v & <- & H) | [(v & <- & H) | [(v & <- & H) | (v & <- & H)]]];
    cbn [etype evalue].
  - left. split; [reflexivity |]. revert H.
    apply findall_lang; [reflexivity | apply lang_email_pattern].
  - right; left. split; [reflexivity |]. revert H.
    apply findall_lang; [reflexivity | apply lang_phone_pattern].
  - right; right; left. split; [reflexivity |].
    apply findall_In in H. destruct H as (q & H).
    apply (scan_reported TextAnalyzer.order_pattern
             (fun u => u <> [] /\ all_of Text.is_alnum u)) in H.
    + destruct H as (u & -> & N & F). now exists u.
    + intros. eapply run_order_pattern; eauto.
  - right; right; right. split; [reflexivity |]. revert H.
    apply findall_lang; [reflexivity | apply lang_money_pattern].
Qed.

Lemma extract_entities_shapes_witness :
  (etype (mkEntity "phone" "555-123-4567") = "email"%string /\
   email_shape (evalue (mkEntity "phone" "555-123-4567"))) \/
  (etype (mkEntity "phone" "555-123-4567") = "phone"%string /\
   phone_shape (evalue (mkEntity "phone" "555-123-4567"))) \/
  (etype (mkEntity "phone" "555-123-4567") = "order_id"%string /\
   order_shape (evalue (mkEntity "phone" "555-123-4567"))) \/
  (etype (mkEntity "phone" "555-123-4567") = "money"%string /\
   money_shape (evalue (mkEntity "phone" "555-123-4567"))).
Proof.
  apply (proj1 (extract_entities_shapes "call 555-123-4567"
                  (mkEntity "phone" "555-123-4567"))).
  vm_compute. auto.
Defined.

(** ** The classification endpoint *)

Lemma category_of_string_value s cat :
  category_of_string s = Some cat -> s = category_value cat.
Proof.
  unfold category_of_string. intros H. apply find_some in H.
  destruct H as [_ H]. now apply String.eqb_eq in H.
Qed.

Lemma optional_str_accepts v :
  v <> Some JOther <-> exists sub, EmailProcessor.optional_str v = Some sub.
Proof.
  destruct v as [[|s|]|]; simpl; split; intros H; eauto; try discriminate.
  - now contradiction H.
  - destruct H as (sub & H). discriminate.
Qed.

Lemma build_classification_ok ai priority sentiment keywords entities c :
  EmailProcessor.build_classification ai priority sentiment keywords entities
    = Ok c ->
  ai_category ai = Some (category_value (category c)) /\
  ai_confidence ai = Some (confidence c) /\
  EmailProcessor.optional_str (ai_subcategory ai) = Some (subcategory c) /\
  (0 <= confidence c)%Q /\ (confidence c <= 1)%Q.
Proof.
  unfold EmailProcessor.build_classification.
  destruct (ai_category ai) as [s|]; [|discriminate].
  destruct (ai_confidence ai) as [conf|]; [|discriminate].
  destruct (category_of_string s) as [cat|] eqn:Hc; [|discriminate].
  destruct (EmailProcessor.optional_str _) as [sub|]; [|discriminate].
  destruct (Qle_bool 0 conf) eqn:Q0; [|discriminate].
  destruct (Qle_bool conf 1) eqn:Q1; [|discriminate].
  cbn [andb]. intros H. injection H as <-. cbn.
  apply category_of_string_value in Hc. subst s.
  apply Qle_bool_imp_le in Q0, Q1. auto.
Qed.

(** X14. [POST /classify] answers 200 exactly when the service answered
    with a JSON object whose category is a value of the enum, whose
    confidence is read as a number in [0, 1] and whose subcategory is
    absent, [null] or a string; the body then carries that category,
    confidence and subcategory.  In every other case, a subcategory of
    another type among them, the answer is 500.  One request is made
    either way: the endpoint never asks twice. *)
Theorem classify_endpoint_answers
    (client : Client) (json_loads : string -> option AiClassification)
    (email : EmailRequest) (w : Log) :
  let text := EmailProcessor.email_content email in
  let run := Endpoints.classify_email client json_loads email w in
  ((exists c, fst run = Endpoints.Http200 c) <->
   (exists reply ai cat conf,
      client (requests_made w) (LLMClient.classification_request text) =
        CompletionContent reply /\
      json_loads reply = Some ai /\
      ai_category ai = Some (category_value cat) /\
      ai_confidence ai = Some conf /\
      ai_subcategory ai <> Some JOther /\
      (0 <= conf)%Q /\ (conf <= 1)%Q)) /\
  (forall c, fst run = Endpoints.Http200 c ->
     exists reply ai,
       client (requests_made w) (LLMClient.classification_request text) =
         CompletionContent reply /\
       json_loads reply = Some ai /\
       ai_category ai = Some (category_value (category c)) /\
       ai_confidence ai = Some (confidence c) /\
       match ai_subcategory ai with
       | Some (JString s) => subcategory c = Some s
       | Some JNull | None => subcategory c = None
       | Some JOther => False
       end) /\
  ((forall c, fst run <> Endpoints.Http200 c) ->
   exists e, fst run = Endpoints.Http500 e) /\
  (forall reply ai,
     client (requests_made w) (LLMClient.classification_request text) =
       CompletionContent reply ->
     json_loads reply = Some ai ->
     ai_subcategory ai = Some JOther ->
     exists e, fst run = Endpoints.Http500 e) /\
  requests_made (snd run) = requests_made w + 1.
Proof.
  cbv zeta. unfold Endpoints.classify_email.
  pose proof (processor_classify_log client json_loads email w) as L.
  unfold EmailProcessor.classify_email, LLMClient.classify_email in *.
  cbv zeta in *.
  destruct (client _ _) as [|reply] eqn:A; cbn [fst snd] in *.
  { split; [split | split; [| split; [| split]]].
    - intros (c & H). discriminate.
    - intros (reply & ai & cat & conf & H & _). discriminate.
    - intros c H. discriminate.
    - eauto.
    - intros reply ai H. discriminate.
    - now rewrite requests_made_request. }
  destruct (json_loads reply) as [ai|] eqn:J; cbn [fst snd] in *.
  2: { split; [split | split; [| split; [| split]]].
       - intros (c & H). discriminate.
       - intros (reply' & ai & cat & conf & H & J' & _).
         injection H as <-. congruence.
       - intros c H. discriminate.
       - eauto.
       - intros reply' ai H J'. injection H as <-. congruence.
       - now rewrite requests_made_request. }
  destruct (EmailProcessor.build_classification ai _ _ _ _) as [c|e] eqn:B;
    cbn [fst snd].
  - apply build_classification_ok in B.
    destruct B as (Bc & Bf & Bs & B0 & B1).
    assert (Hsub : ai_subcategory ai <> Some JOther).
    { apply optional_str_accepts. eauto. }
    split; [split | split; [| split; [| split]]].
    + intros _. exists reply, ai, (category c), (confidence c).
      repeat split; assumption || reflexivity.
    + intros _. eauto.
    + intros c' H. injection H as <-. exists reply, ai.
      split; [reflexivity |]. split; [assumption |].
      split; [assumption |]. split; [assumption |].
      destruct (ai_subcategory ai) as [[|s|]|]; simpl in Bs;
        try (now injection Bs as <-). now contradiction Hsub.
    + intros H. exfalso. now apply (H c).
    + intros reply' ai' H J' Hs. injection H as <-.
      rewrite J in J'. injection J' as <-. contradiction.
    + now rewrite requests_made_request.
  - split; [split | split; [| split; [| split]]].
    + intros (c & H). discriminate.
    + intros (reply' & ai' & cat & conf & H & J' & Hc & Hf & Hs & H0 & H1).
      injection H as <-. rewrite J in J'. injection J' as <-.
      exfalso. revert B. unfold EmailProcessor.build_classification.
      rewrite Hc, Hf.
      assert (Hcat : category_of_string (category_value cat) = Some cat)
        by (destruct cat; reflexivity).
      rewrite Hcat.
      apply optional_str_accepts in Hs. destruct Hs as (sub & ->).
      apply Qle_bool_iff in H0, H1. rewrite H0, H1. discriminate.
    + intros c H. discriminate.
    + eauto.
    + eauto.
    + now rewrite requests_made_request.
Qed.

Lemma classify_endpoint_answers_witness :
  exists e,
    fst (Endpoints.classify_email
           (fun _ _ => CompletionContent "{...}")
           (fun _ => Some (mkAi (Some "order") (Some JOther) (Some (9 # 10))))
           Samples.an_email []) = Endpoints.Http500 e.
Proof.
  apply (proj1 (proj2 (proj2 (proj2 (classify_endpoint_answers
                                       (fun _ _ => CompletionContent "{...}")
                                       (fun _ => Some (mkAi (Some "order")
                                                         (Some JOther)
                                                         (Some (9 # 10))))
                                       Samples.an_email []))))
           "{...}"%string
           (mkAi (Some "order") (Some JOther) (Some (9 # 10)))
           eq_refl eq_refl eq_refl).
Defined.

(** ** Results of the search engine *)

Lemma make_result_valid svc id md snip score sr :
  SemanticSearchEngine.make_result svc id md snip score = Ok sr ->
  SemanticSearchEngine.snippet sr = snip /\
  (0 <= SemanticSearchEngine.similarity_score sr)%Q /\
  (SemanticSearchEngine.similarity_score sr <= 1)%Q /\
  SemanticSearchEngine.is_datetime svc (SemanticSearchEngine.timestamp sr) = true /\
  category_of_string
    (SemanticSearchEngine.get_or (SemanticSearchEngine.m_category md) "general") =
    Some (SemanticSearchEngine.sr_category sr).
Proof.
  unfold SemanticSearchEngine.make_result.
  destruct (category_of_string _) as [cat|]; [|discriminate]. cbv zeta.
  destruct (Qle_bool 0 score) eqn:Q0; [|discriminate].
  destruct (Qle_bool score 1) eqn:Q1; [|discriminate]. cbn [andb negb].
  destruct (SemanticSearchEngine.is_datetime svc _) eqn:D; [|discriminate].
  cbn [negb]. intros H. injection H as <-. cbn.
  apply Qle_bool_imp_le in Q0, Q1. auto.
Qed.

Lemma make_result_unknown_category svc id md snip score :
  category_of_string
    (SemanticSearchEngine.get_or (SemanticSearchEngine.m_category md) "general") =
    None ->
  SemanticSearchEngine.make_result svc id md snip score = Raise ValueError.
Proof. unfold SemanticSearchEngine.make_result. now intros ->. Qed.

(** One neighbour that cannot be turned into a result ends the loop. *)
Lemma collect_raise keep mk hits acc h e :
  In h hits -> keep h = true -> mk h = Raise e ->
  exists e', collect keep mk hits acc = Raise e'.
Proof.
  revert acc. induction hits as [|x xs IH]; intros acc Hin Hk Hm;
    [contradiction |].
  cbn [collect]. destruct Hin as [->|Hin].
  - rewrite Hk, Hm. eauto.
  - destruct (keep x); [|now apply IH].
    destruct (mk x); [now apply IH | eauto].
Qed.

Lemma collect_all_ids mk hits rs :
  (forall h sr, mk h = Ok sr ->
     SemanticSearchEngine.email_id sr = SemanticSearchEngine.hit_id h) ->
  Forall2 (fun h sr => mk h = Ok sr) hits rs ->
  map SemanticSearchEngine.email_id rs = map SemanticSearchEngine.hit_id hits.
Proof.
  intros Hmk F. induction F as [|h sr hs rs E F IH]; [reflexivity |].
  cbn [map]. now rewrite IH, (Hmk _ _ E).
Qed.

Lemma filter_true {A} (l : list A) : filter (fun _ => true) l = l.
Proof. induction l as [|x l IH]; simpl; [reflexivity | now rewrite IH]. Qed.

(** X15. What [search] returns is well formed: one result for every
    neighbour, in the order of the neighbours, counted by [total_count];
    every snippet has at most 203 characters, every score lies in [0, 1]
    and every timestamp is a date.  A single neighbour whose stored
    category is no value of the enum costs all the results: [search]
    raises, and [find_similar] answers with the empty list. *)
Theorem search_results_wellformed
    (svc : SemanticSearchEngine.Services) (q : SemanticSearchEngine.SearchQuery)
    (id : string) (lim : nat) :
  let where_ := option_map category_value
                  (SemanticSearchEngine.category_filter q) in
  let unknown_category := fun h =>
    category_of_string
      (SemanticSearchEngine.get_or
         (SemanticSearchEngine.m_category (SemanticSearchEngine.hit_metadata h))
         "general") = None in
  (forall rs n,
     snd (SemanticSearchEngine.search svc q) = Ok (rs, n) ->
     n = List.length rs /\
     (exists e hits,
        SemanticSearchEngine.embeddings_create svc
          (SemanticSearchEngine.query q) = Ok e /\
        SemanticSearchEngine.collection_query svc e
          (SemanticSearchEngine.limit q) where_ = Ok hits /\
        map SemanticSearchEngine.email_id rs =
          map SemanticSearchEngine.hit_id hits) /\
     Forall (fun sr =>
               String.length (SemanticSearchEngine.snippet sr) <= 203 /\
               (0 <= SemanticSearchEngine.similarity_score sr)%Q /\
               (SemanticSearchEngine.similarity_score sr <= 1)%Q /\
               SemanticSearchEngine.is_datetime svc
                 (SemanticSearchEngine.timestamp sr) = true) rs) /\
  (forall e hits h,
     SemanticSearchEngine.embeddings_create svc
       (SemanticSearchEngine.query q) = Ok e ->
     SemanticSearchEngine.collection_query svc e
       (SemanticSearchEngine.limit q) where_ = Ok hits ->
     In h hits -> unknown_category h ->
     exists err, snd (SemanticSearchEngine.search svc q) = Raise err) /\
  (forall e hits h,
     SemanticSearchEngine.collection_get svc id = Ok (Some e) ->
     SemanticSearchEngine.collection_query svc e (lim + 1) None = Ok hits ->
     In h hits -> SemanticSearchEngine.hit_id h <> id -> unknown_category h ->
     snd (SemanticSearchEngine.find_similar svc id lim) = Ok []).
Proof.
  cbv zeta. split; [| split].
  - intros rs n H. pose proof (search_cases svc q) as C. cbv zeta in C.
    destruct (SemanticSearchEngine.embeddings_create svc _) as [e|err] eqn:He;
      [|rewrite C in H; discriminate].
    destruct (SemanticSearchEngine.collection_query svc e _ _) as [hits|err]
      eqn:Hq; [|rewrite C in H; discriminate].
    rewrite C in H. cbn [snd] in H.
    destruct (collect _ _ hits []) as [out|err] eqn:K; [|discriminate].
    injection H as <- <-.
    apply collect_ok in K. destruct K as (rs & -> & F). cbn [app].
    rewrite filter_true in F.
    split; [reflexivity |]. split.
    + exists e, hits. split; [reflexivity |]. split; [exact Hq |].
      apply (collect_all_ids (search_result svc q)); [|exact F].
      intros h sr E. now apply make_result_ok in E.
    + revert F. apply Forall2_right. intros h sr _ E.
      apply make_result_valid in E. destruct E as (Es & E0 & E1 & Ed & _).
      rewrite Es. repeat split; auto.
      apply (create_snippet_length (SemanticSearchEngine.hit_document h)
               (SemanticSearchEngine.query q) 200).
  - intros e hits h He Hq Hin Hu.
    pose proof (search_cases svc q) as C. cbv zeta in C.
    rewrite He, Hq in C. rewrite C. cbn [snd].
    destruct (collect_raise (fun _ => true) (search_result svc q) hits [] h
                ValueError Hin eq_refl) as (e' & K).
    { now apply make_result_unknown_category. }
    rewrite K. eauto.
  - intros e hits h Hg Hq Hin Hne Hu.
    pose proof (find_similar_cases svc id lim) as C.
    rewrite Hg, Hq in C. rewrite C. cbn [snd].
    destruct (collect_raise (other_than id) (similar_result svc) hits [] h
                ValueError Hin) as (e' & K).
    { unfold other_than. now apply negb_true_iff, String.eqb_neq. }
    { now apply make_result_unknown_category. }
    now rewrite K.
Qed.

Lemma search_results_wellformed_witness :
  snd (SemanticSearchEngine.find_similar Samples.mislabelled_index "a" 5) =
  Ok [].
Proof.
  apply (proj2 (proj2 (search_results_wellformed Samples.mislabelled_index
                         (SemanticSearchEngine.mkSearchQuery "parcel" 5 None
                            None None) "a" 5))
           [1; 0]%Q (Samples.stored ++ [Samples.mislabelled])
           Samples.mislabelled).
  - reflexivity.
  - reflexivity.
  - simpl. auto.
  - discriminate.
  - reflexivity.
Defined.
